(** * Batch transaction executor and its client SDK

    A shallow embedding of

    - [BatchTransactionContract] (Solidity): [executeBatch], [withdraw] and
      the rejecting [receive]/[fallback];
    - [BatchTransactionSDK] (JavaScript, ethers v5 + bignumber.js): the
      pending transaction list, the per-token approval accumulator and
      [executeBatchTransaction].

    Gas is not modelled: no call of a function runs out of gas and no fee
    is charged; what the 2300 gas of a plain transfer allow its recipient
    to do is a parameter. *)

From Stdlib Require Import NArith ZArith Lia String.
From stdpp Require Import base list strings pretty gmap.

Open Scope string_scope.
Open Scope list_scope.

(* ===================================================================== *)
(** * Part I: the on-chain executor                                       *)
(* ===================================================================== *)

Module Executor.

Open Scope N_scope.

(** ** Chain state *)

(** A 160-bit account address. *)
Definition address := N.

(** [bytes] of Solidity: calldata, return data, revert data. *)
Definition bytes := list Byte.byte.

(** The part of the chain state a call can read and write: the native
    balance of every account and the storage words of every contract.
    [uint256] values are naturals; the arithmetic of Solidity 0.8 is checked
    and is written out where the contract subtracts. *)
Record World := {
  balance : address -> N;
  storage : address -> N -> N;
}.

(** [event OperationExecuted(address indexed target, bool success, bytes data)] *)
Inductive Event :=
| OperationExecuted (target : address) (success : bool) (data : bytes).

(** What a failed call hands back to its caller. *)
Inductive revert_reason :=
| Error (msg : string)     (* revert("...") and require(c, "...") *)
| Panic (code : N)         (* compiler checks: 0x11 arithmetic, 0x32 index *)
| Raw (data : bytes).      (* anything else, e.g. no data at all *)

(** The names the specification gives to the contract's revert strings. *)
Definition MalformedRequest : revert_reason := Error "Mismatched inputs".
Definition SubcallFailed : revert_reason :=
  Error "One of the transactions failed. Reverting all transactions.".
Definition InsufficientFunds : revert_reason :=
  Error "ETH exceeded: Insufficient funds for transactions".
Definition NothingToWithdraw : revert_reason := Error "No funds to withdraw".
Definition DirectPaymentRejected : revert_reason :=
  Error "Direct payments not allowed".

(** The code of an account, as its caller sees it: given [msg.sender],
    [msg.value], the calldata and the world in which the value has already
    been credited, it either returns data and a new world or fails with
    revert data.  An account without code returns no data and leaves the
    world as it is.  A callee is free to call anybody, the executor
    included, so a [Code] may change any part of the world. *)
Inductive CallResult :=
| Returned (ret : bytes) (w : World)
| Failed (revert_data : bytes).

Definition Code := address -> N -> bytes -> World -> CallResult.

Definition externally_owned : Code := fun _ _ _ w => Returned [] w.

(** Move [v] wei from one account to another. *)
Definition move (from to : address) (v : N) (w : World) : World :=
  {| balance := fun a =>
       let b := if a =? from then balance w a - v else balance w a in
       if a =? to then b + v else b;
     storage := storage w |}.

(** One sub-call as the ghost log of a frame records it. *)
Record CallRecord := {
  cr_target : address;
  cr_value : N;
  cr_data : bytes;
}.

(** The running invocation of a contract function: the world, the events
    this invocation has emitted, and a ghost log of the low-level calls it
    has made (kept for reasoning only; the EVM has no such log). *)
Record Frame := {
  world : World;
  emitted : list Event;
  calls : list CallRecord;
}.

(** How an invocation ends.  A revert throws away the world and the events
    of the frame; the ghost log survives so that one can say how far the
    invocation got. *)
Inductive Outcome (A : Type) :=
| Committed (a : A) (f : Frame)
| Reverted (reason : revert_reason) (made : list CallRecord).
Arguments Committed {A} a f.
Arguments Reverted {A} reason made.

(** Contract code is a function from the frame it starts in to an outcome. *)
Definition M (A : Type) := Frame -> Outcome A.

Definition ret {A} (a : A) : M A := fun f => Committed a f.

Definition bind {A B} (m : M A) (k : A -> M B) : M B :=
  fun f => match m f with
           | Committed a f' => k a f'
           | Reverted r c => Reverted r c
           end.

Declare Scope sol_scope.
Delimit Scope sol_scope with sol.
Notation "'let*' p ':=' m 'in' k" :=
  (bind m (fun x => match x with p => k end))
  (at level 10, p pattern, m at level 100, k at level 200) : sol_scope.
Notation "m ;; k" := (bind m (fun _ => k))
  (at level 100, right associativity) : sol_scope.

Definition revert {A} (r : revert_reason) : M A :=
  fun f => Reverted r (calls f).

Definition require (c : bool) (msg : string) : M unit :=
  if c then ret tt else revert (Error msg).

(** [a - b] on [uint256]: panics with 0x11 instead of wrapping. *)
Definition checked_sub (a b : N) : M N :=
  if b <=? a then ret (a - b) else revert (Panic 17).

(** [xs[i]]: panics with 0x32 out of range. *)
Definition index {A} (xs : list A) (i : nat) : M A :=
  match xs !! i with
  | Some x => ret x
  | None => revert (Panic 50)
  end.

Definition emit (e : Event) : M unit :=
  fun f => Committed tt {| world := world f;
                           emitted := emitted f ++ [e];
                           calls := calls f |}.

Section Contract.

(** The executor's own address, the code of every account, which plain
    value transfers a recipient accepts, and what it reverts with when it
    refuses one (with nothing when it has no [receive] function or runs
    out of gas).  [transfer] forwards 2300 gas only: the recipient can
    accept or refuse, and has no gas to write storage or to move value, so
    an accepted transfer changes the two balances and nothing else. *)
Variable this : address.
Variable code_at : address -> Code.
Variable accepts : World -> address -> address -> N -> bool.
Variable refusal : World -> address -> address -> N -> revert_reason.

(** [target.call{value: v}(data)] made by [from]: fails without running the
    callee when [from] cannot pay [v]; a failing callee leaves the world as
    it was before the call. *)
Definition message_call (from target : address) (v : N) (data : bytes)
    (w : World) : bool * bytes * World :=
  if balance w from <? v then (false, [], w)
  else match code_at target from v data (move from target v w) with
       | Returned r w' => (true, r, w')
       | Failed r => (false, r, w)
       end.

(** [address(this).balance] *)
Definition self_balance : M N :=
  fun f => Committed (balance (world f) this) f.

(** [(ok, r) = target.call{value: v}(data)] *)
Definition call (target : address) (v : N) (data : bytes) : M (bool * bytes) :=
  fun f =>
    let '(ok, r, w') := message_call this target v data (world f) in
    Committed (ok, r)
      {| world := w';
         emitted := emitted f;
         calls := calls f ++ [{| cr_target := target; cr_value := v;
                                 cr_data := data |}] |}.

(** What [payable(to).transfer(v)] fails with when [to] does not take the
    payment: Solidity hands on the revert data of the recipient.  The
    executor itself always refuses, with the string of its [receive]
    below. *)
Definition refused (to : address) (v : N) (w : World) : revert_reason :=
  if to =? this then DirectPaymentRejected else refusal w this to v.

(** [payable(to).transfer(v)]: reverts the caller when the executor cannot
    pay (the call is not made and there is no revert data) or the
    recipient refuses. *)
Definition transfer (to : address) (v : N) : M unit :=
  fun f =>
    if balance (world f) this <? v then Reverted (Raw []) (calls f)
    else if negb (to =? this) && accepts (world f) this to v then
      Committed tt {| world := move this to v (world f);
                      emitted := emitted f;
                      calls := calls f |}
    else Reverted (refused to v (world f)) (calls f).

Open Scope sol_scope.

(** The loop of [executeBatch]: [k] iterations are left, [i] is the loop
    counter, [success] and [results] the two memory arrays. *)
Fixpoint batch_loop (targets : list address) (data : list bytes)
    (amount : list N) (k i : nat) (success : list bool)
    (results : list bytes) : M (list bool * list bytes) :=
  match k with
  | O => ret (success, results)
  | S k' =>
      let* t := index targets i in
      let* a := index amount i in
      let* d := index data i in
      let* (ok, r) := call t a d in
      let success := <[i := ok]> success in
      let results := <[i := r]> results in
      if negb ok then
        revert SubcallFailed
      else
        emit (OperationExecuted t ok r) ;;
        batch_loop targets data amount k' (S i) success results
  end.

(** [executeBatch(targets, data, amount)] called by [msg_sender] with
    [msg_value] attached; it starts in a frame whose world already holds
    [msg_value] on the executor's account. *)
Definition executeBatch (msg_sender : address) (msg_value : N)
    (targets : list address) (data : list bytes) (amount : list N)
    : M (list bool * list bytes) :=
  require (length targets =? length data)%nat "Mismatched inputs" ;;
  require (length targets =? length amount)%nat "Mismatched inputs" ;;
  let success := replicate (length targets) false in
  let results := replicate (length targets) ([] : bytes) in
  let* bal := self_balance in
  let* initialBalance := checked_sub bal msg_value in
  let* (success, results) :=
    batch_loop targets data amount (length targets) 0 success results in
  let* finalBalance := self_balance in
  (if finalBalance <? initialBalance
   then revert InsufficientFunds else ret tt) ;;
  let* difference := checked_sub finalBalance initialBalance in
  (if 0 <? difference then transfer msg_sender difference else ret tt) ;;
  ret (success, results).

(** [withdraw()]; not payable, so it is called without value. *)
Definition withdraw (msg_sender : address) : M unit :=
  let* bal := self_balance in
  require (0 <? bal) "No funds to withdraw" ;;
  transfer msg_sender bal.

(** [fallback() external payable] and [receive() external payable] *)
Definition fallback : M unit := revert DirectPaymentRejected.
Definition receive : M unit := revert DirectPaymentRejected.

Close Scope sol_scope.

(** A call of an external function of the executor by [sender] with [value]
    attached, made in world [w]: the value is credited first, then the body
    runs in a fresh frame.  A sender that cannot pay [value] is turned away
    before the body runs. *)
Definition invoke {A} (sender : address) (value : N) (body : M A)
    (w : World) : Outcome A :=
  if balance w sender <? value then Reverted (Raw []) []
  else body {| world := move sender this value w; emitted := []; calls := [] |}.

(** *** The batch as a sequence of sub-calls

    What running the sub-calls one after the other gives, told without the
    loop counter and the memory arrays of [executeBatch]: either all of them
    succeed, or there is a first one that fails. *)

Inductive BatchRun :=
| AllSucceeded (w : World) (rets : list bytes)
| FailedAt (i : nat) (revert_data : bytes).

Fixpoint run_subcalls (w : World) (cs : list CallRecord) : BatchRun :=
  match cs with
  | [] => AllSucceeded w []
  | c :: cs' =>
      match message_call this (cr_target c) (cr_value c) (cr_data c) w with
      | (true, r, w') =>
          match run_subcalls w' cs' with
          | AllSucceeded w'' rs => AllSucceeded w'' (r :: rs)
          | FailedAt i d => FailedAt (S i) d
          end
      | (false, r, _) => FailedAt 0 r
      end
  end.

End Contract.

(** The input triples of a batch, in input order. *)
Definition subcalls (targets : list address) (data : list bytes)
    (amount : list N) : list CallRecord :=
  zip_with (fun td a => {| cr_target := td.1; cr_value := a; cr_data := td.2 |})
           (zip targets data) amount.

(** The events a fully successful batch emits for sub-calls [cs] that
    returned [rets]. *)
Definition operation_events (cs : list CallRecord) (rets : list bytes)
    : list Event :=
  zip_with (fun c r => OperationExecuted (cr_target c) true r) cs rets.

Definition total (amount : list N) : N := foldr N.add 0 amount.

(** The world and the event log a call leaves behind: those of the frame
    when it commits, the ones before the call when it reverts. *)
Definition state_after {A} (w : World) (o : Outcome A) : World :=
  match o with
  | Committed _ f => world f
  | Reverted _ _ => w
  end.

Definition events_of {A} (o : Outcome A) : list Event :=
  match o with
  | Committed _ f => emitted f
  | Reverted _ _ => []
  end.

Definition calls_of {A} (o : Outcome A) : list CallRecord :=
  match o with
  | Committed _ f => calls f
  | Reverted _ c => c
  end.

(** ** Readings of the specification

    Sentences of the specification, written down as they stand, to be
    compared with what the contract does. *)

(** "A [SubcallFailed] error carrying the index and the sub-call's raw
    revert data is raised": index and data can be read back from the
    error. *)
Definition failure_carries_index_and_data : Prop :=
  exists (index_of : revert_reason -> nat) (data_of : revert_reason -> bytes),
  forall this code_at accepts refusal sender value targets data amount w i d reason made,
    run_subcalls this code_at (move sender this value w)
      (subcalls targets data amount) = FailedAt i d ->
    invoke this sender value
      (executeBatch this code_at accepts refusal sender value targets data amount) w
    = Reverted reason made ->
    index_of reason = i /\ data_of reason = d.

(** "For all well-formed batches where every sub-call succeeds, the number
    of outcome entries equals the number of input triples", with one event
    per sub-call. *)
Definition all_succeed_gives_outcomes (this : address)
    (code_at : address -> Code)
    (accepts : World -> address -> address -> N -> bool)
    (refusal : World -> address -> address -> N -> revert_reason)
    (sender : address) (value : N) (targets : list address)
    (data : list bytes) (amount : list N) (w : World) : Prop :=
  length targets = length data -> length targets = length amount ->
  value <= balance w sender ->
  forall w' rs,
    run_subcalls this code_at (move sender this value w)
      (subcalls targets data amount) = AllSucceeded w' rs ->
    exists success results f,
      invoke this sender value
        (executeBatch this code_at accepts refusal sender value targets data amount) w
      = Committed (success, results) f
      /\ length success = length targets
      /\ length results = length targets
      /\ length (emitted f) = length targets.

(** "If the balance is lower than the reference balance, fails with
    [InsufficientFunds]; otherwise the positive difference is transferred
    back to the original caller", so that "the surplus is returned". *)
Definition surplus_is_returned (this : address)
    (code_at : address -> Code)
    (accepts : World -> address -> address -> N -> bool)
    (refusal : World -> address -> address -> N -> revert_reason)
    (sender : address) (value : N) (targets : list address)
    (data : list bytes) (amount : list N) (w : World) : Prop :=
  length targets = length data -> length targets = length amount ->
  value <= balance w sender ->
  let w1 := move sender this value w in
  let o := invoke this sender value
             (executeBatch this code_at accepts refusal sender value targets data amount)
             w in
  forall w' rs,
    run_subcalls this code_at w1 (subcalls targets data amount)
    = AllSucceeded w' rs ->
    let reference := balance w1 this - value in
    (balance w' this < reference ->
       exists made, o = Reverted InsufficientFunds made)
    /\ (reference <= balance w' this ->
         exists r f, o = Committed r f
           /\ balance (world f) sender
              = balance w' sender + (balance w' this - reference))
    /\ (total amount < value ->
         exists r f, o = Committed r f
           /\ balance (world f) sender
              = balance w' sender + (value - total amount)).

(** "[withdraw()] with zero balance always fails with [NothingToWithdraw];
    with positive balance, always transfers the full balance and leaves
    zero balance", for any caller. *)
Definition withdraw_always_pays (this : address)
    (accepts : World -> address -> address -> N -> bool)
    (refusal : World -> address -> address -> N -> revert_reason)
    (caller : address) (w : World) : Prop :=
  let o := invoke this caller 0 (withdraw this accepts refusal caller) w in
  (balance w this = 0 -> o = Reverted NothingToWithdraw [])
  /\ (0 < balance w this ->
       exists f, o = Committed tt f
         /\ balance (world f) this = 0
         /\ balance (world f) caller = balance w caller + balance w this).

End Executor.

(** ** Some accounts and worlds to run the contract in *)

Module Scenario.
Import Executor.
Open Scope N_scope.

Definition executor : address := 100.
Definition alice : address := 1.
Definition bob : address := 2.
Definition carol : address := 3.

(** A contract that reverts, handing its calldata back as revert data. *)
Definition rejector : address := 66.
Definition rejector_code : Code := fun _ _ calldata _ => Failed calldata.

(** A contract without a payable [receive]: it can call the executor but
    refuses plain transfers. *)
Definition vault : address := 88.

Definition accepts_all : World -> address -> address -> N -> bool :=
  fun _ _ _ _ => true.

(** Recipients that refuse without a word, as a contract without a
    [receive] function does. *)
Definition silent : World -> address -> address -> N -> revert_reason :=
  fun _ _ _ _ => Raw [].

(** Recipients that refuse with a message of their own. *)
Definition complaining : World -> address -> address -> N -> revert_reason :=
  fun _ _ _ _ => Error "No payments, thank you".
Definition accepts_but_vault : World -> address -> address -> N -> bool :=
  fun _ _ to _ => negb (to =? vault).

(** A contract that takes plain payments and, when it is called with
    calldata, calls [withdraw()] on the executor and keeps what it gets. *)
Definition drainer : address := 77.
Definition drainer_code : Code := fun _ _ calldata w =>
  match calldata with
  | [] => Returned [] w
  | _ :: _ =>
      match invoke executor drainer 0
              (withdraw executor accepts_all silent drainer) w with
      | Committed _ f => Returned [] (world f)
      | Reverted _ _ => Failed []
      end
  end.

Definition code_at : address -> Code := fun a =>
  if a =? rejector then rejector_code
  else if a =? drainer then drainer_code
  else externally_owned.

(** A world in which alice, the vault and the executor hold the given
    balances and nobody else holds anything. *)
Definition ledger (of_alice of_vault of_executor : N) : World :=
  {| balance := fun a =>
       if a =? alice then of_alice
       else if a =? vault then of_vault
       else if a =? executor then of_executor
       else 0;
     storage := fun _ _ => 0 |}.

(** The world after alice's 10 wei have come in and bob and carol have
    been paid 3 and 4. *)
Definition after_bob_and_carol : World :=
  move executor carol 4 (move executor bob 3
    (move alice executor 10 (ledger 1000 0 0))).

End Scenario.

(* ===================================================================== *)
(** * Part II: the client SDK                                             *)
(* ===================================================================== *)

Module Client.

Open Scope Z_scope.

(** ** Values and transactions *)

(** What callers pass as the [value] of a transaction: a JS number (an
    integer here, or [NaN]), a string, or an ethers [BigNumber] object,
    known by its reference.  [BigNumber] objects are immutable; the number
    each one holds is given by a heap, a parameter below. *)
Inductive jsvalue :=
| JNumber (n : Z)
| JNaN
| JString (s : string)
| JBigNumber (ref : nat).

(** [{ target, value, data }] *)
Record transaction := {
  target : string;
  value : jsvalue;
  data : string;
}.

(** JS [===]: numbers and strings by content, objects by reference;
    [NaN] is not [===] to anything, itself included. *)
Definition strict_eq (a b : jsvalue) : bool :=
  match a, b with
  | JNumber x, JNumber y => x =? y
  | JString x, JString y => String.eqb x y
  | JBigNumber r, JBigNumber r' => Nat.eqb r r'
  | _, _ => false
  end.

(** What [JSON.stringify] prints for a value, up to the spelling of
    numerals: a bare numeral, [null] for [NaN], a quoted string, or the
    object [{"type":"BigNumber","hex":...}] of an ethers [BigNumber]. *)
Inductive json :=
| JsonNumber (n : Z)
| JsonNull
| JsonString (s : string)
| JsonBigNumber (n : Z).

#[global] Instance json_eq_dec : EqDecision json.
Proof. solve_decision. Defined.

(** A reader of strings of decimal digits, which stands for bignumber.js
    in the runs below; [None] is [NaN]. *)
Definition digit (c : Ascii.ascii) : option Z :=
  let n := Z.of_N (Ascii.N_of_ascii c) - 48 in
  if (0 <=? n) && (n <=? 9) then Some n else None.

Fixpoint parse_digits (s : string) (acc : Z) : option Z :=
  match s with
  | EmptyString => Some acc
  | String c s' =>
      match digit c with
      | Some d => parse_digits s' (10 * acc + d)
      | None => None
      end
  end.

Definition parse_decimal (s : string) : option Z :=
  match s with
  | EmptyString => None
  | _ => parse_digits s 0
  end.

(** ** The SDK object *)

(** The names of the properties every plain JS object inherits from
    [Object.prototype]. *)
Definition Object_prototype : list string :=
  [ "constructor"; "__defineGetter__"; "__defineSetter__"; "hasOwnProperty";
    "__lookupGetter__"; "__lookupSetter__"; "isPrototypeOf";
    "propertyIsEnumerable"; "toString"; "valueOf"; "__proto__";
    "toLocaleString" ].

Definition inherited (key : string) : bool :=
  existsb (String.eqb key) Object_prototype.

(** The two mutable fields of a [BatchTransactionSDK]; [provider],
    [signer] and [batchContract] never change and live in the [Ethers]
    interface below.  [approvalTransactionsList] is a JS object used as a
    map from token address to a bignumber.js [BigNumber], an exact
    integer: the map holds the properties of the object itself; the ones
    it inherits are dealt with where the object is read, in [accumulate].
    [transactionList] is taken by content: who else holds the array that
    [getTransactionList] returned is not followed. *)
Record BatchTransactionSDK := {
  approvalTransactionsList : gmap string Z;
  transactionList : list transaction;
}.

(** The object the constructor builds. *)
Definition constructor : BatchTransactionSDK :=
  {| approvalTransactionsList := ∅; transactionList := [] |}.

(** ** The network collaborator *)

(** How a JS call completes. *)
Inductive Completion (A : Type) :=
| Normal (a : A)
| Throw (message : string).
Arguments Normal {A} a.
Arguments Throw {A} message.

(** A [TransactionResponse] of ethers, known by a number. *)
Definition TransactionResponse := nat.

(** What the SDK uses of ethers v5 and of bignumber.js, over a network
    whose state is [Net].  Each request may throw and may change the
    network.  [approve] and [executeBatch] are contract write methods:
    their promise resolves to a [TransactionResponse] once the transaction
    has been handed to the network; [wait] on that response resolves once
    it has been mined.  [BigNumber_of_string s] is [new BigNumber(s)] of
    bignumber.js: the number it reads from [s], in whichever of its
    spellings, [None] for [NaN]; amounts are whole numbers of wei. *)
Record Ethers (Net : Type) := {
  signer_getAddress : string;
  batchContract_address : string;
  BigNumber_at : nat -> Z;
  BigNumber_of_string : string -> option Z;
  new_Contract : string -> Completion unit;
  encode_transferFrom : string -> string -> string -> Z -> Completion string;
  encode_approve : string -> string -> Z -> Completion string;
  allowance : string -> string -> string -> Net -> Completion Z * Net;
  approve : string -> string -> Z -> Net -> Completion TransactionResponse * Net;
  executeBatch : list string -> list string -> list jsvalue -> option Z ->
                 Net -> Completion TransactionResponse * Net;
  wait : TransactionResponse -> Net -> Completion unit * Net;
  estimateGas_approve : string -> string -> Z -> Net -> Completion Z * Net;
  estimateGas_executeBatch : list string -> list string -> list jsvalue ->
                             option Z -> Net -> Completion Z * Net;
}.
Arguments signer_getAddress {Net}.
Arguments batchContract_address {Net}.
Arguments BigNumber_at {Net}.
Arguments BigNumber_of_string {Net}.
Arguments new_Contract {Net}.
Arguments encode_transferFrom {Net}.
Arguments encode_approve {Net}.
Arguments allowance {Net}.
Arguments approve {Net}.
Arguments executeBatch {Net}.
Arguments wait {Net}.
Arguments estimateGas_approve {Net}.
Arguments estimateGas_executeBatch {Net}.

(** The requests sent to the network, in the order they were sent, with
    what came back: a ghost log, kept for reasoning only. *)
Inductive Rpc :=
| CallAllowance (token : string) (res : Completion Z)
| SendApprove (token : string) (amount : Z)
    (res : Completion TransactionResponse)
| SendExecuteBatch (targets : list string) (data : list string)
    (values : list jsvalue) (total : option Z)
    (res : Completion TransactionResponse)
| Wait (tx : TransactionResponse) (res : Completion unit)
| EstimateApprove (token : string) (amount : Z) (res : Completion Z)
| EstimateExecuteBatch (res : Completion Z).

(** ** Running SDK methods *)

(** Everything a method can read and write. *)
Record Run (Net : Type) := {
  sdk : BatchTransactionSDK;
  net : Net;
  rpc_log : list Rpc;
}.
Arguments sdk {Net}.
Arguments net {Net}.
Arguments rpc_log {Net}.

Section Methods.

Context {Net : Type}.
Variable ethers : Ethers Net.

(** A method body: it completes normally or throws, and either way leaves
    a new state; what it did before throwing stays done. *)
Definition JS (A : Type) := Run Net -> Completion A * Run Net.

Definition ret {A} (a : A) : JS A := fun r => (Normal a, r).

Definition throw {A} (message : string) : JS A := fun r => (Throw message, r).

Definition bind {A B} (m : JS A) (k : A -> JS B) : JS B :=
  fun r => match m r with
           | (Normal a, r') => k a r'
           | (Throw e, r') => (Throw e, r')
           end.

Declare Scope js_scope.
Delimit Scope js_scope with js.
Notation "'let*' p ':=' m 'in' k" :=
  (bind m (fun x => match x with p => k end))
  (at level 10, p pattern, m at level 100, k at level 200) : js_scope.
Notation "m ;; k" := (bind m (fun _ => k))
  (at level 100, right associativity) : js_scope.
Open Scope js_scope.

(** [try { body } catch (error) { console.error(...); throw error; }]:
    every method is wrapped like this; the wrapper changes nothing. *)
Definition try_rethrow {A} (body : JS A) : JS A := body.

Definition this_transactionList : JS (list transaction) :=
  fun r => (Normal (transactionList (sdk r)), r).

Definition this_approvalTransactionsList : JS (gmap string Z) :=
  fun r => (Normal (approvalTransactionsList (sdk r)), r).

Definition set_transactionList (l : list transaction) : JS unit :=
  fun r => (Normal tt,
            {| sdk := {| approvalTransactionsList :=
                           approvalTransactionsList (sdk r);
                         transactionList := l |};
               net := net r; rpc_log := rpc_log r |}).

Definition set_approvalTransactionsList (m : gmap string Z) : JS unit :=
  fun r => (Normal tt,
            {| sdk := {| approvalTransactionsList := m;
                         transactionList := transactionList (sdk r) |};
               net := net r; rpc_log := rpc_log r |}).

(** A library call that cannot touch the network. *)
Definition pure_call {A} (c : Completion A) : JS A := fun r => (c, r).

(** A request to the network, logged with its result. *)
Definition request {A} (f : Net -> Completion A * Net)
    (entry : Completion A -> Rpc) : JS A :=
  fun r => let '(c, n) := f (net r) in
           (c, {| sdk := sdk r; net := n;
                  rpc_log := rpc_log r ++ [entry c] |}).

(** [await Promise.all(ps)]: the callbacks were all started by [map] and
    all run to their end, whatever the others do; the result is the list
    of their values, or the error of the first one that threw. *)
Fixpoint Promise_all {A} (ps : list (JS A)) : JS (list A) :=
  fun r =>
    match ps with
    | [] => (Normal [], r)
    | p :: ps' =>
        let '(c, r1) := p r in
        let '(cs, r2) := Promise_all ps' r1 in
        (match c, cs with
         | Normal a, Normal l => Normal (a :: l)
         | Throw e, _ => Throw e
         | Normal _, Throw e => Throw e
         end, r2)
    end.

(** [JSON.stringify(tx)] *)
Definition JSON_value (v : jsvalue) : json :=
  match v with
  | JNumber n => JsonNumber n
  | JNaN => JsonNull
  | JString s => JsonString s
  | JBigNumber r => JsonBigNumber (BigNumber_at ethers r)
  end.

Definition JSON_stringify (tx : transaction) : string * json * string :=
  (target tx, JSON_value (value tx), data tx).

(** [new BigNumber(value.toString())] *)
Definition to_BigNumber (v : jsvalue) : option Z :=
  match v with
  | JNumber n => Some n
  | JNaN => None
  | JString s => BigNumber_of_string ethers s
  | JBigNumber r => Some (BigNumber_at ethers r)
  end.

(** [values.reduce((acc, value) => acc.plus(value.toString()),
    new BigNumber(0))]; [None] is [NaN]. *)
Definition totalValue (values : list jsvalue) : option Z :=
  foldl (fun acc v => match acc, to_BigNumber v with
                      | Some a, Some b => Some (a + b)
                      | _, _ => None
                      end) (Some 0) values.

(** *** The methods *)

(** [getProvider], [getSigner] and [getBatchContract] hand out the three
    constant fields. *)
Definition getProvider : JS unit := try_rethrow (ret tt).
Definition getSigner : JS string := try_rethrow (ret (signer_getAddress ethers)).
Definition getBatchContract : JS string :=
  try_rethrow (ret (batchContract_address ethers)).

Definition getContractInstance (contractAddress : string) : JS string :=
  try_rethrow (
    pure_call (new_Contract ethers contractAddress) ;;
    ret contractAddress).

Definition getTransactionList : JS (list transaction) :=
  try_rethrow this_transactionList.

Definition addTransactionToList (target : string) (value : jsvalue)
    (data : string) : JS unit :=
  try_rethrow (
    let transaction := {| target := target; value := value; data := data |} in
    let* l := this_transactionList in
    if negb (existsb (fun tx => bool_decide (JSON_stringify tx
                                             = JSON_stringify transaction)) l)
    then set_transactionList (l ++ [transaction])
    else ret tt).

(** [if (!m[token]) m[token] = new BigNumber(0);
     m[token] = m[token].plus(value);]
    A [BigNumber] object is never falsy, so for a key of the object's own
    the test is for a missing entry.  Under a key that the object
    inherits, [m[token]] is a function or an object of [Object.prototype]:
    it is not falsy either, and it has no [plus], so the second statement
    throws a [TypeError] and nothing is written.  [value] is the integer
    that the decimal string passed by the caller spells. *)
Definition accumulate (tokenAddress : string) (value : Z) : JS unit :=
  let* m := this_approvalTransactionsList in
  if inherited tokenAddress then
    throw "this.approvalTransactionsList[tokenAddress].plus is not a function"
  else
    let m := match m !! tokenAddress with
             | None => <[tokenAddress := 0]> m
             | Some _ => m
             end in
    set_approvalTransactionsList
      (<[tokenAddress := default 0 (m !! tokenAddress) + value]> m).

Definition addERC20Transfer (tokenAddress target : string) (value : Z)
    : JS unit :=
  try_rethrow (
    accumulate tokenAddress value ;;
    let* tokenContract := getContractInstance tokenAddress in
    let* data := pure_call (encode_transferFrom ethers tokenContract
                              (signer_getAddress ethers) target value) in
    addTransactionToList tokenAddress (JNumber 0) data).

Definition addERC20Approve (tokenAddress target : string) (value : Z)
    : JS unit :=
  try_rethrow (
    accumulate tokenAddress value ;;
    let* tokenContract := getContractInstance tokenAddress in
    let* approveData := pure_call (encode_approve ethers tokenContract
                                     target value) in
    addTransactionToList tokenAddress (JNumber 0) approveData).

Definition removeTransactionFromList (target_ : string) (value_ : jsvalue)
    (data_ : string) : JS unit :=
  try_rethrow (
    let* l := this_transactionList in
    set_transactionList
      (List.filter (fun tx => negb (String.eqb (target tx) target_
                                    && strict_eq (value tx) value_
                                    && String.eqb (data tx) data_)) l)).

Definition clearTransactionList : JS unit :=
  try_rethrow (set_transactionList []).

(** The callback [executeBatchTransaction] maps over
    [Object.entries(this.approvalTransactionsList)]. *)
Definition approve_if_needed (entry : string * Z)
    : JS (option TransactionResponse) :=
  let '(tokenAddress, requiredApproval) := entry in
  try_rethrow (
    let* tokenContract := getContractInstance tokenAddress in
    let* allowance :=
      request (allowance ethers tokenContract (signer_getAddress ethers)
                 (batchContract_address ethers))
              (CallAllowance tokenAddress) in
    if allowance <? requiredApproval then
      let* tx := request (approve ethers tokenContract
                            (batchContract_address ethers) requiredApproval)
                         (SendApprove tokenAddress requiredApproval) in
      ret (Some tx)
    else ret None).

(** [executeBatchTransaction()].  [Object.entries] lists the tokens in
    the order they were first added and [map_to_list] in an order of its
    own; the callbacks run side by side in JS, so no order among them
    means anything. *)
Definition executeBatchTransaction : JS TransactionResponse :=
  try_rethrow (
    let* l := this_transactionList in
    (if Nat.eqb (length l) 0 then throw "Transaction list is empty"
     else ret tt) ;;
    let* m := this_approvalTransactionsList in
    let approvePromises := List.map approve_if_needed (map_to_list m) in
    Promise_all approvePromises ;;
    let* l := this_transactionList in
    let targets := List.map target l in
    let values := List.map value l in
    let data := List.map data l in
    let totalValue := totalValue values in
    let* tx := request (executeBatch ethers targets data values totalValue)
                       (SendExecuteBatch targets data values totalValue) in
    request (wait ethers tx) (Wait tx) ;;
    clearTransactionList ;;
    ret tx).

(** The callback of [estimateGasForBatchTransaction]. *)
Definition estimate_if_needed (entry : string * Z) : JS (option Z) :=
  let '(tokenAddress, requiredApproval) := entry in
  try_rethrow (
    let* tokenContract := getContractInstance tokenAddress in
    let* allowance :=
      request (allowance ethers tokenContract (signer_getAddress ethers)
                 (batchContract_address ethers))
              (CallAllowance tokenAddress) in
    if allowance <? requiredApproval then
      let* gas := request (estimateGas_approve ethers tokenContract
                             (batchContract_address ethers) requiredApproval)
                          (EstimateApprove tokenAddress requiredApproval) in
      ret (Some gas)
    else ret None).

Definition estimateGasForBatchTransaction : JS Z :=
  try_rethrow (
    let* l := this_transactionList in
    (if Nat.eqb (length l) 0 then throw "Transaction list is empty"
     else ret tt) ;;
    let* m := this_approvalTransactionsList in
    let approvePromises := List.map estimate_if_needed (map_to_list m) in
    Promise_all approvePromises ;;
    let* l := this_transactionList in
    let targets := List.map target l in
    let values := List.map value l in
    let data := List.map data l in
    let totalValue := totalValue values in
    request (estimateGas_executeBatch ethers targets data values totalValue)
            EstimateExecuteBatch).

(** *** Sessions: any sequence of method calls *)

Inductive Op :=
| GetProvider
| GetSigner
| GetBatchContract
| GetTransactionList
| GetContractInstance (contractAddress : string)
| AddTransactionToList (target : string) (value : jsvalue) (data : string)
| AddERC20Transfer (tokenAddress target : string) (value : Z)
| AddERC20Approve (tokenAddress target : string) (value : Z)
| RemoveTransactionFromList (target : string) (value : jsvalue)
    (data : string)
| ClearTransactionList
| ExecuteBatchTransaction
| EstimateGasForBatchTransaction.

(** One method call; its result or error goes to the caller, the state
    stays. *)
Definition perform (op : Op) (r : Run Net) : Run Net :=
  match op with
  | GetProvider => (getProvider r).2
  | GetSigner => (getSigner r).2
  | GetBatchContract => (getBatchContract r).2
  | GetTransactionList => (getTransactionList r).2
  | GetContractInstance a => (getContractInstance a r).2
  | AddTransactionToList t v d => (addTransactionToList t v d r).2
  | AddERC20Transfer tok t v => (addERC20Transfer tok t v r).2
  | AddERC20Approve tok t v => (addERC20Approve tok t v r).2
  | RemoveTransactionFromList t v d => (removeTransactionFromList t v d r).2
  | ClearTransactionList => (clearTransactionList r).2
  | ExecuteBatchTransaction => (executeBatchTransaction r).2
  | EstimateGasForBatchTransaction => (estimateGasForBatchTransaction r).2
  end.

Definition session (ops : list Op) (r : Run Net) : Run Net :=
  foldl (fun r op => perform op r) r ops.

(** The token amount an operation adds to the accumulator, if any. *)
Definition amount_of (op : Op) : Z :=
  match op with
  | AddERC20Transfer _ _ v | AddERC20Approve _ _ v => v
  | _ => 0
  end.

Close Scope js_scope.

(** ** Vocabulary for the statements below *)

(** The list after [addTransactionToList] of [tx]. *)
Definition added (tx : transaction) (l : list transaction) :=
  if existsb (fun e => bool_decide (JSON_stringify e = JSON_stringify tx)) l
  then l else l ++ [tx].

(** How many entries of a list print like [tx]. *)
Definition occurrences (tx : transaction) (l : list transaction) : nat :=
  length (List.filter (fun e => bool_decide (JSON_stringify e
                                            = JSON_stringify tx)) l).

(** What the calls of [ops] to [addERC20Transfer] and [addERC20Approve]
    for [token] add up to; under an inherited key nothing is counted. *)
Definition added_to (token : string) (ops : list Op) : Z :=
  foldr (fun op acc =>
           match op with
           | AddERC20Transfer tok _ v | AddERC20Approve tok _ v =>
               if String.eqb tok token && negb (inherited tok)
               then v + acc else acc
           | _ => acc
           end) 0 ops.

(** The requests the approval callbacks make. *)
Definition approval_traffic (q : Rpc) : bool :=
  match q with
  | CallAllowance _ _ | SendApprove _ _ _ => true
  | _ => false
  end.

(** ** Readings of the specification *)

(** "Adding the identical triple twice results in exactly one entry in the
    pending list; the list after two adds and one remove of the same triple
    is the list prior to either add", in the state [r]. *)
Definition add_is_idempotent_and_remove_undoes_it (r : Run Net)
    (target : string) (value : jsvalue) (data : string) : Prop :=
  let tx := {| target := target; value := value; data := data |} in
  let r2 := perform (AddTransactionToList target value data)
              (perform (AddTransactionToList target value data) r) in
  let r3 := perform (RemoveTransactionFromList target value data) r2 in
  occurrences tx (transactionList (sdk r2)) = 1%nat
  /\ transactionList (sdk r3) = transactionList (sdk r).

(** "No SDK operation ever decreases or clears any accumulated amount":
    whatever [ops] are performed from the state [r], every entry of the
    accumulator is still there afterwards and is not smaller. *)
Definition accumulator_never_decreases (ops : list Op) (r : Run Net) : Prop :=
  forall token a,
    approvalTransactionsList (sdk r) !! token = Some a ->
    exists a',
      approvalTransactionsList (sdk (session ops r)) !! token = Some a'
      /\ a <= a'.

(** "Each approval must complete, and its effect be visible, before the
    batch call is submitted": in the log of requests, every approval that
    was sent before a batch has been waited for, successfully, before that
    batch. *)
Fixpoint approvals_confirmed_before_batch
    (pending : list TransactionResponse) (log : list Rpc) : bool :=
  match log with
  | [] => true
  | SendApprove _ _ (Normal tx) :: log' =>
      approvals_confirmed_before_batch (tx :: pending) log'
  | Wait tx (Normal _) :: log' =>
      approvals_confirmed_before_batch
        (List.filter (fun p => negb (Nat.eqb p tx)) pending) log'
  | SendExecuteBatch _ _ _ _ _ :: log' =>
      match pending with
      | [] => approvals_confirmed_before_batch pending log'
      | _ :: _ => false
      end
  | _ :: log' => approvals_confirmed_before_batch pending log'
  end.

End Methods.

End Client.

(** ** A network to run the SDK against *)

Module Mempool.
Import Client.
Open Scope Z_scope.

Inductive Pending :=
| PendingApprove (token : string) (amount : Z)
| PendingBatch.

(** A network that mines a transaction only when somebody waits for it,
    as any network does to a client that sends its next request before the
    next block.
    [onchain] is the allowance of the batch contract over the signer's
    tokens as the chain has it; [mempool] holds what was sent and is not
    mined yet; [seen_by_batch] keeps, for every [executeBatch] sent, the
    allowances that were on chain at that moment. *)
Record LazyNet := {
  onchain : gmap string Z;
  mempool : list (TransactionResponse * Pending);
  next_tx : nat;
  seen_by_batch : list (gmap string Z);
}.

Definition mine (p : Pending) (m : gmap string Z) : gmap string Z :=
  match p with
  | PendingApprove token amount => <[token := amount]> m
  | PendingBatch => m
  end.

Definition send (p : Pending) (n : LazyNet)
    : Completion TransactionResponse * LazyNet :=
  (Normal (next_tx n),
   {| onchain := onchain n;
      mempool := mempool n ++ [(next_tx n, p)];
      next_tx := S (next_tx n);
      seen_by_batch := match p with
                       | PendingBatch => seen_by_batch n ++ [onchain n]
                       | _ => seen_by_batch n
                       end |}).

Definition mine_up_to (tx : TransactionResponse) (n : LazyNet) : LazyNet :=
  {| onchain := foldl (fun m p => if Nat.leb p.1 tx then mine p.2 m else m)
                      (onchain n) (mempool n);
     mempool := List.filter (fun p => negb (Nat.leb p.1 tx)) (mempool n);
     next_tx := next_tx n;
     seen_by_batch := seen_by_batch n |}.

Definition lazy_ethers : Ethers LazyNet :=
  {| signer_getAddress := "0xSigner";
     batchContract_address := "0xBatch";
     BigNumber_at := fun r => Z.of_nat r;
     BigNumber_of_string := parse_decimal;
     new_Contract := fun _ => Normal tt;
     encode_transferFrom := fun _ from to v =>
       Normal ("transferFrom(" +:+ from +:+ "," +:+ to +:+ ","
               +:+ pretty v +:+ ")");
     encode_approve := fun _ spender v =>
       Normal ("approve(" +:+ spender +:+ "," +:+ pretty v +:+ ")");
     allowance := fun token _ _ n => (Normal (default 0 (onchain n !! token)), n);
     approve := fun token _ amount n => send (PendingApprove token amount) n;
     executeBatch := fun _ _ _ _ n => send PendingBatch n;
     wait := fun tx n => (Normal tt, mine_up_to tx n);
     estimateGas_approve := fun _ _ _ n => (Normal 46000, n);
     estimateGas_executeBatch := fun _ _ _ _ n => (Normal 100000, n) |}.

(** The same network, except that every transaction waited for turns
    out to have reverted. *)
Definition reverting_ethers : Ethers LazyNet :=
  {| signer_getAddress := signer_getAddress lazy_ethers;
     batchContract_address := batchContract_address lazy_ethers;
     BigNumber_at := BigNumber_at lazy_ethers;
     BigNumber_of_string := BigNumber_of_string lazy_ethers;
     new_Contract := new_Contract lazy_ethers;
     encode_transferFrom := encode_transferFrom lazy_ethers;
     encode_approve := encode_approve lazy_ethers;
     allowance := allowance lazy_ethers;
     approve := approve lazy_ethers;
     executeBatch := executeBatch lazy_ethers;
     wait := fun tx n => (Throw "transaction failed", mine_up_to tx n);
     estimateGas_approve := estimateGas_approve lazy_ethers;
     estimateGas_executeBatch := estimateGas_executeBatch lazy_ethers |}.

Definition fresh_net : LazyNet :=
  {| onchain := ∅; mempool := []; next_tx := 0; seen_by_batch := [] |}.

(** A new SDK object on a fresh network. *)
Definition fresh : Run LazyNet :=
  {| sdk := constructor; net := fresh_net; rpc_log := [] |}.

End Mempool.


(* ===================================================================== *)
(** * Part II bis: the rest of the code                                   *)
(* ===================================================================== *)

(** ** The executor as its callers see it *)

Module Interface.
Import Executor.
Open Scope N_scope.

(** What an account can call on the executor: its two functions, a plain
    payment (empty calldata, which runs [receive]) and calldata that names
    no function (which runs [fallback]). *)
Inductive Entry :=
| EnterExecuteBatch (targets : list address) (data : list bytes)
    (amount : list N)
| EnterWithdraw
| EnterReceive
| EnterFallback (calldata : bytes).

Section Dispatch.

Variable this : address.
Variable code_at : address -> Code.
Variable accepts : World -> address -> address -> N -> bool.
Variable refusal : World -> address -> address -> N -> revert_reason.

(** The world after [sender] has called [e] with [value] attached.
    [withdraw] is not payable: with value attached it reverts before its
    body runs. *)
Definition enter (e : Entry) (sender : address) (value : N) (w : World)
    : World :=
  match e with
  | EnterExecuteBatch targets data amount =>
      state_after w
        (invoke this sender value
           (executeBatch this code_at accepts refusal sender value targets data amount)
           w)
  | EnterWithdraw =>
      if 0 <? value then w
      else state_after w (invoke this sender 0 (withdraw this accepts refusal sender) w)
  | EnterReceive => state_after w (invoke this sender value receive w)
  | EnterFallback _ => state_after w (invoke this sender value fallback w)
  end.

(** A history of calls, oldest first. *)
Definition history (calls : list (Entry * address * N)) (w : World) : World :=
  foldl (fun w c => enter c.1.1 c.1.2 c.2 w) w calls.

End Dispatch.

(** What the sub-calls of a batch send to account [a]. *)
Definition received (a : address) (cs : list CallRecord) : N :=
  foldr (fun c acc => if cr_target c =? a then cr_value c + acc else acc) 0 cs.

End Interface.

(** ** The storage contract *)

Module SimpleStorage.
Import Executor.
Open Scope N_scope.

(** [uint256 public constant fee = 0.001 ether] *)
Definition fee : N := 1000000000000000.

(** [event DataStored(uint256 data)] *)
Inductive Log :=
| DataStored (data : N).

(** The state variables live in the storage of the contract's account:
    [storedData] in slot 0, [owner] in slot 1. *)
Definition storedData_slot : N := 0.
Definition owner_slot : N := 1.

Definition sstore (a : address) (slot v : N) (w : World) : World :=
  {| balance := balance w;
     storage := fun a' s =>
       if (a' =? a) && (s =? slot) then v else storage w a' s |}.

(** How a function of the contract ends: with a value, a new world and
    the events it emitted, or with a revert that leaves nothing. *)
Inductive Result (A : Type) :=
| Success (a : A) (w : World) (logs : list Log)
| Failure (reason : revert_reason).
Arguments Success {A} a w logs.
Arguments Failure {A} reason.

(** The external functions; [fee()] is the getter of the public
    constant. *)
Inductive Call :=
| CallSet (x : N)
| CallGet
| CallWithdraw
| CallFee.

Section Contract.

(** The address the contract is deployed at, which plain transfers a
    recipient accepts and the revert data it gives back when it refuses.
    The contract has neither [receive] nor [fallback]: it refuses every
    plain transfer itself, without revert data. *)
Variable this : address.
Variable accepts : World -> address -> address -> N -> bool.
Variable refusal : World -> address -> address -> N -> revert_reason.

Definition storedData (w : World) : N := storage w this storedData_slot.
Definition owner (w : World) : address := storage w this owner_slot.

(** [constructor() { owner = msg.sender; }] *)
Definition constructor (msg_sender : address) (w : World) : World :=
  sstore this owner_slot msg_sender w.

(** [set(uint256 x) public payable], in a world that already holds
    [msg_value] on the contract's account. *)
Definition set (msg_value x : N) (w : World) : Result unit :=
  if negb (msg_value =? fee) then Failure (Error "Insufficient fee provided")
  else Success tt (sstore this storedData_slot x w) [DataStored x].

(** [get() public view] *)
Definition get (w : World) : N := storedData w.

(** [withdraw() external] *)
Definition withdraw (msg_sender : address) (w : World) : Result unit :=
  if negb (msg_sender =? owner w) then Failure (Error "Only owner can withdraw")
  else
    let balance_ := balance w this in
    if negb (0 <? balance_) then Failure (Error "No funds to withdraw")
    else if negb (owner w =? this) && accepts w this (owner w) balance_
    then Success tt (move this (owner w) balance_ w) []
    else Failure (if owner w =? this then Raw []
                  else refusal w this (owner w) balance_).

(** A call of the contract by [sender] with [value] attached.  Only [set]
    is payable: the other functions revert when value comes with the
    call. *)
Definition call (sender : address) (value : N) (c : Call) (w : World)
    : Result (option N) :=
  if balance w sender <? value then Failure (Raw [])
  else
    match c with
    | CallSet x =>
        match set value x (move sender this value w) with
        | Success _ w' logs => Success None w' logs
        | Failure r => Failure r
        end
    | CallGet =>
        if 0 <? value then Failure (Raw []) else Success (Some (get w)) w []
    | CallWithdraw =>
        if 0 <? value then Failure (Raw [])
        else match withdraw sender w with
             | Success _ w' logs => Success None w' logs
             | Failure r => Failure r
             end
    | CallFee =>
        if 0 <? value then Failure (Raw []) else Success (Some fee) w []
    end.

(** A history of calls, oldest first: the world it leads to and the log
    of the events emitted on the way.  A call that reverts leaves both as
    they were. *)
Definition step (st : World * list Log) (c : address * N * Call)
    : World * list Log :=
  match call c.1.1 c.1.2 c.2 st.1 with
  | Success _ w' logs => (w', st.2 ++ logs)
  | Failure _ => st
  end.

Definition run (calls : list (address * N * Call)) (w : World)
    : World * list Log :=
  foldl step (w, []) calls.

(** The contract as the executor calls it.  How calldata names a function
    and how return and revert data are laid out is the ABI's business:
    the three maps stand for it.  Calldata that names no function,
    empty calldata included, reverts. *)
Variable decode : bytes -> option Call.
Variable encode_uint : N -> bytes.
Variable encode_error : revert_reason -> bytes.

Definition code : Code := fun sender value calldata w =>
  match decode calldata with
  | None => Failed []
  | Some (CallSet x) =>
      match set value x w with
      | Success _ w' _ => Returned [] w'
      | Failure r => Failed (encode_error r)
      end
  | Some CallGet =>
      if 0 <? value then Failed [] else Returned (encode_uint (get w)) w
  | Some CallWithdraw =>
      if 0 <? value then Failed []
      else match withdraw sender w with
           | Success _ w' _ => Returned [] w'
           | Failure r => Failed (encode_error r)
           end
  | Some CallFee =>
      if 0 <? value then Failed [] else Returned (encode_uint fee) w
  end.

End Contract.

(** The number the last event of a log reports, if there is one. *)
Definition last_stored (logs : list Log) : option N :=
  match last logs with
  | Some (DataStored x) => Some x
  | None => None
  end.

(** The world after account [payer] has paid the fee for, and the
    contract at [this] has stored, each of [xs] in turn. *)
Definition after_sets (payer this : address) (xs : list N) (w : World)
    : World :=
  foldl (fun w x => sstore this storedData_slot x (move payer this fee w))
        w xs.

End SimpleStorage.

(** ** The storage contract next to the accounts of [Scenario] *)

Module StorageScenario.
Import Executor Scenario.
Open Scope N_scope.

Definition store : address := 50.

(** A stand-in for the ABI: one byte of calldata [b] names [set(b)], the
    empty word [get()]; numbers and errors are not spelled out. *)
Definition decode (calldata : bytes) : option SimpleStorage.Call :=
  match calldata with
  | [b] => Some (SimpleStorage.CallSet (Byte.to_N b))
  | [] => None
  | _ => Some SimpleStorage.CallGet
  end.

Definition code_at : address -> Code := fun a =>
  if a =? store
  then SimpleStorage.code store accepts_all silent decode (fun _ => []) (fun _ => [])
  else externally_owned.

(** The storage contract deployed by bob in the world where alice holds
    one ether. *)
Definition deployed : World :=
  SimpleStorage.constructor store bob (ledger 1000000000000000000 0 0).

End StorageScenario.

(** ** An ethers that checks addresses *)

Module Picky.
Import Client Mempool.
Open Scope Z_scope.

(** [lazy_ethers], except that it refuses the empty string as an address
    and a negative number as an amount, as ethers does: [new
    ethers.Contract] throws on the first, and the encoding of a call
    throws on the first as an [address] argument and on the second as a
    [uint256] argument. *)
Definition picky_ethers : Ethers LazyNet :=
  {| signer_getAddress := signer_getAddress lazy_ethers;
     batchContract_address := batchContract_address lazy_ethers;
     BigNumber_at := BigNumber_at lazy_ethers;
     BigNumber_of_string := BigNumber_of_string lazy_ethers;
     new_Contract := fun a =>
       if String.eqb a "" then Throw "invalid contract address or ENS name"
       else Normal tt;
     encode_transferFrom := fun token from to v =>
       if String.eqb to "" then Throw "invalid address"
       else if v <? 0 then Throw "value out-of-bounds"
       else encode_transferFrom lazy_ethers token from to v;
     encode_approve := fun token spender v =>
       if String.eqb spender "" then Throw "invalid address"
       else if v <? 0 then Throw "value out-of-bounds"
       else encode_approve lazy_ethers token spender v;
     allowance := allowance lazy_ethers;
     approve := approve lazy_ethers;
     executeBatch := executeBatch lazy_ethers;
     wait := wait lazy_ethers;
     estimateGas_approve := estimateGas_approve lazy_ethers;
     estimateGas_executeBatch := estimateGas_executeBatch lazy_ethers |}.

(** [lazy_ethers] with a heap of [BigNumber] objects in which the
    objects [2k] and [2k+1] hold the same number [k]. *)
Definition twin_ethers : Ethers LazyNet :=
  {| signer_getAddress := signer_getAddress lazy_ethers;
     batchContract_address := batchContract_address lazy_ethers;
     BigNumber_at := fun r => Z.of_nat (Nat.div2 r);
     BigNumber_of_string := BigNumber_of_string lazy_ethers;
     new_Contract := new_Contract lazy_ethers;
     encode_transferFrom := encode_transferFrom lazy_ethers;
     encode_approve := encode_approve lazy_ethers;
     allowance := allowance lazy_ethers;
     approve := approve lazy_ethers;
     executeBatch := executeBatch lazy_ethers;
     wait := wait lazy_ethers;
     estimateGas_approve := estimateGas_approve lazy_ethers;
     estimateGas_executeBatch := estimateGas_executeBatch lazy_ethers |}.

End Picky.

(** ** Requests that change nothing *)

Module Traffic.
Import Client.

(** Calls and gas estimates: requests that send no transaction and wait
    for none. *)
Definition read_only (q : Rpc) : bool :=
  match q with
  | CallAllowance _ _ | EstimateApprove _ _ _ | EstimateExecuteBatch _ => true
  | _ => false
  end.

End Traffic.

(** ** The deployment script *)

Module Deploy.

(** How a promise settles. *)
Inductive Settled (A : Type) :=
| Fulfilled (a : A)
| Rejected (error : string).
Arguments Fulfilled {A} a.
Arguments Rejected {A} error.

(** What the script uses of hardhat's ethers, over a network whose state
    is [Net]: a factory is known by the name of its contract, a deployed
    contract by its [target] address. *)
Record Hardhat (Net : Type) := {
  getContractFactory : string -> Net -> Settled string * Net;
  deploy : string -> Net -> Settled string * Net;
  waitForDeployment : string -> Net -> Settled unit * Net;
}.
Arguments getContractFactory {Net}.
Arguments deploy {Net}.
Arguments waitForDeployment {Net}.

(** What the script writes to the console. *)
Inductive Output :=
| console_log (line : string)
| console_error (line : string) (error : string).

Record Run (Net : Type) := {
  net : Net;
  console : list Output;
}.
Arguments net {Net}.
Arguments console {Net}.

Section Script.

Context {Net : Type}.
Variable hardhat : Hardhat Net.

Definition JS (A : Type) := Run Net -> Settled A * Run Net.

Definition ret {A} (a : A) : JS A := fun r => (Fulfilled a, r).

Definition bind {A B} (m : JS A) (k : A -> JS B) : JS B :=
  fun r => match m r with
           | (Fulfilled a, r') => k a r'
           | (Rejected e, r') => (Rejected e, r')
           end.

Declare Scope deploy_scope.
Delimit Scope deploy_scope with deploy.
Notation "'let*' p ':=' m 'in' k" :=
  (bind m (fun x => match x with p => k end))
  (at level 10, p pattern, m at level 100, k at level 200) : deploy_scope.
Notation "m ;; k" := (bind m (fun _ => k))
  (at level 100, right associativity) : deploy_scope.
Open Scope deploy_scope.

(** [await] of a request to the network. *)
Definition await {A} (f : Net -> Settled A * Net) : JS A :=
  fun r => let '(c, n) := f (net r) in
           (c, {| net := n; console := console r |}).

Definition print (o : Output) : JS unit :=
  fun r => (Fulfilled tt, {| net := net r; console := console r ++ [o] |}).

(** [try { body } catch (error) { handler }]: what the body did before it
    threw stays done. *)
Definition try_catch (body : JS unit) (handler : string -> JS unit)
    : JS unit :=
  fun r => match body r with
           | (Fulfilled a, r') => (Fulfilled a, r')
           | (Rejected e, r') => handler e r'
           end.

(** [await Promise.all([p, q])]: both requests have been started when the
    array is built, so both run; the result is the pair of their values
    or, when one was rejected, its error; when both were, the error of
    the first of the array stands for the one that came first. *)
Definition Promise_all {A B} (p : JS A) (q : JS B) : JS (A * B) :=
  fun r => let '(a, r1) := p r in
           let '(b, r2) := q r1 in
           (match a, b with
            | Fulfilled x, Fulfilled y => Fulfilled (x, y)
            | Rejected e, _ => Rejected e
            | Fulfilled _, Rejected e => Rejected e
            end, r2).

Definition deployBatchTransactionContract : JS unit :=
  try_catch (
    let* BatchTransactionContract :=
      await (getContractFactory hardhat "BatchTransactionContract") in
    let* batchTransactionContract :=
      await (deploy hardhat BatchTransactionContract) in
    await (waitForDeployment hardhat batchTransactionContract) ;;
    print (console_log ("✅ BatchTransactionContract deployed to: "
                        +:+ batchTransactionContract)))
  (fun error =>
     print (console_error "❌ Error deploying BatchTransactionContract:"
              error)).

Definition deployMockContracts : JS unit :=
  try_catch (
    let* (MockToken, SimpleStorage) :=
      Promise_all (await (getContractFactory hardhat "MockToken"))
                  (await (getContractFactory hardhat "SimpleStorage")) in
    let* (mockToken, simpleStorage) :=
      Promise_all (await (deploy hardhat MockToken))
                  (await (deploy hardhat SimpleStorage)) in
    Promise_all (await (waitForDeployment hardhat mockToken))
                (await (waitForDeployment hardhat simpleStorage)) ;;
    print (console_log ("✅ MockToken deployed to: " +:+ mockToken)) ;;
    print (console_log ("✅ SimpleStorage deployed to: " +:+ simpleStorage)))
  (fun error =>
     print (console_error "❌ Error deploying Mock Contracts:" error)).

Definition main : JS unit :=
  print (console_log "🚀 Starting deployment...") ;;
  deployBatchTransactionContract ;;
  deployMockContracts ;;
  print (console_log "🎉 Deployment completed successfully.").

(** [main().then(() => process.exit(0)).catch((error) => { ...;
    process.exit(1); })]: the exit code and the final state. *)
Definition script (r : Run Net) : N * Run Net :=
  match main r with
  | (Fulfilled _, r') => (0%N, r')
  | (Rejected error, r') =>
      (1%N, (print (console_error "❌ Uncaught Error in Deployment:" error)
               r').2)
  end.

Close Scope deploy_scope.

End Script.

(** A project whose contracts were never compiled: no factory is to be
    had. *)
Definition uncompiled : Hardhat unit :=
  {| getContractFactory := fun name n =>
       (Rejected ("HH700: Artifact for contract " +:+ name +:+ " not found"),
        n);
     deploy := fun _ n => (Fulfilled "0x5FbDB2315678afecb367f032d93F642f64180aa3", n);
     waitForDeployment := fun _ n => (Fulfilled tt, n) |}.

End Deploy.

(* ===================================================================== *)
(** * Part III: the executor, proofs                                      *)
(* ===================================================================== *)

Module ExecutorFacts.
Import Executor.
Open Scope N_scope.

Lemma length_subcalls targets data amount :
  length targets = length data -> length targets = length amount ->
  length (subcalls targets data amount) = length targets.
Proof.
  intros Hd Ha. unfold subcalls.
  rewrite length_zip_with, length_zip. lia.
Qed.

Lemma lookup_subcalls targets data amount i t d a :
  targets !! i = Some t -> data !! i = Some d -> amount !! i = Some a ->
  subcalls targets data amount !! i
  = Some {| cr_target := t; cr_value := a; cr_data := d |}.
Proof.
  intros Ht Hd Ha. unfold subcalls.
  rewrite lookup_zip_with.
  assert (Hz : zip targets data !! i = Some (t, d)).
  { rewrite lookup_zip_with, Ht. simpl. rewrite Hd. reflexivity. }
  rewrite Hz. simpl. rewrite Ha. reflexivity.
Qed.

Lemma frame_eta (f : Frame) :
  {| world := world f; emitted := emitted f; calls := calls f |} = f.
Proof. destruct f; reflexivity. Qed.

Section Loop.

Variable this : address.
Variable code_at : address -> Code.
Variable accepts : World -> address -> address -> N -> bool.
Variable refusal : World -> address -> address -> N -> revert_reason.

Abbreviation run_subcalls := (run_subcalls this code_at).
Abbreviation batch_loop := (batch_loop this code_at).
Abbreviation message_call := (message_call code_at).

(** The loop of [executeBatch] from counter [i] on does what [run_subcalls]
    does on the triples from [i] on. *)
Lemma batch_loop_run targets data amount :
  length targets = length data -> length targets = length amount ->
  forall k i success results f,
    (i + k = length targets)%nat ->
    length success = length targets -> length results = length targets ->
    batch_loop targets data amount k i success results f =
    let cs := drop i (subcalls targets data amount) in
    match run_subcalls (world f) cs with
    | AllSucceeded w' rs =>
        Committed (take i success ++ replicate k true, take i results ++ rs)
          {| world := w';
             emitted := emitted f ++ operation_events cs rs;
             calls := calls f ++ cs |}
    | FailedAt j d => Reverted SubcallFailed (calls f ++ take (S j) cs)
    end.
Proof.
  intros Hd Ha. induction k as [|k IH]; intros i success results f Hik Hs Hr.
  - simpl. rewrite drop_ge by (rewrite length_subcalls by done; lia).
    simpl. rewrite !take_ge by lia. rewrite !app_nil_r.
    unfold ret. by rewrite frame_eta.
  - assert (Hi : (i < length targets)%nat) by lia.
    destruct (lookup_lt_is_Some_2 targets i Hi) as [t Ht].
    destruct (lookup_lt_is_Some_2 data i ltac:(lia)) as [d Hdi].
    destruct (lookup_lt_is_Some_2 amount i ltac:(lia)) as [a Hai].
    pose proof (lookup_subcalls _ _ _ _ _ _ _ Ht Hdi Hai) as Hc.
    cbn zeta. rewrite (drop_S _ _ _ Hc).
    cbn [Executor.batch_loop Executor.run_subcalls cr_target cr_value cr_data].
    unfold bind at 1, index at 1. rewrite Ht. unfold ret at 1.
    unfold bind at 1, index at 1. rewrite Hai. unfold ret at 1.
    unfold bind at 1, index at 1. rewrite Hdi. unfold ret at 1.
    unfold bind at 1, call at 1.
    destruct (message_call this t a d (world f)) as [[ok r] w'] eqn:Hcall.
    destruct ok; cbn [negb].
    + unfold bind at 1, emit at 1.
      rewrite IH by (rewrite ?length_insert; lia).
      cbn [world emitted calls].
      destruct (run_subcalls w' _) as [w'' rs | j dd].
      * rewrite (take_S_r (<[i:=true]> success) i true)
          by (apply list_lookup_insert_eq; lia).
        rewrite (take_S_r (<[i:=r]> results) i r)
          by (apply list_lookup_insert_eq; lia).
        rewrite !take_insert_ge by lia.
        unfold operation_events. cbn [zip_with cr_target replicate].
        by rewrite <- !app_assoc.
      * cbn [take]. by rewrite <- app_assoc.
    + unfold revert. reflexivity.
Qed.

Lemma run_subcalls_length cs : forall w w' rs,
  run_subcalls w cs = AllSucceeded w' rs -> length rs = length cs.
Proof.
  induction cs as [|c cs IH]; intros w w' rs; simpl.
  - intros [= <- <-]. reflexivity.
  - destruct (message_call _ _ _ _ _) as [[[] r] w1]; [|discriminate].
    destruct (run_subcalls w1 cs) as [w2 rs'|] eqn:Hrun; [|discriminate].
    intros [= <- <-]. simpl. f_equal. eauto.
Qed.

Lemma run_subcalls_failed_lt cs : forall w i d,
  run_subcalls w cs = FailedAt i d -> (i < length cs)%nat.
Proof.
  induction cs as [|c cs IH]; intros w i d; simpl; [discriminate|].
  destruct (message_call _ _ _ _ _) as [[[] r] w1].
  - destruct (run_subcalls w1 cs) as [|j dd] eqn:Hrun; [discriminate|].
    intros [= <- <-]. apply IH in Hrun. lia.
  - intros [= <- <-]. lia.
Qed.

(** What [executeBatch] does on a well-formed request, in a frame that
    holds the attached value. *)
Lemma executeBatch_run sender value targets data amount f :
  length targets = length data -> length targets = length amount ->
  value <= balance (world f) this ->
  executeBatch this code_at accepts refusal sender value targets data amount f =
  let cs := subcalls targets data amount in
  match run_subcalls (world f) cs with
  | FailedAt j d => Reverted SubcallFailed (calls f ++ take (S j) cs)
  | AllSucceeded w' rs =>
      let initialBalance := balance (world f) this - value in
      let finalBalance := balance w' this in
      if finalBalance <? initialBalance then
        Reverted InsufficientFunds (calls f ++ cs)
      else
        let difference := finalBalance - initialBalance in
        let f' := {| world := if 0 <? difference
                              then move this sender difference w' else w';
                     emitted := emitted f ++ operation_events cs rs;
                     calls := calls f ++ cs |} in
        if (0 <? difference)
           && negb (negb (sender =? this) && accepts w' this sender difference)
        then Reverted (refused this refusal sender difference w')
               (calls f ++ cs)
        else Committed (replicate (length targets) true, rs) f'
  end.
Proof.
  intros Hd Ha Hv. unfold executeBatch.
  unfold bind at 1, require at 1. rewrite Hd, Nat.eqb_refl. unfold ret at 1.
  unfold bind at 1, require at 1. rewrite <- Hd, Ha, Nat.eqb_refl.
  unfold ret at 1. rewrite <- Ha.
  unfold bind at 1, self_balance at 1.
  unfold bind at 1, checked_sub at 1.
  destruct (N.leb_spec value (balance (world f) this)) as [_|]; [|lia].
  unfold ret at 1. unfold bind at 1.
  rewrite batch_loop_run by (rewrite ?length_replicate; done).
  cbn zeta. rewrite drop_0. cbn [take app].
  destruct (run_subcalls (world f) _) as [w' rs | j d]; [|reflexivity].
  unfold bind at 1, self_balance at 1. cbn [world].
  unfold bind at 1.
  destruct (N.ltb_spec (balance w' this) (balance (world f) this - value))
    as [Hlt|Hge].
  { reflexivity. }
  unfold ret at 1. unfold bind at 1, checked_sub at 1.
  destruct (N.leb_spec (balance (world f) this - value) (balance w' this))
    as [_|]; [|lia].
  unfold ret at 1. unfold bind at 1.
  set (difference := balance w' this - (balance (world f) this - value)).
  destruct (0 <? difference) eqn:Hpos; cbn [andb].
  - unfold transfer. cbn [world calls emitted].
    destruct (N.ltb_spec (balance w' this) difference) as [|_];
      [subst difference; lia|].
    destruct (negb (sender =? this) && accepts w' this sender difference);
      reflexivity.
  - reflexivity.
Qed.

(** Crediting [value] to the executor leaves it able to give it back. *)
Lemma entry_balance sender value w :
  value <= balance w sender ->
  value <= balance (move sender this value w) this.
Proof.
  intros Hv. unfold move. cbn [balance]. rewrite N.eqb_refl.
  destruct (N.eqb_spec this sender) as [->|]; lia.
Qed.

Abbreviation executeBatch := (executeBatch this code_at accepts refusal).
Abbreviation invoke := (Executor.invoke this).

(** A call of [executeBatch] by a sender that can pay the attached value,
    with a well-formed request. *)
Lemma invoke_executeBatch sender value targets data amount w :
  length targets = length data -> length targets = length amount ->
  value <= balance w sender ->
  invoke sender value (executeBatch sender value targets data amount) w =
  let w1 := move sender this value w in
  let cs := subcalls targets data amount in
  match run_subcalls w1 cs with
  | FailedAt j d => Reverted SubcallFailed (take (S j) cs)
  | AllSucceeded w' rs =>
      let reference := balance w1 this - value in
      if balance w' this <? reference then Reverted InsufficientFunds cs
      else
        let difference := balance w' this - reference in
        if (0 <? difference)
           && negb (negb (sender =? this) && accepts w' this sender difference)
        then Reverted (refused this refusal sender difference w') cs
        else Committed (replicate (length targets) true, rs)
               {| world := if 0 <? difference
                           then move this sender difference w' else w';
                  emitted := operation_events cs rs;
                  calls := cs |}
  end.
Proof.
  intros Hd Ha Hv. unfold Executor.invoke.
  destruct (N.ltb_spec (balance w sender) value) as [|_]; [lia|].
  rewrite executeBatch_run by (cbn [world]; auto using entry_balance).
  reflexivity.
Qed.

(** ** Sub-calls that are plain payments *)

Lemma total_subcalls targets data amount :
  length targets = length data -> length targets = length amount ->
  total (cr_value <$> subcalls targets data amount) = total amount.
Proof.
  unfold subcalls. revert data amount.
  induction targets as [|t targets IH]; intros [|d data] [|a amount];
    cbn; try discriminate; [reflexivity|].
  intros [= Hd] [= Ha]. f_equal. by apply IH.
Qed.

(** Payments to accounts without code, other than the executor, take
    their amounts out of the executor's balance and nothing else. *)
Lemma plain_payments_cost_their_amounts cs : forall w w' rs,
  Forall (fun c => code_at (cr_target c) = externally_owned
                   /\ cr_target c <> this) cs ->
  run_subcalls w cs = AllSucceeded w' rs ->
  balance w' this + total (cr_value <$> cs) = balance w this.
Proof.
  induction cs as [|c cs IH]; intros w w' rs Hplain; cbn.
  - intros [= <- _]. lia.
  - inversion Hplain as [|? ? [Hcode Hne] Hrest]; subst.
    unfold Executor.message_call. rewrite Hcode.
    destruct (N.ltb_spec (balance w this) (cr_value c)) as [|Hge];
      [discriminate|].
    unfold externally_owned.
    destruct (run_subcalls _ cs) as [w'' rs'|] eqn:Hrun; [|discriminate].
    intros [= <- _]. apply IH in Hrun; [|assumption].
    unfold move in Hrun. cbn [balance] in Hrun.
    rewrite N.eqb_refl in Hrun.
    apply N.eqb_neq in Hne. rewrite N.eqb_sym in Hne. rewrite Hne in Hrun.
    fold (total (cr_value <$> cs)). lia.
Qed.

(** A batch of plain payments to accounts without code: when the attached
    value covers the amounts and the caller takes the refund, the caller
    is sent the attached value minus the sum of the amounts and the
    executor ends with the balance it had before the call. *)
Lemma plain_batch_returns_surplus
    sender value targets data amount w w' rs :
  length targets = length data -> length targets = length amount ->
  value <= balance w sender ->
  Forall (fun t => code_at t = externally_owned /\ t <> this) targets ->
  run_subcalls (move sender this value w) (subcalls targets data amount)
  = AllSucceeded w' rs ->
  total amount < value -> sender <> this ->
  accepts w' this sender (value - total amount) = true ->
  exists f,
    invoke sender value (executeBatch sender value targets data amount) w
    = Committed (replicate (length targets) true, rs) f
    /\ world f = move this sender (value - total amount) w'
    /\ balance (world f) this = balance w this.
Proof.
  intros Hd Ha Hv Hplain Hrun Hlt Hne Hacc.
  assert (Hcost : balance w' this + total amount
                  = balance (move sender this value w) this).
  { rewrite <- (total_subcalls targets data amount Hd Ha).
    eapply plain_payments_cost_their_amounts; [|exact Hrun].
    apply Forall_forall. intros c Hc.
    apply list_elem_of_lookup in Hc as [j Hj].
    unfold subcalls in Hj. apply lookup_zip_with_Some in Hj
      as ([t d] & a & -> & Htd & _).
    apply lookup_zip_with_Some in Htd as (t' & d' & [= <- <-] & Ht & _).
    cbn. rewrite Forall_forall in Hplain. apply Hplain.
    apply list_elem_of_lookup. eauto. }
  apply N.eqb_neq in Hne.
  assert (Hne' : (this =? sender) = false) by (by rewrite N.eqb_sym).
  assert (Hentry : balance (move sender this value w) this
                   = balance w this + value).
  { unfold move. cbn [balance]. by rewrite N.eqb_refl, Hne'. }
  rewrite invoke_executeBatch by assumption. cbn zeta. rewrite Hrun.
  assert (Hdiff : balance w' this
                  - (balance (move sender this value w) this - value)
                  = value - total amount) by lia.
  rewrite Hdiff.
  destruct (N.ltb_spec (balance w' this)
              (balance (move sender this value w) this - value)) as [|_];
    [lia|].
  destruct (N.ltb_spec 0 (value - total amount)) as [_|]; [|lia].
  rewrite Hacc, Hne. cbn. eexists. split; [reflexivity|].
  split; [reflexivity|]. cbn. rewrite N.eqb_refl, Hne'. lia.
Qed.

(** ** Malformed requests *)

Lemma executeBatch_malformed sender value targets data amount f :
  ~ (length targets = length data /\ length targets = length amount) ->
  executeBatch sender value targets data amount f
  = Reverted MalformedRequest (calls f).
Proof.
  intros Hne. unfold Executor.executeBatch.
  unfold bind at 1, require at 1.
  destruct (Nat.eqb_spec (length targets) (length data)) as [Hd|Hd];
    [|reflexivity].
  unfold ret at 1. unfold bind at 1, require at 1.
  destruct (Nat.eqb_spec (length targets) (length amount)) as [Ha|Ha];
    [|reflexivity].
  tauto.
Qed.

Lemma invoke_executeBatch_malformed sender value targets data amount w :
  value <= balance w sender ->
  ~ (length targets = length data /\ length targets = length amount) ->
  invoke sender value (executeBatch sender value targets data amount) w
  = Reverted MalformedRequest [].
Proof.
  intros Hv Hne. unfold Executor.invoke.
  destruct (N.ltb_spec (balance w sender) value) as [|_]; [lia|].
  by rewrite executeBatch_malformed.
Qed.

Lemma invoke_unfunded {A} sender value (body : M A) w :
  balance w sender < value ->
  invoke sender value body w = Reverted (Raw []) [].
Proof.
  intros Hlow. unfold Executor.invoke.
  destruct (N.ltb_spec (balance w sender) value); [reflexivity|lia].
Qed.

(** C5: a request whose three arrays do not all have the same length is
    refused with [MalformedRequest] ("Mismatched inputs") before any
    sub-call is made: in whatever frame the function starts, it reverts
    with that error without adding a call to the log; and a call of it
    leaves the world and the event log as they were. *)
Theorem executeBatch_mismatched_lengths sender value targets data amount w :
  ~ (length targets = length data /\ length targets = length amount) ->
  (forall f, executeBatch sender value targets data amount f
             = Reverted MalformedRequest (calls f))
  /\ let o := invoke sender value
                (executeBatch sender value targets data amount) w in
     (exists reason, o = Reverted reason [])
     /\ calls_of o = [] /\ state_after w o = w /\ events_of o = []
     /\ (value <= balance w sender -> o = Reverted MalformedRequest []).
Proof.
  intros Hne. split; [intros f; by apply executeBatch_malformed|].
  cbn zeta.
  destruct (N.ltb_spec (balance w sender) value) as [Hlow|Hv].
  - rewrite invoke_unfunded by assumption. cbn.
    split; [eauto|]. do 3 (split; [reflexivity|]). intros; lia.
  - rewrite invoke_executeBatch_malformed by assumption. cbn.
    split; [eauto|]. do 3 (split; [reflexivity|]). reflexivity.
Qed.

(** ** A failing sub-call *)

(** C1: when the sub-call at index [i] fails, the call of [executeBatch]
    reverts: the world after it (balances and storage) is the world before
    it and no event is left.  On a well-formed request from a sender that
    can pay, the ghost log shows that the [i] earlier sub-calls did run,
    and the failing one after them; what they did is undone all the
    same. *)
Theorem executeBatch_failed_subcall_rolls_back
    sender value targets data amount w i d :
  run_subcalls (move sender this value w) (subcalls targets data amount)
  = FailedAt i d ->
  let o := invoke sender value
             (executeBatch sender value targets data amount) w in
  (exists reason made, o = Reverted reason made)
  /\ state_after w o = w
  /\ events_of o = []
  /\ (length targets = length data -> length targets = length amount ->
      value <= balance w sender ->
      o = Reverted SubcallFailed (take (S i) (subcalls targets data amount))
      /\ (i < length targets)%nat).
Proof.
  intros Hrun o. subst o.
  destruct (N.ltb_spec (balance w sender) value) as [Hlow|Hv].
  { rewrite invoke_unfunded by assumption. cbn.
    repeat split; eauto; intros; lia. }
  destruct (decide (length targets = length data
                    /\ length targets = length amount)) as [[Hd Ha]|Hbad].
  - rewrite invoke_executeBatch by assumption.
    cbn zeta. rewrite Hrun. cbn.
    split; [eauto|]. split; [reflexivity|]. split; [reflexivity|].
    intros _ _ _. split; [reflexivity|].
    apply run_subcalls_failed_lt in Hrun.
    by rewrite length_subcalls in Hrun.
  - rewrite invoke_executeBatch_malformed by assumption. cbn.
    split; [eauto|]. split; [reflexivity|]. split; [reflexivity|].
    intros; tauto.
Qed.

(** C3, as the contract has it: when a sub-call of a well-formed request
    fails, at whatever index [i] and with whatever revert data [d], the
    error raised is the fixed string "One of the transactions failed.
    Reverting all transactions."; neither [i] nor [d] is part of it. *)
Theorem executeBatch_failure_message sender value targets data amount w i d :
  length targets = length data -> length targets = length amount ->
  value <= balance w sender ->
  run_subcalls (move sender this value w) (subcalls targets data amount)
  = FailedAt i d ->
  exists made,
    invoke sender value (executeBatch sender value targets data amount) w
    = Reverted
        (Error "One of the transactions failed. Reverting all transactions.")
        made.
Proof.
  intros Hd Ha Hv Hrun. rewrite invoke_executeBatch by assumption.
  cbn zeta. rewrite Hrun. eexists. reflexivity.
Qed.

(** ** A batch whose sub-calls all succeed *)

(** C6, as the contract has it: on a well-formed request whose sub-calls
    all succeed, and which gets past the balance check and the refund,
    [executeBatch] returns one success flag (all [true]) and one return
    datum per input triple, in input order, and emits exactly one
    [OperationExecuted] event per sub-call, in the order of the calls. *)
Theorem executeBatch_outcomes_in_order
    sender value targets data amount w w' rs :
  length targets = length data -> length targets = length amount ->
  value <= balance w sender ->
  let w1 := move sender this value w in
  let cs := subcalls targets data amount in
  run_subcalls w1 cs = AllSucceeded w' rs ->
  let reference := balance w1 this - value in
  reference <= balance w' this ->
  (balance w' this = reference
   \/ (sender <> this
       /\ accepts w' this sender (balance w' this - reference) = true)) ->
  exists f,
    invoke sender value (executeBatch sender value targets data amount) w
    = Committed (replicate (length targets) true, rs) f
    /\ length rs = length targets
    /\ calls f = cs
    /\ emitted f = operation_events cs rs
    /\ length (emitted f) = length targets
    /\ (forall j c, cs !! j = Some c ->
          exists r, rs !! j = Some r
            /\ emitted f !! j = Some (OperationExecuted (cr_target c) true r)).
Proof.
  intros Hd Ha Hv w1 cs Hrun reference Hge Hrefund.
  rewrite invoke_executeBatch by assumption. cbn zeta.
  fold w1 cs. rewrite Hrun. fold reference.
  destruct (N.ltb_spec (balance w' this) reference) as [|_]; [lia|].
  pose proof (run_subcalls_length _ _ _ _ Hrun) as Hlen.
  assert (Hcs : length cs = length targets) by (by apply length_subcalls).
  assert (Hpay : (0 <? balance w' this - reference)
                 && negb (negb (sender =? this)
                          && accepts w' this sender
                               (balance w' this - reference)) = false).
  { destruct Hrefund as [->|[Hne Hacc]].
    - rewrite N.sub_diag. reflexivity.
    - rewrite Hacc. apply N.eqb_neq in Hne. rewrite Hne.
      apply andb_false_r. }
  rewrite Hpay. eexists. split; [reflexivity|]. cbn [calls emitted].
  repeat split; [lia| |].
  - unfold operation_events. rewrite length_zip_with. lia.
  - intros j c Hj.
    destruct (lookup_lt_is_Some_2 rs j) as [r Hr].
    { apply lookup_lt_Some in Hj. lia. }
    exists r. split; [assumption|].
    unfold operation_events. rewrite lookup_zip_with, Hj. cbn.
    rewrite Hr. reflexivity.
Qed.

(** ** The balance check and the refund *)

(** C2, as the contract has it.  After all sub-calls of a well-formed
    request have succeeded, leaving world [w'], the executor compares its
    balance with the reference balance (its balance at entry minus the
    attached value):
    - lower: the call fails with [InsufficientFunds] and is rolled back;
    - equal: the call commits [w'], nothing is sent;
    - higher, and the caller takes the transfer: the difference is moved to
      the caller, and the executor is left with the reference balance;
    - higher, and the caller refuses: the call is rolled back, with the
      revert data the caller gave;
    and when the sub-calls have taken the sum of their amounts, no more and
    no less, out of the executor's balance, the difference is the attached
    value minus that sum. *)
Theorem executeBatch_refund sender value targets data amount w w' rs :
  length targets = length data -> length targets = length amount ->
  value <= balance w sender ->
  let w1 := move sender this value w in
  let cs := subcalls targets data amount in
  run_subcalls w1 cs = AllSucceeded w' rs ->
  let o := invoke sender value
             (executeBatch sender value targets data amount) w in
  let reference := balance w1 this - value in
  let difference := balance w' this - reference in
  (balance w' this < reference ->
     o = Reverted InsufficientFunds cs /\ state_after w o = w)
  /\ (balance w' this = reference ->
       exists f, o = Committed (replicate (length targets) true, rs) f
         /\ world f = w')
  /\ (reference < balance w' this -> sender <> this ->
       accepts w' this sender difference = true ->
       exists f, o = Committed (replicate (length targets) true, rs) f
         /\ world f = move this sender difference w'
         /\ balance (world f) sender = balance w' sender + difference
         /\ balance (world f) this = reference)
  /\ (reference < balance w' this ->
       sender = this \/ accepts w' this sender difference = false ->
       o = Reverted (refused this refusal sender difference w') cs
       /\ state_after w o = w)
  /\ (balance w' this + total amount = balance w1 this ->
       reference <= balance w' this ->
       difference = value - total amount /\ total amount <= value).
Proof.
  intros Hd Ha Hv w1 cs Hrun o reference difference.
  assert (Hentry : value <= balance w1 this) by (by apply entry_balance).
  assert (Ho : o = _) by (apply invoke_executeBatch; assumption).
  cbn zeta in Ho. fold w1 cs in Ho. rewrite Hrun in Ho.
  fold reference difference in Ho.
  assert (Hsub : difference = balance w' this - reference) by reflexivity.
  clearbody o difference. subst o.
  destruct (N.ltb_spec (balance w' this) reference) as [Hlt|Hge].
  { split; [done|]. split; [intros; lia|]. split; [intros; lia|].
    split; intros; lia. }
  split; [intros; lia|].
  split.
  { intros Heq. assert (Hz : difference = 0) by lia. rewrite Hz. cbn.
    eexists. split; reflexivity. }
  split.
  { intros Hgt Hne Hacc. rewrite Hacc. apply N.eqb_neq in Hne. rewrite Hne.
    destruct (N.ltb_spec 0 difference) as [_|]; [|lia].
    cbn. eexists. split; [reflexivity|]. cbn. split; [reflexivity|].
    assert (Hne' : (this =? sender) = false) by (by rewrite N.eqb_sym).
    rewrite !N.eqb_refl, Hne, Hne'.
    split; [reflexivity|]. lia. }
  split.
  { intros Hgt Hrefuse.
    destruct (N.ltb_spec 0 difference) as [_|]; [|lia].
    destruct Hrefuse as [->|Hrej].
    - rewrite N.eqb_refl. split; reflexivity.
    - rewrite Hrej, andb_false_r. split; reflexivity. }
  intros Hspent _. subst reference. lia.
Qed.

(** ** [withdraw] *)

(** C9, as the contract has it.  Whoever the caller is: with a zero balance
    [withdraw()] fails with [NothingToWithdraw]; with a positive balance it
    sends the whole balance to the caller, which leaves the executor with
    nothing when the caller takes the transfer, and is rolled back, with
    the revert data the caller gave, when the caller refuses it. *)
Theorem withdraw_pays_out caller w :
  let o := Executor.invoke this caller 0 (withdraw this accepts refusal caller) w in
  let w0 := move caller this 0 w in
  (balance w this = 0 -> o = Reverted NothingToWithdraw [])
  /\ (0 < balance w this -> caller <> this ->
       accepts w0 this caller (balance w this) = true ->
       exists f, o = Committed tt f
         /\ balance (world f) this = 0
         /\ balance (world f) caller = balance w caller + balance w this
         /\ (forall a, a <> this -> a <> caller ->
               balance (world f) a = balance w a)
         /\ storage (world f) = storage w
         /\ emitted f = [] /\ calls f = [])
  /\ (0 < balance w this ->
       caller = this \/ accepts w0 this caller (balance w this) = false ->
       o = Reverted (refused this refusal caller (balance w this) w0) []
       /\ state_after w o = w).
Proof.
  intros o w0.
  assert (Hbal : balance w0 this = balance w this).
  { subst w0. unfold move. cbn [balance]. rewrite N.eqb_refl.
    destruct (this =? caller); lia. }
  assert (Ho : o =
    if 0 <? balance w this then
      if negb (caller =? this) && accepts w0 this caller (balance w this)
      then Committed tt {| world := move this caller (balance w this) w0;
                           emitted := []; calls := [] |}
      else Reverted (refused this refusal caller (balance w this) w0) []
    else Reverted NothingToWithdraw []).
  { subst o. unfold Executor.invoke. fold w0.
    destruct (N.ltb_spec (balance w caller) 0) as [|_]; [lia|].
    unfold withdraw. unfold bind at 1, self_balance at 1. cbn [world].
    rewrite Hbal. unfold bind at 1, require at 1.
    destruct (0 <? balance w this); [|reflexivity].
    unfold ret at 1. unfold transfer. cbn [world calls emitted].
    rewrite Hbal, N.ltb_irrefl. reflexivity. }
  clearbody o. subst o.
  split.
  { intros ->. reflexivity. }
  split.
  - intros Hpos Hne Hacc.
    destruct (N.ltb_spec 0 (balance w this)) as [_|]; [|lia].
    rewrite Hacc. apply N.eqb_neq in Hne. rewrite Hne. cbn [negb andb].
    assert (Hne' : (this =? caller) = false) by (by rewrite N.eqb_sym).
    eexists. split; [reflexivity|]. cbn.
    rewrite !N.eqb_refl, Hne, Hne'.
    split; [lia|]. split; [lia|]. split; [|done].
    intros a Ha Hc.
    apply N.eqb_neq in Ha, Hc. rewrite Ha, Hc. lia.
  - intros Hpos Hrefuse.
    destruct (N.ltb_spec 0 (balance w this)) as [_|]; [|lia].
    destruct Hrefuse as [->|Hrej].
    + rewrite N.eqb_refl. split; reflexivity.
    + rewrite Hrej, andb_false_r. split; reflexivity.
Qed.

End Loop.

(** ** The contract at work *)

Section Runs.
Import Scenario.

Abbreviation run_batch accepts refusal sender value targets data amount w :=
  (Executor.invoke executor sender value
     (Executor.executeBatch executor code_at accepts refusal sender value
        targets data amount) w).

(** A request with one payload missing. *)
Lemma executeBatch_mismatched_lengths_run :
  run_batch accepts_all silent alice 5 [bob; carol] [[]] [1; 2] (ledger 1000 0 0)
  = Reverted MalformedRequest [].
Proof.
  destruct (executeBatch_mismatched_lengths executor code_at accepts_all silent
              alice 5 [bob; carol] [[]] [1; 2] (ledger 1000 0 0))
    as (_ & _ & _ & _ & _ & Ho).
  - cbn. lia.
  - apply Ho. cbn. lia.
Defined.

(** Bob is paid, then the rejector reverts: bob's wei is back with alice. *)
Lemma executeBatch_failed_subcall_run :
  let o := run_batch accepts_all silent alice 5 [bob; rejector] [[]; [Byte.x01]]
             [1; 0] (ledger 1000 0 0) in
  state_after (ledger 1000 0 0) o = ledger 1000 0 0
  /\ events_of o = []
  /\ calls_of o = [ {| cr_target := bob; cr_value := 1; cr_data := [] |};
                    {| cr_target := rejector; cr_value := 0;
                       cr_data := [Byte.x01] |} ].
Proof.
  destruct (executeBatch_failed_subcall_rolls_back executor code_at accepts_all silent
              alice 5 [bob; rejector] [[]; [Byte.x01]] [1; 0]
              (ledger 1000 0 0) 1%nat [Byte.x01] eq_refl)
    as (_ & Hstate & Hevents & Hcalls).
  split; [exact Hstate|]. split; [exact Hevents|].
  destruct Hcalls as [Ho _]; [reflexivity | reflexivity | cbn; lia |].
  exact (f_equal calls_of Ho).
Defined.

Lemma executeBatch_failure_message_run :
  exists made,
    run_batch accepts_all silent alice 5 [bob; rejector] [[]; [Byte.x01]] [1; 0]
      (ledger 1000 0 0)
    = Reverted SubcallFailed made.
Proof.
  apply (executeBatch_failure_message executor code_at accepts_all silent
           alice 5 [bob; rejector] [[]; [Byte.x01]] [1; 0]
           (ledger 1000 0 0) 1%nat [Byte.x01]).
  - reflexivity.
  - reflexivity.
  - cbn. lia.
  - reflexivity.
Defined.

(** The same error comes out of a failure at index 0 with revert data 02
    and of a failure at index 1 with revert data 01: nothing can read the
    index or the data back from it. *)
Lemma failure_error_forgets_index_and_data :
  ~ failure_carries_index_and_data.
Proof.
  intros (index_of & data_of & Hcarry).
  destruct (Hcarry executor code_at accepts_all silent alice 5
              [rejector] [[Byte.x02]] [0] (ledger 1000 0 0)
              0%nat [Byte.x02] SubcallFailed
              [ {| cr_target := rejector; cr_value := 0;
                   cr_data := [Byte.x02] |} ]
              eq_refl eq_refl) as [Hi0 _].
  destruct (Hcarry executor code_at accepts_all silent alice 5
              [bob; rejector] [[]; [Byte.x01]] [1; 0] (ledger 1000 0 0)
              1%nat [Byte.x01] SubcallFailed
              [ {| cr_target := bob; cr_value := 1; cr_data := [] |};
                {| cr_target := rejector; cr_value := 0;
                   cr_data := [Byte.x01] |} ]
              eq_refl eq_refl) as [Hi1 _].
  congruence.
Qed.

Lemma executeBatch_outcomes_in_order_run :
  exists f,
    run_batch accepts_all silent alice 10 [bob; carol] [[]; []] [3; 4]
      (ledger 1000 0 0)
    = Committed ([true; true], [[]; []]) f
    /\ emitted f = [OperationExecuted bob true [];
                    OperationExecuted carol true []].
Proof.
  destruct (executeBatch_outcomes_in_order executor code_at accepts_all silent
              alice 10 [bob; carol] [[]; []] [3; 4] (ledger 1000 0 0)
              after_bob_and_carol [[]; []]) as (f & Ho & _ & _ & He & _).
  - reflexivity.
  - reflexivity.
  - cbn. lia.
  - reflexivity.
  - cbn. lia.
  - right. split; [discriminate | reflexivity].
  - exists f. split; [exact Ho | exact He].
Defined.

(** The executor holds 5 wei from earlier; a batch that attaches nothing
    and pays bob 3 out of them has a sub-call that succeeds, yet returns
    nothing and leaves no event. *)
Lemma executeBatch_all_succeed_yet_reverts :
  ~ all_succeed_gives_outcomes executor code_at accepts_all silent
      alice 0 [bob] [[]] [3] (ledger 1000 0 5).
Proof.
  intros Hclaim.
  destruct (Hclaim eq_refl eq_refl) with
    (w' := move executor bob 3 (move alice executor 0 (ledger 1000 0 5)))
    (rs := [[] : bytes]) as (success & results & f & Ho & _).
  - cbn. lia.
  - reflexivity.
  - vm_compute in Ho. discriminate Ho.
Qed.

(** Alice attaches 10 and pays out 7: she gets 3 back, which is 10 minus
    the sum of the amounts, and the executor is left with what it had,
    nothing. *)
Lemma executeBatch_refund_run :
  (exists f,
     run_batch accepts_all silent alice 10 [bob; carol] [[]; []] [3; 4]
       (ledger 1000 0 0)
     = Committed ([true; true], [[]; []]) f
     /\ world f = move executor alice 3 after_bob_and_carol
     /\ balance (world f) alice = 993
     /\ balance (world f) executor = 0)
  /\ balance after_bob_and_carol executor
       - (balance (move alice executor 10 (ledger 1000 0 0)) executor - 10)
     = 10 - total [3; 4].
Proof.
  destruct (executeBatch_refund executor code_at accepts_all silent
              alice 10 [bob; carol] [[]; []] [3; 4] (ledger 1000 0 0)
              after_bob_and_carol [[]; []] eq_refl eq_refl)
    as (_ & _ & Hpay & _ & Hsurplus).
  - cbn. lia.
  - reflexivity.
  - split.
    + destruct Hpay as (f & Ho & Hw & Hs & Ht).
      * cbn. lia.
      * discriminate.
      * reflexivity.
      * exists f. split; [exact Ho|]. split; [exact Hw|].
        split; [exact Hs | exact Ht].
    + apply Hsurplus.
      * reflexivity.
      * cbn. lia.
Defined.

(** The vault attaches 10 and pays bob 3.  The sub-call succeeds and 7 wei
    are left over, but the vault takes no plain transfer: nothing is
    transferred back and the whole call is rolled back. *)
Lemma executeBatch_refund_refused :
  ~ surplus_is_returned executor code_at accepts_but_vault silent
      vault 10 [bob] [[]] [3] (ledger 0 1000 0).
Proof.
  intros Hclaim.
  destruct (Hclaim eq_refl eq_refl) with
    (w' := move executor bob 3 (move vault executor 10 (ledger 0 1000 0)))
    (rs := [[] : bytes]) as (_ & Hpay & _).
  - cbn. lia.
  - reflexivity.
  - destruct Hpay as (r & f & Ho & _).
    + cbn. lia.
    + vm_compute in Ho. discriminate Ho.
Qed.

(** Alice attaches 10 and pays the drainer 1.  While it is being called the
    drainer withdraws the 9 wei that are left on the executor; the batch
    commits, alice gets nothing back and the drainer holds all 10. *)
Lemma executeBatch_surplus_drained :
  exists f,
    run_batch accepts_all silent alice 10 [drainer] [[Byte.x01]] [1]
      (ledger 1000 0 0)
    = Committed ([true], [[]]) f
    /\ balance (world f) alice = 990
    /\ balance (world f) drainer = 10
    /\ balance (world f) executor = 0.
Proof. eexists. split; [vm_compute; reflexivity|]. vm_compute. auto. Qed.

Lemma executeBatch_surplus_not_returned_when_drained :
  ~ surplus_is_returned executor code_at accepts_all silent
      alice 10 [drainer] [[Byte.x01]] [1] (ledger 1000 0 0).
Proof.
  intros Hclaim.
  destruct executeBatch_surplus_drained as (f0 & Ho0 & Ha & _).
  destruct (Hclaim eq_refl eq_refl) with
    (w' := move executor drainer 9
             (move drainer executor 0
                (move executor drainer 1
                   (move alice executor 10 (ledger 1000 0 0)))))
    (rs := [[] : bytes]) as (_ & _ & Hsurplus).
  - cbn. lia.
  - reflexivity.
  - destruct Hsurplus as (r & f & Ho & Hbal).
    + cbn. lia.
    + rewrite Ho0 in Ho. injection Ho as _ <-.
      rewrite Ha in Hbal. vm_compute in Hbal. discriminate Hbal.
Qed.

(** Alice withdraws the 5 wei the executor holds. *)
Lemma withdraw_pays_out_run :
  exists f,
    Executor.invoke executor alice 0 (withdraw executor accepts_all silent alice)
      (ledger 1000 0 5)
    = Committed tt f
    /\ balance (world f) executor = 0
    /\ balance (world f) alice = 1005.
Proof.
  destruct (withdraw_pays_out executor accepts_all silent alice (ledger 1000 0 5))
    as (_ & Hpay & _).
  destruct Hpay as (f & Ho & He & Ha & _).
  - cbn. lia.
  - discriminate.
  - reflexivity.
  - exists f. split; [exact Ho|]. split; [exact He | exact Ha].
Defined.

(** The vault calls [withdraw()] while the executor holds 5 wei: the
    transfer is refused, the call reverts and the 5 wei stay. *)
Lemma withdraw_refused :
  ~ withdraw_always_pays executor accepts_but_vault silent vault (ledger 0 0 5).
Proof.
  intros [_ Hpay]. destruct Hpay as (f & Ho & _).
  - cbn. lia.
  - vm_compute in Ho. discriminate Ho.
Qed.

(** The vault attaches 10 and pays bob 3; the sub-call succeeds, the
    refund of 7 is refused, and again nothing is returned. *)
Lemma executeBatch_all_succeed_yet_refund_refused :
  ~ all_succeed_gives_outcomes executor code_at accepts_but_vault silent
      vault 10 [bob] [[]] [3] (ledger 0 1000 0).
Proof.
  intros Hclaim.
  destruct (Hclaim eq_refl eq_refl) with
    (w' := move executor bob 3 (move vault executor 10 (ledger 0 1000 0)))
    (rs := [[] : bytes]) as (success & results & f & Ho & _).
  - cbn. lia.
  - reflexivity.
  - vm_compute in Ho. discriminate Ho.
Qed.

End Runs.
End ExecutorFacts.

(* ===================================================================== *)
(** * Part IV: the client SDK, proofs                                     *)
(* ===================================================================== *)

Module ClientFacts.
Import Client.
Open Scope Z_scope.

Lemma strict_eq_refl v : v <> JNaN -> strict_eq v v = true.
Proof.
  destruct v; cbn; intros Hv.
  - apply Z.eqb_refl.
  - by destruct Hv.
  - apply String.eqb_refl.
  - apply Nat.eqb_refl.
Qed.

Lemma filter_all {A} (q : A -> bool) (l : list A) :
  (forall e, In e l -> q e = true) -> List.filter q l = l.
Proof.
  induction l as [|e l IH]; intros Hall; cbn; [reflexivity|].
  rewrite (Hall e) by (left; reflexivity).
  f_equal. apply IH. intros e' He'. apply Hall. right. exact He'.
Qed.

Lemma existsb_filter {A} (q : A -> bool) (l : list A) :
  existsb q l = negb (Nat.eqb (length (List.filter q l)) 0).
Proof.
  induction l as [|e l IH]; cbn; [reflexivity|].
  destruct (q e); cbn; [reflexivity | exact IH].
Qed.

Lemma filter_none_in {A} (q : A -> bool) (l : list A) :
  length (List.filter q l) = 0%nat -> forall e, In e l -> q e = false.
Proof.
  induction l as [|e l IH]; cbn; intros Hlen e' He'; [contradiction|].
  destruct (q e) eqn:Hq; cbn in Hlen; [discriminate|].
  destruct He' as [<-|He']; [exact Hq | by apply IH].
Qed.

Section Methods.

Context {Net : Type}.
Variable ethers : Ethers Net.

Abbreviation JSON_stringify := (JSON_stringify ethers).
Abbreviation occurrences := (occurrences ethers).
Abbreviation perform := (perform ethers).
Abbreviation added := (added ethers).

Lemma strict_eq_JSON a b :
  strict_eq a b = true -> JSON_value ethers a = JSON_value ethers b.
Proof.
  destruct a, b; cbn; try discriminate.
  - intros ->%Z.eqb_eq. reflexivity.
  - intros ->%String.eqb_eq. reflexivity.
  - intros ->%Nat.eqb_eq. reflexivity.
Qed.

(** ** The pending list *)

Lemma perform_add (r : Run Net) t v d :
  sdk (perform (AddTransactionToList t v d) r)
  = {| approvalTransactionsList := approvalTransactionsList (sdk r);
       transactionList :=
         added {| target := t; value := v; data := d |}
               (transactionList (sdk r)) |}.
Proof.
  cbn. unfold addTransactionToList, try_rethrow, bind, this_transactionList,
    Client.added.
  destruct (existsb _ _); cbn; [by destruct (sdk r) | reflexivity].
Qed.

Lemma perform_remove (r : Run Net) t v d :
  sdk (perform (RemoveTransactionFromList t v d) r)
  = {| approvalTransactionsList := approvalTransactionsList (sdk r);
       transactionList :=
         List.filter (fun tx => negb (String.eqb (target tx) t
                                      && strict_eq (value tx) v
                                      && String.eqb (data tx) d))
                     (transactionList (sdk r)) |}.
Proof. reflexivity. Qed.

Lemma occurrences_self tx : occurrences tx [tx] = 1%nat.
Proof. unfold Client.occurrences. cbn. by rewrite bool_decide_eq_true_2. Qed.

Lemma occurrences_app tx l l' :
  occurrences tx (l ++ l') = (occurrences tx l + occurrences tx l')%nat.
Proof. unfold Client.occurrences. by rewrite List.filter_app, length_app. Qed.

Lemma added_twice tx l :
  added tx (added tx l)
  = if Nat.eqb (occurrences tx l) 0 then l ++ [tx] else l.
Proof.
  unfold Client.added at 2. rewrite existsb_filter. fold (occurrences tx l).
  destruct (Nat.eqb (occurrences tx l) 0) eqn:Hocc; cbn [negb].
  - unfold Client.added. rewrite existsb_filter.
    fold (occurrences tx (l ++ [tx])).
    rewrite occurrences_app, occurrences_self.
    apply Nat.eqb_eq in Hocc. rewrite Hocc. reflexivity.
  - unfold Client.added. rewrite existsb_filter. fold (occurrences tx l).
    rewrite Hocc. reflexivity.
Qed.

(** C8, as the SDK has it.  After the same triple has been added twice the
    list holds one entry that prints like it, or as many as it held before
    if it held any; so exactly one if it held at most one, as every list
    built by the SDK's methods does.  If it held none, the list is the
    old one with the triple at its end, and one remove of the triple gives
    the old list back, unless the value is [NaN]: then the remove finds
    nothing to remove.  If it held some, the two adds changed nothing and
    the remove works on the old list.  In every case the remove takes out
    the entries whose three fields are [===] to the triple and no others:
    an earlier entry that is [===] to the triple goes too, an earlier
    entry that only prints the same stays. *)
Theorem add_twice_then_remove (r : Run Net) t v d :
  let tx := {| target := t; value := v; data := d |} in
  let strictly_other := fun e =>
    negb (String.eqb (target e) t && strict_eq (value e) v
          && String.eqb (data e) d) in
  let l := transactionList (sdk r) in
  let r2 := perform (AddTransactionToList t v d)
              (perform (AddTransactionToList t v d) r) in
  let r3 := perform (RemoveTransactionFromList t v d) r2 in
  occurrences tx (transactionList (sdk r2)) = Nat.max 1 (occurrences tx l)
  /\ ((occurrences tx l <= 1)%nat ->
      occurrences tx (transactionList (sdk r2)) = 1%nat)
  /\ (occurrences tx l = 0%nat ->
      transactionList (sdk r2) = l ++ [tx]
      /\ occurrences tx (transactionList (sdk r2)) = 1%nat
      /\ (v <> JNaN -> transactionList (sdk r3) = l)
      /\ (v = JNaN -> transactionList (sdk r3) = l ++ [tx]))
  /\ ((0 < occurrences tx l)%nat ->
      transactionList (sdk r2) = l
      /\ transactionList (sdk r3) = List.filter strictly_other l)
  /\ (forall e, In e (transactionList (sdk r3))
                <-> In e (transactionList (sdk r2))
                    /\ strictly_other e = true)
  /\ (forall e, In e l -> strictly_other e = false ->
                ~ In e (transactionList (sdk r3)))
  /\ (forall e, In e l -> strictly_other e = true ->
                In e (transactionList (sdk r3))).
Proof.
  intros tx strictly_other l r2 r3.
  assert (H2 : transactionList (sdk r2)
               = if Nat.eqb (occurrences tx l) 0 then l ++ [tx] else l).
  { subst r2. rewrite !perform_add. cbn [transactionList].
    apply added_twice. }
  assert (H3 : transactionList (sdk r3)
               = List.filter strictly_other (transactionList (sdk r2))).
  { subst r3. rewrite perform_remove. reflexivity. }
  assert (Hin : forall e, In e (transactionList (sdk r3))
                          <-> In e (transactionList (sdk r2))
                              /\ strictly_other e = true).
  { intros e. rewrite H3. apply filter_In. }
  assert (Hsub : forall e, In e l -> In e (transactionList (sdk r2))).
  { intros e He. rewrite H2. destruct (Nat.eqb _ 0); [|exact He].
    apply in_or_app. by left. }
  assert (Hcount : occurrences tx
                     (if Nat.eqb (occurrences tx l) 0 then l ++ [tx] else l)
                   = Nat.max 1 (occurrences tx l)).
  { destruct (Nat.eqb_spec (occurrences tx l) 0) as [Hz|Hnz].
    - rewrite occurrences_app, occurrences_self, Hz. reflexivity.
    - lia. }
  split; [rewrite H2; exact Hcount|].
  split; [rewrite H2, Hcount; lia|].
  split; [|split; [|split; [exact Hin|split]]].
  - intros Hz. rewrite H3, H2, Hz. cbn [Nat.eqb].
    split; [reflexivity|]. split.
    { rewrite occurrences_app, occurrences_self, Hz. reflexivity. }
    assert (Hold : List.filter strictly_other l = l).
    { apply filter_all. intros e He.
      destruct (strictly_other e) eqn:Hother; [reflexivity|].
      pose proof (filter_none_in _ _ Hz e He) as Hprint. cbn in Hprint.
      apply bool_decide_eq_false in Hprint. exfalso. apply Hprint.
      subst strictly_other. cbn in Hother.
      apply negb_false_iff in Hother.
      apply andb_prop in Hother as [Htv Hd].
      apply andb_prop in Htv as [Ht Hv].
      apply String.eqb_eq in Ht, Hd. apply strict_eq_JSON in Hv.
      unfold Client.JSON_stringify. subst tx. cbn. congruence. }
    rewrite List.filter_app, Hold. cbn [List.filter].
    split.
    + intros Hv.
      assert (Hself : strictly_other tx = false).
      { subst strictly_other tx. cbn.
        by rewrite !String.eqb_refl, strict_eq_refl. }
      by rewrite Hself, app_nil_r.
    + intros ->.
      assert (Hself : strictly_other tx = true).
      { subst strictly_other tx. cbn. by rewrite andb_false_r. }
      by rewrite Hself.
  - intros Hpos. rewrite H3, H2.
    destruct (Nat.eqb_spec (occurrences tx l) 0) as [Hz|_]; [lia|].
    split; reflexivity.
  - intros e He Hgone Hstill. apply Hin in Hstill as [_ Hother]. congruence.
  - intros e He Hother. apply Hin. split; [by apply Hsub | exact Hother].
Qed.

(** ** [executeBatchTransaction] *)

Abbreviation executeBatchTransaction := (executeBatchTransaction ethers).
Abbreviation session := (session ethers).

(** An approval callback leaves the SDK object alone and only asks for
    allowances and sends approvals. *)
Lemma approve_if_needed_run entry (r : Run Net) c r' :
  approve_if_needed ethers entry r = (c, r') ->
  exists traffic,
    sdk r' = sdk r
    /\ rpc_log r' = rpc_log r ++ traffic
    /\ forallb approval_traffic traffic = true.
Proof.
  destruct entry as [tok req].
  unfold approve_if_needed, try_rethrow, getContractInstance, try_rethrow.
  unfold bind, pure_call, ret, request.
  destruct (new_Contract ethers tok) as [[]|e].
  2:{ intros [= <- <-]. exists []. by rewrite app_nil_r. }
  destruct (allowance ethers tok _ _ (net r)) as [[a|e] n1].
  2:{ intros [= <- <-]. eexists [_]. cbn. (split; [|split]); reflexivity. }
  destruct (a <? req).
  - cbn [net sdk rpc_log].
    destruct (approve ethers tok _ req n1) as [[tx|e] n2];
      intros [= <- <-]; eexists [_; _]; cbn; rewrite <- app_assoc; cbn;
      (split; [|split]); reflexivity.
  - intros [= <- <-]. eexists [_]. cbn. (split; [|split]); reflexivity.
Qed.

Lemma Promise_all_approvals entries : forall (r : Run Net) cs r',
  Promise_all (List.map (approve_if_needed ethers) entries) r = (cs, r') ->
  exists traffic,
    sdk r' = sdk r
    /\ rpc_log r' = rpc_log r ++ traffic
    /\ forallb approval_traffic traffic = true.
Proof.
  induction entries as [|entry entries IH]; intros r cs r';
    cbn [List.map Promise_all].
  - intros [= <- <-]. exists []. by rewrite app_nil_r.
  - destruct (approve_if_needed ethers entry r) as [c r1] eqn:H1.
    destruct (Promise_all _ r1) as [cs' r2] eqn:H2.
    intros [= <- <-].
    destruct (approve_if_needed_run _ _ _ _ H1) as (t1 & Hs1 & Hl1 & Ht1).
    destruct (IH _ _ _ H2) as (t2 & Hs2 & Hl2 & Ht2).
    exists (t1 ++ t2). rewrite Hs2, Hs1, Hl2, Hl1, <- app_assoc.
    rewrite forallb_app, Ht1, Ht2. auto.
Qed.

(** The five ways [executeBatchTransaction] can end. *)
Lemma executeBatchTransaction_anatomy (r : Run Net) c r' :
  executeBatchTransaction r = (c, r') ->
  let l := transactionList (sdk r) in
  let targets := List.map target l in
  let values := List.map value l in
  let data := List.map data l in
  let total := totalValue ethers values in
  exists traffic,
    forallb approval_traffic traffic = true
    /\ ((l = [] /\ c = Throw "Transaction list is empty" /\ r' = r)
        \/ (exists e, c = Throw e /\ sdk r' = sdk r
              /\ rpc_log r' = rpc_log r ++ traffic)
        \/ (exists e, c = Throw e /\ sdk r' = sdk r
              /\ rpc_log r' = rpc_log r ++ traffic
                   ++ [SendExecuteBatch targets data values total (Throw e)])
        \/ (exists tx e, c = Throw e /\ sdk r' = sdk r
              /\ rpc_log r' = rpc_log r ++ traffic
                   ++ [SendExecuteBatch targets data values total (Normal tx);
                       Wait tx (Throw e)])
        \/ (exists tx, c = Normal tx /\ l <> []
              /\ sdk r' = {| approvalTransactionsList :=
                               approvalTransactionsList (sdk r);
                             transactionList := [] |}
              /\ rpc_log r' = rpc_log r ++ traffic
                   ++ [SendExecuteBatch targets data values total (Normal tx);
                       Wait tx (Normal tt)])).
Proof.
  cbn zeta. unfold Client.executeBatchTransaction, try_rethrow.
  unfold bind at 1, this_transactionList at 1. cbn [sdk].
  unfold bind at 1.
  destruct (transactionList (sdk r)) as [|tx0 l0] eqn:Hl; cbn [length Nat.eqb].
  { intros [= <- <-]. exists []. split; [reflexivity|]. left. auto. }
  unfold ret at 1. unfold bind at 1, this_approvalTransactionsList at 1.
  unfold bind at 1.
  destruct (Promise_all _ r) as [[vs|e] r1] eqn:Hall;
    apply Promise_all_approvals in Hall as (traffic & Hs & Hlog & Ht).
  2:{ intros [= <- <-]. exists traffic. split; [exact Ht|]. right. left.
      eauto. }
  intros Hrun. exists traffic. split; [exact Ht|]. right. right.
  revert Hrun.
  unfold bind at 1, this_transactionList at 1. rewrite Hs, Hl.
  unfold bind at 1, request at 1.
  destruct (executeBatch ethers _ _ _ _ (net r1)) as [[tx|e] n2].
  2:{ intros [= <- <-]. left. exists e. cbn. rewrite Hs, Hlog, <- app_assoc.
      auto. }
  unfold bind at 1, request at 1. cbn [sdk net rpc_log].
  destruct (wait ethers tx n2) as [[[]|e] n3].
  2:{ intros [= <- <-]. right. left. exists tx, e. cbn.
      rewrite Hs, Hlog, <- !app_assoc. auto. }
  intros [= <- <-]. right. right. exists tx. cbn.
  rewrite Hs, Hlog, <- !app_assoc. auto.
Qed.


(** ** Approvals are sent, not awaited *)

Lemma unconfirmed_stays_unconfirmed traffic : forall pending batch rest,
  forallb approval_traffic traffic = true ->
  pending <> [] ->
  (exists ts ds vs total res, batch = SendExecuteBatch ts ds vs total res) ->
  approvals_confirmed_before_batch pending (traffic ++ batch :: rest) = false.
Proof.
  induction traffic as [|q traffic IH]; intros pending batch rest Ht Hp Hb.
  - destruct Hb as (ts & ds & vs & total & res & ->). cbn.
    destruct pending; [contradiction | reflexivity].
  - cbn in Ht. apply andb_prop in Ht as [Hq Ht].
    destruct q as [tok res|tok amt [tx|e]| | | |]; try discriminate Hq; cbn;
      apply IH; auto.
Qed.

Lemma sent_approval_is_unconfirmed traffic : forall pending batch rest tok amt tx,
  forallb approval_traffic traffic = true ->
  In (SendApprove tok amt (Normal tx)) traffic ->
  (exists ts ds vs total res, batch = SendExecuteBatch ts ds vs total res) ->
  approvals_confirmed_before_batch pending (traffic ++ batch :: rest) = false.
Proof.
  induction traffic as [|q traffic IH];
    intros pending batch rest tok amt tx Ht Hin Hb; [destruct Hin|].
  cbn in Ht. apply andb_prop in Ht as [Hq Ht].
  destruct Hin as [->|Hin].
  - cbn. by apply unconfirmed_stays_unconfirmed.
  - destruct q as [tok' res|tok' amt' [tx'|e]| | | |]; try discriminate Hq;
      cbn; eapply IH; eauto.
Qed.

(** Whatever the network does: when [executeBatchTransaction] has sent an
    approval and then the batch, the batch went out while that approval
    was unconfirmed.  The only [wait] of the method is the one for the
    batch itself. *)
Lemma executeBatchTransaction_awaits_no_approval (r : Run Net) c r' sent :
  executeBatchTransaction r = (c, r') ->
  rpc_log r' = rpc_log r ++ sent ->
  (exists tok amt tx, In (SendApprove tok amt (Normal tx)) sent) ->
  (exists ts ds vs total res, In (SendExecuteBatch ts ds vs total res) sent) ->
  approvals_confirmed_before_batch [] sent = false.
Proof.
  intros Hrun Hsent (tok & amt & tx & Happ) (ts & ds & vs & total & res & Hb).
  destruct (executeBatchTransaction_anatomy r c r' Hrun)
    as (traffic & Ht & Hends).
  assert (Hquiet : forall ts ds vs total res,
            ~ In (SendExecuteBatch ts ds vs total res) traffic).
  { intros ? ? ? ? ? Hin. rewrite forallb_forall in Ht.
    apply Ht in Hin. discriminate Hin. }
  destruct Hends as [(_ & _ & ->)|[(e & _ & _ & Hlog)|
                     [(e & _ & _ & Hlog)|[(tx' & e & _ & _ & Hlog)|
                      (tx' & _ & _ & _ & Hlog)]]]].
  - rewrite <- (app_nil_r (rpc_log r)) in Hsent at 1.
    apply app_inv_head in Hsent. subst sent. destruct Hb.
  - rewrite Hlog in Hsent. apply app_inv_head in Hsent. subst sent.
    exfalso. by eapply Hquiet.
  - rewrite Hlog in Hsent. apply app_inv_head in Hsent. subst sent.
    apply in_app_or in Happ as [Happ|[Happ|[]]]; [|discriminate Happ].
    eapply sent_approval_is_unconfirmed; eauto 10.
  - rewrite Hlog in Hsent. apply app_inv_head in Hsent. subst sent.
    apply in_app_or in Happ as [Happ|[Happ|[Happ|[]]]];
      [|discriminate Happ|discriminate Happ].
    eapply sent_approval_is_unconfirmed; eauto 10.
  - rewrite Hlog in Hsent. apply app_inv_head in Hsent. subst sent.
    apply in_app_or in Happ as [Happ|[Happ|[Happ|[]]]];
      [|discriminate Happ|discriminate Happ].
    eapply sent_approval_is_unconfirmed; eauto 10.
Qed.

(** ** The approval accumulator *)

Abbreviation approvals r := (approvalTransactionsList (sdk r)).

Lemma accumulate_insert (m : gmap string Z) tok v :
  let m' := match m !! tok with
            | None => <[tok := 0]> m
            | Some _ => m
            end in
  <[tok := default 0 (m' !! tok) + v]> m'
  = <[tok := default 0 (m !! tok) + v]> m.
Proof.
  cbn zeta. destruct (m !! tok) as [a|] eqn:Hm.
  - by rewrite Hm.
  - by rewrite lookup_insert_eq, insert_insert_eq.
Qed.

Lemma estimate_if_needed_keeps_sdk entry (r : Run Net) :
  sdk (estimate_if_needed ethers entry r).2 = sdk r.
Proof.
  destruct entry as [tok req].
  unfold estimate_if_needed, try_rethrow, getContractInstance, try_rethrow.
  unfold bind, pure_call, ret, request.
  destruct (new_Contract ethers tok) as [[]|e]; [|reflexivity].
  destruct (allowance ethers tok _ _ (net r)) as [[a|e] n1]; [|reflexivity].
  destruct (a <? req); [|reflexivity].
  cbn [net sdk rpc_log].
  by destruct (estimateGas_approve ethers tok _ req n1) as [[g|e] n2].
Qed.

Lemma Promise_all_keeps_sdk {A} (ps : list (JS A)) :
  Forall (fun p => forall r : Run Net, sdk (p r).2 = sdk r) ps ->
  forall r, sdk (Promise_all ps r).2 = sdk r.
Proof.
  induction 1 as [|p ps Hp _ IH]; intros r; cbn [Promise_all];
    [reflexivity|].
  specialize (Hp r). destruct (p r) as [c r1]. cbn [snd] in Hp.
  specialize (IH r1). destruct (Promise_all ps r1) as [cs r2].
  cbn [snd] in *. congruence.
Qed.

Lemma estimateGasForBatchTransaction_keeps_sdk (r : Run Net) :
  sdk (estimateGasForBatchTransaction ethers r).2 = sdk r.
Proof.
  unfold estimateGasForBatchTransaction, try_rethrow.
  unfold bind at 1, this_transactionList at 1. unfold bind at 1.
  destruct (Nat.eqb _ 0); [reflexivity|].
  unfold ret at 1. unfold bind at 1, this_approvalTransactionsList at 1.
  unfold bind at 1.
  pose proof (Promise_all_keeps_sdk
                (List.map (estimate_if_needed ethers)
                   (map_to_list (approvalTransactionsList (sdk r))))) as Hall.
  specialize (Hall ltac:(apply Forall_forall; intros p Hp;
                         apply list_elem_of_In, in_map_iff in Hp
                           as (entry & <- & _);
                         apply estimate_if_needed_keeps_sdk) r).
  destruct (Promise_all _ r) as [[vs|e] r1]; cbn [snd] in Hall;
    [|exact Hall].
  unfold bind, this_transactionList, request.
  destruct (estimateGas_executeBatch ethers _ _ _ _ (net r1)) as [c n2].
  exact Hall.
Qed.

(** ** No list built by the methods holds the same triple twice *)

Lemma occurrences_filter_le tx q l :
  (occurrences tx (List.filter q l) <= occurrences tx l)%nat.
Proof.
  unfold Client.occurrences.
  induction l as [|e l IH]; cbn; [lia|].
  destruct (q e); cbn; destruct (bool_decide _); cbn; lia.
Qed.

Lemma occurrences_added tx l e :
  (forall e, occurrences e l <= 1)%nat ->
  (occurrences e (added tx l) <= 1)%nat.
Proof.
  intros Hl. unfold Client.added. rewrite existsb_filter.
  fold (occurrences tx l).
  destruct (Nat.eqb_spec (occurrences tx l) 0) as [Hz|_]; cbn [negb];
    [|apply Hl].
  rewrite occurrences_app. unfold Client.occurrences at 2. cbn.
  case_bool_decide as Hsame; cbn; [|specialize (Hl e); lia].
  assert (Heq : occurrences e l = occurrences tx l).
  { unfold Client.occurrences. by rewrite Hsame. }
  lia.
Qed.

Lemma perform_transactionList (r : Run Net) op :
  let l := transactionList (sdk r) in
  let l' := transactionList (sdk (perform op r)) in
  l' = l \/ l' = [] \/ (exists tx, l' = added tx l)
  \/ (exists q, l' = List.filter q l).
Proof.
  cbn zeta.
  destruct op as [| | | |a|t v d|tok t v|tok t v|t v d| | |];
    try (left; reflexivity).
  - left. cbn. unfold getContractInstance, try_rethrow, bind, pure_call.
    by destruct (new_Contract ethers a) as [[]|e].
  - right. right. left. rewrite perform_add. eauto.
  - cbn. unfold addERC20Transfer, try_rethrow, bind, accumulate, bind,
      this_approvalTransactionsList, set_approvalTransactionsList,
      getContractInstance, try_rethrow, bind, pure_call, ret, throw.
    destruct (inherited tok); [by left|].
    destruct (new_Contract ethers tok) as [[]|e]; [|by left].
    destruct (encode_transferFrom ethers tok _ t v) as [d|e]; [|by left].
    right. right. left. eexists.
    exact (f_equal transactionList (perform_add _ tok (JNumber 0) d)).
  - cbn. unfold addERC20Approve, try_rethrow, bind, accumulate, bind,
      this_approvalTransactionsList, set_approvalTransactionsList,
      getContractInstance, try_rethrow, bind, pure_call, ret, throw.
    destruct (inherited tok); [by left|].
    destruct (new_Contract ethers tok) as [[]|e]; [|by left].
    destruct (encode_approve ethers tok t v) as [d|e]; [|by left].
    right. right. left. eexists.
    exact (f_equal transactionList (perform_add _ tok (JNumber 0) d)).
  - right. right. right. rewrite perform_remove. eauto.
  - right. left. reflexivity.
  - cbn [Client.perform].
    destruct (executeBatchTransaction r) as [c r'] eqn:Hrun.
    destruct (executeBatchTransaction_anatomy r c r' Hrun)
      as (traffic & _ & Hends). cbn [snd].
    destruct Hends as [(_ & _ & ->)|[(e & _ & -> & _)|
                       [(e & _ & -> & _)|[(tx & e & _ & -> & _)|
                        (tx & _ & _ & -> & _)]]]]; auto.
  - left. cbn [Client.perform].
    by rewrite estimateGasForBatchTransaction_keeps_sdk.
Qed.

(** From a list without repeated triples every sequence of method calls
    leads to a list without repeated triples; the list of a new SDK
    object is empty. *)
Lemma session_keeps_triples_distinct ops : forall (r : Run Net),
  (forall e, occurrences e (transactionList (sdk r)) <= 1)%nat ->
  forall e, (occurrences e (transactionList (sdk (session ops r))) <= 1)%nat.
Proof.
  induction ops as [|op ops IH]; intros r Hr; [exact Hr|].
  change (session (op :: ops) r) with (session ops (perform op r)).
  apply IH. intros e.
  destruct (perform_transactionList r op)
    as [->|[->|[[tx ->]|[q ->]]]].
  - apply Hr.
  - cbn. lia.
  - by apply occurrences_added.
  - etransitivity; [apply occurrences_filter_le | apply Hr].
Qed.

Lemma add_then_list_keeps_approvals tok enc (r : Run Net) :
  approvals
    (bind (getContractInstance ethers tok)
       (fun tokenContract =>
          bind (pure_call (enc tokenContract))
               (fun data => addTransactionToList ethers tok (JNumber 0) data))
       r).2
  = approvals r.
Proof.
  unfold bind, getContractInstance, try_rethrow, bind, pure_call, ret.
  destruct (new_Contract ethers tok) as [[]|e]; [|reflexivity].
  destruct (enc tok) as [d|e]; [|reflexivity].
  unfold addTransactionToList, try_rethrow, bind, this_transactionList.
  by destruct (negb _).
Qed.

(** What one method call does to the accumulator. *)
Lemma perform_approvals (r : Run Net) op :
  approvals (perform op r)
  = match op with
    | AddERC20Transfer tok _ v | AddERC20Approve tok _ v =>
        if inherited tok then approvals r
        else <[tok := default 0 (approvals r !! tok) + v]> (approvals r)
    | _ => approvals r
    end.
Proof.
  destruct op as [| | | |a|t v d|tok t v|tok t v|t v d| | |];
    cbn [Client.perform]; try reflexivity.
  - unfold getContractInstance, try_rethrow, bind, pure_call.
    by destruct (new_Contract ethers a) as [[]|e].
  - exact (f_equal approvalTransactionsList (perform_add r t v d)).
  - unfold addERC20Transfer, try_rethrow. unfold bind at 1.
    unfold accumulate at 1, bind at 1, this_approvalTransactionsList at 1.
    destruct (inherited tok); [reflexivity|].
    unfold set_approvalTransactionsList at 1.
    rewrite add_then_list_keeps_approvals. cbn [sdk approvalTransactionsList].
    apply accumulate_insert.
  - unfold addERC20Approve, try_rethrow. unfold bind at 1.
    unfold accumulate at 1, bind at 1, this_approvalTransactionsList at 1.
    destruct (inherited tok); [reflexivity|].
    unfold set_approvalTransactionsList at 1.
    rewrite (add_then_list_keeps_approvals tok
               (fun c => encode_approve ethers c t v)).
    cbn [sdk approvalTransactionsList].
    apply accumulate_insert.
  - destruct (executeBatchTransaction r) as [c r'] eqn:Hrun.
    destruct (executeBatchTransaction_anatomy r c r' Hrun)
      as (traffic & _ & Hends). cbn [snd].
    destruct Hends as [(_ & _ & ->)|[(e & _ & -> & _)|
                       [(e & _ & -> & _)|[(tx & e & _ & -> & _)|
                        (tx & _ & _ & -> & _)]]]]; reflexivity.
  - by rewrite estimateGasForBatchTransaction_keeps_sdk.
Qed.

Lemma added_to_cons token op ops :
  added_to token (op :: ops)
  = match op with
    | AddERC20Transfer tok _ v | AddERC20Approve tok _ v =>
        if String.eqb tok token && negb (inherited tok)
        then v + added_to token ops
        else added_to token ops
    | _ => added_to token ops
    end.
Proof. reflexivity. Qed.

Lemma added_to_nonneg token ops :
  Forall (fun op => 0 <= amount_of op) ops -> 0 <= added_to token ops.
Proof.
  induction 1 as [|op ops Hop _ IH]; [cbn; lia|].
  rewrite added_to_cons.
  destruct op; cbn in Hop; try exact IH; destruct (_ && _); lia.
Qed.

(** C10, as the SDK has it: the accumulator of a token is what it was
    plus everything that [addERC20Transfer] and [addERC20Approve] have
    added for that token since, whatever other methods were called in
    between, successful [executeBatchTransaction]s and
    [clearTransactionList]s included.  One such call adds its amount,
    whatever its sign and whether or not the call then throws, and touches
    no other token; under a key that every JS object inherits it throws
    and counts nothing.  Every other method leaves the accumulator as it
    is and no entry ever disappears.  So with amounts that are not
    negative no entry ever gets smaller, and an amount below zero makes
    the entry of its token smaller by as much. *)
Theorem approval_accumulator_only_grows (ops : list Op) (r : Run Net) :
  let r' := session ops r in
  (forall op r0,
     approvals (perform op r0)
     = match op with
       | AddERC20Transfer tok _ v | AddERC20Approve tok _ v =>
           if inherited tok then approvals r0
           else <[tok := default 0 (approvals r0 !! tok) + v]> (approvals r0)
       | _ => approvals r0
       end)
  /\ (forall token,
        default 0 (approvals r' !! token)
        = default 0 (approvals r !! token) + added_to token ops)
  /\ (forall token,
        is_Some (approvals r !! token) -> is_Some (approvals r' !! token))
  /\ (Forall (fun op => 0 <= amount_of op) ops ->
      accumulator_never_decreases ethers ops r)
  /\ (forall token a,
        approvals r !! token = Some a ->
        added_to token ops < 0 ->
        exists a', approvals r' !! token = Some a' /\ a' < a).
Proof.
  cbn zeta.
  assert (Hsum : forall ops r token,
            default 0 (approvals (session ops r) !! token)
            = default 0 (approvals r !! token) + added_to token ops).
  { clear ops r. induction ops as [|op ops IH]; intros r token.
    - cbn. lia.
    - change (session (op :: ops) r) with (session ops (perform op r)).
      rewrite IH, perform_approvals, added_to_cons.
      destruct op; try lia.
      all: destruct (inherited tokenAddress);
        [rewrite andb_false_r; lia|rewrite andb_true_r].
      all: destruct (String.eqb_spec tokenAddress token) as [->|Hne];
        [rewrite lookup_insert_eq; cbn; lia
        |rewrite lookup_insert_ne by done; reflexivity]. }
  assert (Hkeep : forall ops r token,
            is_Some (approvals r !! token) ->
            is_Some (approvals (session ops r) !! token)).
  { clear ops r. induction ops as [|op ops IH]; intros r token Hsome.
    - exact Hsome.
    - change (session (op :: ops) r) with (session ops (perform op r)).
      apply IH. rewrite perform_approvals.
      destruct op; try exact Hsome.
      all: destruct (inherited tokenAddress); [exact Hsome|].
      all: rewrite lookup_insert; case_decide; [eauto | exact Hsome]. }
  split; [intros; apply perform_approvals|].
  split; [apply Hsum|]. split; [apply Hkeep|]. split.
  - intros Hpos token a Ha.
    destruct (Hkeep ops r token) as [a' Ha']; [eauto|].
    exists a'. split; [exact Ha'|].
    pose proof (Hsum ops r token) as Heq. rewrite Ha, Ha' in Heq.
    cbn in Heq.
    pose proof (added_to_nonneg token ops Hpos). lia.
  - intros token a Ha Hneg.
    destruct (Hkeep ops r token) as [a' Ha']; [eauto|].
    exists a'. split; [exact Ha'|].
    pose proof (Hsum ops r token) as Heq. rewrite Ha, Ha' in Heq.
    cbn in Heq. lia.
Qed.

End Methods.

Section Sessions.
Import Mempool.

(** The triple has been added once; two more adds and a remove later it is
    gone, so the list is not what it was before the two adds. *)
Lemma remove_takes_the_earlier_entry_too :
  ~ add_is_idempotent_and_remove_undoes_it lazy_ethers
      (perform lazy_ethers (AddTransactionToList "0xBob" (JNumber 5) "0x")
         fresh)
      "0xBob" (JNumber 5) "0x".
Proof. intros [_ Hlist]. vm_compute in Hlist. discriminate Hlist. Qed.

Lemma add_twice_then_remove_run :
  let r2 := perform lazy_ethers (AddTransactionToList "0xBob" (JNumber 5) "0x")
              (perform lazy_ethers
                 (AddTransactionToList "0xBob" (JNumber 5) "0x") fresh) in
  transactionList (sdk r2)
  = [ {| target := "0xBob"; value := JNumber 5; data := "0x" |} ]
  /\ transactionList
       (sdk (perform lazy_ethers
               (RemoveTransactionFromList "0xBob" (JNumber 5) "0x") r2))
     = [].
Proof.
  destruct (add_twice_then_remove lazy_ethers fresh "0xBob" (JNumber 5) "0x")
    as (_ & _ & Hnew & _).
  destruct Hnew as (H2 & _ & H3 & _); [reflexivity|].
  split; [exact H2 | apply H3; discriminate].
Defined.

(** The value [NaN] is added once, however often it is added, and never
    removed. *)
Lemma nan_is_added_once_and_never_removed :
  let r2 := perform lazy_ethers (AddTransactionToList "0xBob" JNaN "0x")
              (perform lazy_ethers
                 (AddTransactionToList "0xBob" JNaN "0x") fresh) in
  transactionList (sdk r2)
  = [ {| target := "0xBob"; value := JNaN; data := "0x" |} ]
  /\ transactionList
       (sdk (perform lazy_ethers
               (RemoveTransactionFromList "0xBob" JNaN "0x") r2))
     = [ {| target := "0xBob"; value := JNaN; data := "0x" |} ].
Proof. vm_compute. split; reflexivity. Qed.

(** C4 asks that every approval be mined, and visible on chain, before
    the batch is sent.  Here one token transfer of 10 is pending and the
    chain holds no allowance.  [executeBatchTransaction] asks for the
    allowance, sends the approval, and sends the batch right after: the
    only [wait] is the one for the batch.  On a network that mines a
    transaction when it is waited for, the batch goes out while the chain
    still shows no allowance for the token. *)
Theorem executeBatchTransaction_sends_batch_before_approval_is_mined :
  let r1 := perform lazy_ethers (AddERC20Transfer "0xToken" "0xBob" 10)
              fresh in
  let c := (executeBatchTransaction lazy_ethers r1).1 in
  let r' := (executeBatchTransaction lazy_ethers r1).2 in
  approvalTransactionsList (sdk r1) !! "0xToken" = Some 10
  /\ c = Normal 1%nat
  /\ rpc_log r'
     = [ CallAllowance "0xToken" (Normal 0);
         SendApprove "0xToken" 10 (Normal 0%nat);
         SendExecuteBatch ["0xToken"] ["transferFrom(0xSigner,0xBob,10)"]
           [JNumber 0] (Some 0) (Normal 1%nat);
         Wait 1%nat (Normal tt) ]
  /\ approvals_confirmed_before_batch [] (rpc_log r') = false
  /\ (fun seen : gmap string Z => seen !! "0xToken") <$> seen_by_batch (net r')
     = [None].
Proof. vm_compute. repeat split; reflexivity. Qed.

(** C10 says that no operation ever decreases an accumulated amount.
    Here 10 have been counted for a token; a transfer of -10 of that token
    is then refused by ethers, which takes no negative amount, and yet
    the entry is down to 0. *)
Lemma negative_amount_lowers_the_accumulator :
  ~ accumulator_never_decreases Picky.picky_ethers
      [AddERC20Transfer "0xToken" "0xBob" (-10)]
      (perform Picky.picky_ethers (AddERC20Transfer "0xToken" "0xBob" 10)
         fresh).
Proof.
  intros Hgrows. destruct (Hgrows "0xToken" 10 eq_refl) as (a' & Ha' & Hle).
  vm_compute in Ha'. injection Ha' as <-. lia.
Qed.

(** The transfer of -10 above does throw. *)
Lemma negative_amount_is_refused :
  (addERC20Transfer Picky.picky_ethers "0xToken" "0xBob" (-10)
     (perform Picky.picky_ethers (AddERC20Transfer "0xToken" "0xBob" 10)
        fresh)).1
  = Throw "value out-of-bounds".
Proof. reflexivity. Qed.

(** Two transfers of the same token around a first, successful
    [executeBatchTransaction]: the entry of the token is still there at
    the end and is not smaller than before. *)
Lemma approval_accumulator_only_grows_run :
  let r1 := perform lazy_ethers (AddERC20Transfer "0xToken" "0xBob" 10)
              fresh in
  let ops := [ ExecuteBatchTransaction;
               AddERC20Approve "0xToken" "0xCarol" 5;
               ClearTransactionList;
               AddERC20Transfer "0xToken" "0xCarol" 5;
               ExecuteBatchTransaction ] in
  exists a',
    approvalTransactionsList (sdk (session lazy_ethers ops r1)) !! "0xToken"
    = Some a'
    /\ 10 <= a'.
Proof.
  intros r1 ops.
  destruct (approval_accumulator_only_grows lazy_ethers ops r1)
    as (_ & _ & _ & Hgrow).
  apply Hgrow.
  - subst ops. repeat constructor; cbn; lia.
  - reflexivity.
Defined.

(** After a first batch that needed an allowance of 10 has gone through,
    a second batch with one more transfer of 5 asks for an allowance of
    20: the 10 of the first batch are still counted, and so are the 5 of
    the approve that was cleared from the list. *)
Lemma later_batch_asks_for_the_running_total :
  let r1 := perform lazy_ethers (AddERC20Transfer "0xToken" "0xBob" 10)
              fresh in
  let ops := [ ExecuteBatchTransaction;
               AddERC20Approve "0xToken" "0xCarol" 5;
               ClearTransactionList;
               AddERC20Transfer "0xToken" "0xCarol" 5 ] in
  let r2 := session lazy_ethers ops r1 in
  approvalTransactionsList (sdk r2) !! "0xToken" = Some 20
  /\ List.map data (transactionList (sdk r2))
     = ["transferFrom(0xSigner,0xCarol,5)"]
  /\ exists before,
       rpc_log (executeBatchTransaction lazy_ethers r2).2
       = before ++
         [ CallAllowance "0xToken" (Normal 10);
           SendApprove "0xToken" 20 (Normal 2%nat);
           SendExecuteBatch ["0xToken"] ["transferFrom(0xSigner,0xCarol,5)"]
             [JNumber 0] (Some 0) (Normal 3%nat);
           Wait 3%nat (Normal tt) ].
Proof.
  vm_compute. split; [reflexivity|]. split; [reflexivity|].
  eexists [_; _; _; _]. reflexivity.
Qed.


(** A batch that goes through empties the list; one whose confirmation
    fails leaves it as it was. *)
Lemma executeBatchTransaction_confirmed_run :
  let r1 := perform lazy_ethers
              (AddTransactionToList "0xBob" (JNumber 5) "0x") fresh in
  (executeBatchTransaction lazy_ethers r1).1 = Normal 0%nat
  /\ transactionList (sdk (executeBatchTransaction lazy_ethers r1).2) = [].
Proof. vm_compute. split; reflexivity. Qed.

Lemma executeBatchTransaction_unconfirmed_run :
  let r1 := perform reverting_ethers
              (AddTransactionToList "0xBob" (JNumber 5) "0x") fresh in
  (executeBatchTransaction reverting_ethers r1).1 = Throw "transaction failed"
  /\ transactionList (sdk (executeBatchTransaction reverting_ethers r1).2)
     = transactionList (sdk r1).
Proof. vm_compute. split; reflexivity. Qed.

End Sessions.
End ClientFacts.

(* ===================================================================== *)
(** * Part V: more about the executor                                     *)
(* ===================================================================== *)

Module ExecutorMore.
Import Executor Interface.
Open Scope N_scope.

Section Calls.

Variable this : address.
Variable code_at : address -> Code.
Variable accepts : World -> address -> address -> N -> bool.
Variable refusal : World -> address -> address -> N -> revert_reason.

Abbreviation run_subcalls := (run_subcalls this code_at).
Abbreviation executeBatch := (executeBatch this code_at accepts refusal).
Abbreviation withdraw := (withdraw this accepts refusal).
Abbreviation invoke := (Executor.invoke this).

(** What a committed call of [executeBatch] went through. *)
Lemma invoke_executeBatch_committed
    sender value targets data amount w success results f :
  invoke sender value (executeBatch sender value targets data amount) w
  = Committed (success, results) f ->
  let w1 := move sender this value w in
  let cs := subcalls targets data amount in
  length targets = length data /\ length targets = length amount
  /\ value <= balance w sender
  /\ exists w',
       run_subcalls w1 cs = AllSucceeded w' results
       /\ success = replicate (length targets) true
       /\ emitted f = operation_events cs results
       /\ calls f = cs
       /\ balance w1 this - value <= balance w' this
       /\ let d := balance w' this - (balance w1 this - value) in
          world f = (if 0 <? d then move this sender d w' else w')
          /\ (0 < d -> sender <> this /\ accepts w' this sender d = true).
Proof.
  intros Ho. cbn zeta.
  destruct (N.ltb_spec (balance w sender) value) as [Hlow|Hv].
  { rewrite ExecutorFacts.invoke_unfunded in Ho by assumption.
    discriminate Ho. }
  destruct (decide (length targets = length data
                    /\ length targets = length amount)) as [[Hd Ha]|Hbad].
  2:{ rewrite ExecutorFacts.invoke_executeBatch_malformed in Ho
        by assumption. discriminate Ho. }
  rewrite ExecutorFacts.invoke_executeBatch in Ho by assumption.
  cbn zeta in Ho.
  set (w1 := move sender this value w) in *.
  set (reference := balance w1 this - value) in *.
  destruct (run_subcalls _ _) as [w' rs|j dd]; [|discriminate Ho].
  destruct (N.ltb_spec (balance w' this) reference) as [|Hge];
    [discriminate Ho|].
  set (d := balance w' this - reference) in *.
  do 3 (split; [assumption|]). exists w'.
  destruct (N.ltb_spec 0 d) as [Hpos|Hzero]; cbn [andb] in Ho.
  - destruct (N.eqb_spec sender this) as [->|Hne]; cbn [negb andb] in Ho;
      [discriminate Ho|].
    destruct (accepts w' this sender d) eqn:Hacc; cbn [negb] in Ho;
      [|discriminate Ho].
    injection Ho as <- <- <-. cbn [world emitted calls]. fold d.
    apply N.ltb_lt in Hpos. rewrite Hpos. auto 10.
  - injection Ho as <- <- <-. cbn [world emitted calls]. fold d.
    pose proof Hzero as Hz. apply N.ltb_ge in Hz. rewrite Hz.
    do 6 (split; [done|]). intros; lia.
Qed.

(** What a call of [withdraw] does. *)
Lemma invoke_withdraw caller w :
  invoke caller 0 (withdraw caller) w =
  let w0 := move caller this 0 w in
  if 0 <? balance w this then
    if negb (caller =? this) && accepts w0 this caller (balance w this)
    then Committed tt {| world := move this caller (balance w this) w0;
                         emitted := []; calls := [] |}
    else Reverted (refused this refusal caller (balance w this) w0) []
  else Reverted NothingToWithdraw [].
Proof.
  cbn zeta. set (w0 := move caller this 0 w).
  assert (Hbal : balance w0 this = balance w this).
  { subst w0. unfold move. cbn [balance]. rewrite N.eqb_refl.
    destruct (this =? caller); lia. }
  unfold Executor.invoke. fold w0.
  destruct (N.ltb_spec (balance w caller) 0) as [|_]; [lia|].
  unfold Executor.withdraw. unfold bind at 1, self_balance at 1. cbn [world].
  rewrite Hbal. unfold bind at 1, require at 1.
  destruct (0 <? balance w this); [|reflexivity].
  unfold ret at 1. unfold transfer. cbn [world calls emitted].
  rewrite Hbal, N.ltb_irrefl. reflexivity.
Qed.

Lemma move_nothing from to w a : balance (move from to 0 w) a = balance w a.
Proof. unfold move. cbn. destruct (a =? from), (a =? to); lia. Qed.

(** ** What [executeBatch] guarantees when it returns *)

Lemma committed_balance
    sender value targets data amount w success results f :
  invoke sender value (executeBatch sender value targets data amount) w
  = Committed (success, results) f ->
  balance (world f) this = balance (move sender this value w) this - value
  /\ (sender <> this -> balance (world f) this = balance w this).
Proof.
  intros Ho.
  destruct (invoke_executeBatch_committed _ _ _ _ _ _ _ _ _ Ho)
    as (_ & _ & Hv & w' & _ & _ & _ & _ & Hge & Hw & Hpay).
  cbn zeta in Hw, Hpay.
  set (w1 := move sender this value w) in *.
  set (d := balance w' this - (balance w1 this - value)) in *.
  assert (Hfinal : balance (world f) this = balance w1 this - value).
  { rewrite Hw. destruct (N.ltb_spec 0 d) as [Hpos|Hzero].
    - destruct (Hpay Hpos) as [Hne _]. unfold move at 1. cbn [balance].
      rewrite N.eqb_refl. apply N.eqb_neq in Hne.
      rewrite (N.eqb_sym this sender), Hne. lia.
    - lia. }
  split; [exact Hfinal|]. intros Hne. rewrite Hfinal.
  subst w1. unfold move. cbn [balance]. rewrite N.eqb_refl.
  apply N.eqb_neq in Hne. rewrite (N.eqb_sym this sender), Hne. lia.
Qed.

(** A call of [executeBatch] that returns leaves the executor with the
    balance it had when the call came in, less the attached value: what
    the sub-calls did not take of that value went back to the caller, and
    nothing the executor held before was spent, whatever the callees did.
    For a caller other than the executor that is its balance before the
    call. *)
Theorem executeBatch_keeps_executor_balance
    sender value targets data amount w success results f :
  invoke sender value (executeBatch sender value targets data amount) w
  = Committed (success, results) f ->
  balance (world f) this = balance (move sender this value w) this - value
  /\ (sender <> this -> balance (world f) this = balance w this).
Proof. apply committed_balance. Qed.

(** [executeBatch] never returns a [false] flag: when it returns, the
    [success] array holds [true] once per input triple, [results] is as
    long, one event per sub-call has been emitted and every sub-call has
    been made, in input order. *)
Theorem executeBatch_returns_only_true
    sender value targets data amount w success results f :
  invoke sender value (executeBatch sender value targets data amount) w
  = Committed (success, results) f ->
  success = replicate (length targets) true
  /\ length results = length targets
  /\ emitted f = operation_events (subcalls targets data amount) results
  /\ length (emitted f) = length targets
  /\ calls f = subcalls targets data amount.
Proof.
  intros Ho.
  destruct (invoke_executeBatch_committed _ _ _ _ _ _ _ _ _ Ho)
    as (Hd & Ha & _ & w' & Hrun & Hs & He & Hc & _).
  apply ExecutorFacts.run_subcalls_length in Hrun.
  rewrite ExecutorFacts.length_subcalls in Hrun by assumption.
  split; [exact Hs|]. split; [exact Hrun|]. split; [exact He|].
  split; [|exact Hc].
  rewrite He. unfold operation_events.
  rewrite length_zip_with, ExecutorFacts.length_subcalls by assumption. lia.
Qed.

(** ** How [executeBatch] can fail *)

(** Whatever it is given, a call of [executeBatch] that fails does so with
    one of the three revert strings of the function, or, when every
    sub-call has succeeded and the balance check has passed, because the
    caller refused the refund: then with the revert data the caller gave,
    which is the string of the executor's own [receive] when the executor
    called itself.  A call whose sender cannot pay the attached value
    never reaches the function.  The function itself never panics: the
    checked subtraction [address(this).balance - msg.value] cannot
    underflow and no array is read out of range. *)
Theorem executeBatch_failures sender value targets data amount w :
  let w1 := move sender this value w in
  match invoke sender value
          (executeBatch sender value targets data amount) w with
  | Committed _ _ => True
  | Reverted reason _ =>
      reason = MalformedRequest \/ reason = SubcallFailed
      \/ reason = InsufficientFunds
      \/ (exists w' rs,
            run_subcalls w1 (subcalls targets data amount)
            = AllSucceeded w' rs
            /\ balance w1 this - value < balance w' this
            /\ (sender = this
                \/ accepts w' this sender
                     (balance w' this - (balance w1 this - value)) = false)
            /\ reason = refused this refusal sender
                          (balance w' this - (balance w1 this - value)) w')
      \/ (balance w sender < value /\ reason = Raw [])
  end.
Proof.
  cbn zeta.
  destruct (N.ltb_spec (balance w sender) value) as [Hlow|Hv].
  { rewrite ExecutorFacts.invoke_unfunded by assumption. auto 10. }
  destruct (decide (length targets = length data
                    /\ length targets = length amount)) as [[Hd Ha]|Hbad].
  2:{ rewrite ExecutorFacts.invoke_executeBatch_malformed by assumption.
      auto. }
  rewrite ExecutorFacts.invoke_executeBatch by assumption. cbn zeta.
  set (w1 := move sender this value w).
  destruct (run_subcalls w1 _) as [w' rs|j dd] eqn:Hrun; [|auto].
  destruct (N.ltb_spec (balance w' this) (balance w1 this - value))
    as [|Hge]; [auto|].
  set (d := balance w' this - (balance w1 this - value)).
  destruct (N.ltb_spec 0 d) as [Hpos|]; cbn [andb]; [|exact I].
  destruct (N.eqb_spec sender this) as [Hs|Hs]; cbn [negb andb].
  { do 3 right. left. exists w', rs. subst d.
    split; [reflexivity|]. split; [lia|]. split; [by left|reflexivity]. }
  destruct (accepts w' this sender d) eqn:Hacc; cbn [negb]; [exact I|].
  do 3 right. left. exists w', rs. subst d.
  split; [reflexivity|]. split; [lia|]. split; [by right|reflexivity].
Qed.

(** The sub-calls a call of [executeBatch] makes are the first few input
    triples, in input order: all of them when it returns, none when the
    request is malformed, and those up to the failing one when a sub-call
    fails.  No target is called twice for one triple, out of turn, or
    after a failure.  A failure with the string of a malformed request
    means that no call was made, unless every sub-call succeeded and it
    is the caller that refused the refund with that string. *)
Theorem executeBatch_calls_in_input_order
    sender value targets data amount w :
  let o := invoke sender value
             (executeBatch sender value targets data amount) w in
  let cs := subcalls targets data amount in
  exists k,
    calls_of o = take k cs
    /\ (k <= length cs)%nat
    /\ (forall r f, o = Committed r f -> k = length cs)
    /\ (~ (length targets = length data /\ length targets = length amount) ->
        k = 0%nat)
    /\ (forall made, o = Reverted MalformedRequest made ->
          k = 0%nat
          \/ (k = length cs
              /\ exists w' rs,
                   run_subcalls (move sender this value w) cs
                   = AllSucceeded w' rs))
    /\ (forall made i d,
          o = Reverted SubcallFailed made ->
          run_subcalls (move sender this value w) cs = FailedAt i d ->
          k = S i).
Proof.
  cbn zeta.
  destruct (N.ltb_spec (balance w sender) value) as [Hlow|Hv].
  { rewrite ExecutorFacts.invoke_unfunded by assumption.
    exists 0%nat. cbn. split; [reflexivity|]. split; [lia|].
    split; [discriminate|]. split; [reflexivity|]. split; [auto|].
    discriminate. }
  destruct (decide (length targets = length data
                    /\ length targets = length amount)) as [[Hd Ha]|Hbad].
  2:{ rewrite ExecutorFacts.invoke_executeBatch_malformed by assumption.
      exists 0%nat. cbn. split; [reflexivity|]. split; [lia|].
      split; [discriminate|]. split; [reflexivity|]. split; [auto|].
      discriminate. }
  rewrite ExecutorFacts.invoke_executeBatch by assumption. cbn zeta.
  set (cs := subcalls targets data amount).
  destruct (run_subcalls _ cs) as [w' rs|j dd] eqn:Hrun.
  - assert (Hall : forall (o : Outcome (list bool * list bytes)),
              calls_of o = cs ->
              exists k, calls_of o = take k cs /\ (k <= length cs)%nat
                /\ (forall r f, o = Committed r f -> k = length cs)
                /\ (~ (length targets = length data
                       /\ length targets = length amount) -> k = 0%nat)
                /\ (forall made, o = Reverted MalformedRequest made ->
                      k = 0%nat
                      \/ (k = length cs
                          /\ exists w'' rs',
                               AllSucceeded w' rs = AllSucceeded w'' rs'))
                /\ (forall made i d, o = Reverted SubcallFailed made ->
                      AllSucceeded w' rs = FailedAt i d -> k = S i)).
    { intros o Hc. exists (length cs). rewrite firstn_all.
      split; [exact Hc|]. split; [lia|]. split; [reflexivity|].
      split; [intros Hbad; by destruct Hbad|].
      split; [eauto|]. discriminate. }
    destruct (_ <? _); [by apply Hall|].
    destruct (_ && _); by apply Hall.
  - exists (S j). cbn. split; [reflexivity|].
    apply ExecutorFacts.run_subcalls_failed_lt in Hrun.
    split; [lia|]. split; [discriminate|].
    split; [intros Hbad; by destruct Hbad|].
    split; [discriminate|].
    intros made i d _ [= <- _]. reflexivity.
Qed.

(** ** The empty batch *)

Lemma move_there_and_back sender value w a :
  sender <> this -> value <= balance w sender ->
  balance (move this sender value (move sender this value w)) a = balance w a.
Proof.
  intros Hne Hv. unfold move. cbn [balance].
  repeat match goal with
         | |- context [?x =? ?y] => destruct (N.eqb_spec x y)
         end; subst; try congruence; lia.
Qed.

(** A batch without sub-calls is accepted.  It makes no call and emits
    nothing; the attached value, if any, goes straight back to the caller,
    so that every balance and all storage are what they were, provided
    the caller takes the transfer; if the caller does not, the call is
    rolled back with the revert data the caller gave, which is the string
    of the executor's own [receive] when the executor called itself. *)
Theorem executeBatch_empty sender value w :
  value <= balance w sender ->
  let o := invoke sender value (executeBatch sender value [] [] []) w in
  let w1 := move sender this value w in
  ((value = 0 \/ (sender <> this /\ accepts w1 this sender value = true)) ->
   exists f, o = Committed ([], []) f
     /\ (forall a, balance (world f) a = balance w a)
     /\ storage (world f) = storage w
     /\ emitted f = [] /\ calls f = [])
  /\ (0 < value ->
      sender = this \/ accepts w1 this sender value = false ->
      o = Reverted (refused this refusal sender value w1) []).
Proof.
  intros Hv. cbn zeta.
  rewrite ExecutorFacts.invoke_executeBatch by done. cbn zeta.
  cbn [subcalls zip_with Executor.run_subcalls length replicate
       operation_events].
  set (w1 := move sender this value w).
  pose proof (ExecutorFacts.entry_balance this sender value w Hv) as Hentry.
  fold w1 in Hentry.
  assert (Hd : balance w1 this - (balance w1 this - value) = value) by lia.
  rewrite Hd.
  destruct (N.ltb_spec (balance w1 this) (balance w1 this - value)) as [|_];
    [lia|].
  split.
  - intros [->|[Hne Hacc]].
    + cbn [N.ltb N.compare andb]. eexists. split; [reflexivity|].
      cbn [world emitted calls]. split; [|done].
      intros a. apply move_nothing.
    + rewrite Hacc. pose proof Hne as Hneb. apply N.eqb_neq in Hneb.
      rewrite Hneb. cbn [negb andb]. rewrite andb_false_r.
      eexists. split; [reflexivity|].
      cbn [world emitted calls]. split; [|by destruct (0 <? value)].
      intros a. destruct (N.ltb_spec 0 value) as [_|Hz].
      * by apply move_there_and_back.
      * assert (value = 0) as -> by lia. apply move_nothing.
  - intros Hpos Hrefuse.
    destruct (N.ltb_spec 0 value) as [_|]; [|lia].
    destruct Hrefuse as [->|Hrej].
    + by rewrite N.eqb_refl.
    + by rewrite Hrej, andb_false_r.
Qed.

(** ** Batches of plain payments *)

Lemma plain_payments_reach_their_targets cs : forall w w' rs,
  Forall (fun c => code_at (cr_target c) = externally_owned
                   /\ cr_target c <> this) cs ->
  run_subcalls w cs = AllSucceeded w' rs ->
  (forall a, a <> this -> balance w' a = balance w a + received a cs)
  /\ storage w' = storage w
  /\ rs = replicate (length cs) [].
Proof.
  induction cs as [|c cs IH]; intros w w' rs Hplain; cbn.
  - intros [= <- <-]. split; [intros; lia|done].
  - inversion Hplain as [|? ? [Hcode Hne] Hrest]; subst.
    unfold Executor.message_call. rewrite Hcode.
    destruct (N.ltb_spec (balance w this) (cr_value c)) as [|Hge];
      [discriminate|].
    unfold externally_owned.
    destruct (run_subcalls _ cs) as [w'' rs'|] eqn:Hrun; [|discriminate].
    intros [= <- <-]. apply IH in Hrun as (Hbal & Hsto & ->); [|assumption].
    split; [|split; [exact Hsto | reflexivity]].
    intros a Ha. rewrite (Hbal a Ha). unfold move. cbn [balance].
    apply N.eqb_neq in Ha. rewrite Ha.
    rewrite (N.eqb_sym (cr_target c) a). fold (received a cs).
    destruct (a =? cr_target c); lia.
Qed.

Lemma plain_subcalls targets data amount :
  Forall (fun t => code_at t = externally_owned /\ t <> this) targets ->
  Forall (fun c => code_at (cr_target c) = externally_owned
                   /\ cr_target c <> this) (subcalls targets data amount).
Proof.
  intros Hplain. apply Forall_forall. intros c Hc.
  apply list_elem_of_lookup in Hc as [j Hj].
  unfold subcalls in Hj. apply lookup_zip_with_Some in Hj
    as ([t d] & a & -> & Htd & _).
  apply lookup_zip_with_Some in Htd as (t' & d' & [= <- <-] & Ht & _).
  cbn. rewrite Forall_forall in Hplain. apply Hplain.
  apply list_elem_of_lookup. eauto.
Qed.

(** When a batch of payments to accounts without code returns, every
    account other than the caller and the executor holds what it held
    before plus the amounts of the triples that name it; no storage has
    changed and every return datum is empty. *)
Theorem plain_batch_pays_recipients
    sender value targets data amount w success results f :
  Forall (fun t => code_at t = externally_owned /\ t <> this) targets ->
  invoke sender value (executeBatch sender value targets data amount) w
  = Committed (success, results) f ->
  (forall a, a <> this -> a <> sender ->
     balance (world f) a
     = balance w a + received a (subcalls targets data amount))
  /\ storage (world f) = storage w
  /\ results = replicate (length targets) [].
Proof.
  intros Hplain Ho.
  destruct (invoke_executeBatch_committed _ _ _ _ _ _ _ _ _ Ho)
    as (Hd & Ha & Hv & w' & Hrun & _ & _ & _ & _ & Hw & _).
  cbn zeta in Hw.
  destruct (plain_payments_reach_their_targets _ _ _ _
              (plain_subcalls targets data amount Hplain) Hrun)
    as (Hbal & Hsto & ->).
  rewrite ExecutorFacts.length_subcalls by assumption.
  split; [|split; [|reflexivity]].
  - intros a Hat Has.
    assert (Hf : balance (world f) a = balance w' a).
    { rewrite Hw. destruct (0 <? _); [|reflexivity].
      unfold move. cbn [balance]. apply N.eqb_neq in Hat, Has.
      by rewrite Hat, Has. }
    rewrite Hf, (Hbal a Hat). f_equal.
    unfold move. cbn [balance]. apply N.eqb_neq in Hat, Has.
    by rewrite Hat, Has.
  - rewrite Hw. by destruct (0 <? _).
Qed.

Lemma plain_payments_succeed cs : forall w,
  Forall (fun c => code_at (cr_target c) = externally_owned
                   /\ cr_target c <> this) cs ->
  total (cr_value <$> cs) <= balance w this ->
  exists w', run_subcalls w cs = AllSucceeded w' (replicate (length cs) []).
Proof.
  induction cs as [|c cs IH]; intros w Hplain Hfunds; cbn; [eauto|].
  inversion Hplain as [|? ? [Hcode Hne] Hrest]; subst.
  cbn in Hfunds. fold (total (cr_value <$> cs)) in Hfunds.
  unfold Executor.message_call. rewrite Hcode.
  destruct (N.ltb_spec (balance w this) (cr_value c)) as [|Hge]; [lia|].
  unfold externally_owned.
  destruct (IH (move this (cr_target c) (cr_value c) w) Hrest) as [w' Hrun].
  - unfold move. cbn [balance]. rewrite N.eqb_refl.
    apply N.eqb_neq in Hne. rewrite N.eqb_sym in Hne. rewrite Hne. lia.
  - rewrite Hrun. eauto.
Qed.

(** A batch of payments to accounts without code goes through whenever
    the attached value covers the amounts and the caller takes back what
    is left of it.  Then the caller has paid exactly the sum of the
    amounts, every account has received the amounts of the triples that
    name it, the executor holds what it held and no storage has changed. *)
Theorem plain_batch_goes_through sender value targets data amount w :
  length targets = length data -> length targets = length amount ->
  Forall (fun t => code_at t = externally_owned /\ t <> this) targets ->
  total amount <= value -> value <= balance w sender -> sender <> this ->
  (total amount < value ->
   forall w', accepts w' this sender (value - total amount) = true) ->
  let cs := subcalls targets data amount in
  exists f,
    invoke sender value (executeBatch sender value targets data amount) w
    = Committed (replicate (length targets) true,
                 replicate (length targets) []) f
    /\ (forall a, a <> this ->
          balance (world f) a + (if a =? sender then total amount else 0)
          = balance w a + received a cs)
    /\ balance (world f) this = balance w this
    /\ storage (world f) = storage w
    /\ calls f = cs.
Proof.
  intros Hd Ha Hplain Htot Hv Hne Hacc. cbn zeta.
  set (cs := subcalls targets data amount).
  set (w1 := move sender this value w).
  pose proof (plain_subcalls targets data amount Hplain) as Hcs. fold cs in Hcs.
  pose proof (ExecutorFacts.total_subcalls targets data amount Hd Ha) as Htc.
  fold cs in Htc.
  pose proof Hne as Hneb. apply N.eqb_neq in Hneb.
  assert (Hneb' : (this =? sender) = false) by (by rewrite N.eqb_sym).
  assert (Hentry : balance w1 this = balance w this + value).
  { subst w1. unfold move. cbn [balance]. by rewrite N.eqb_refl, Hneb'. }
  destruct (plain_payments_succeed cs w1 Hcs) as [w' Hrun]; [lia|].
  pose proof (ExecutorFacts.plain_payments_cost_their_amounts
                this code_at cs w1 w' _ Hcs Hrun) as Hcost.
  destruct (plain_payments_reach_their_targets cs w1 w' _ Hcs Hrun)
    as (Hbal & Hsto & _).
  rewrite ExecutorFacts.invoke_executeBatch by assumption. cbn zeta.
  fold cs w1. rewrite Hrun.
  subst cs. rewrite ExecutorFacts.length_subcalls by assumption.
  set (cs := subcalls targets data amount) in *.
  assert (Hdiff : balance w' this - (balance w1 this - value)
                  = value - total amount) by lia.
  rewrite Hdiff.
  destruct (N.ltb_spec (balance w' this) (balance w1 this - value)) as [|_];
    [lia|].
  assert (Hw1 : forall a, a <> this ->
            balance w1 a = if a =? sender then balance w a - value
                           else balance w a).
  { intros a Hat. subst w1. unfold move. cbn [balance].
    apply N.eqb_neq in Hat. rewrite Hat. by destruct (a =? sender). }
  destruct (N.ltb_spec 0 (value - total amount)) as [Hpos|Hzero].
  - rewrite Hacc by lia. rewrite Hneb. cbn [negb andb].
    eexists. split; [reflexivity|]. cbn [world calls].
    split; [|split; [|split; [exact Hsto | reflexivity]]].
    + intros a Hat. unfold move at 1. cbn [balance].
      pose proof Hat as Hatb. apply N.eqb_neq in Hatb. rewrite Hatb.
      rewrite (Hbal a Hat), (Hw1 a Hat).
      destruct (N.eqb_spec a sender) as [->|_]; lia.
    + unfold move at 1. cbn [balance]. rewrite N.eqb_refl, Hneb'. lia.
  - cbn [andb]. eexists. split; [reflexivity|]. cbn [world calls].
    split; [|split; [lia|split; [exact Hsto | reflexivity]]].
    intros a Hat. rewrite (Hbal a Hat), (Hw1 a Hat).
    destruct (N.eqb_spec a sender) as [->|_]; lia.
Qed.

(** ** [withdraw], once and for all *)

(** After a [withdraw] that returned, the executor holds nothing: a second
    [withdraw], by whomever, fails with [NothingToWithdraw]. *)
Theorem withdraw_leaves_nothing caller w f :
  invoke caller 0 (withdraw caller) w = Committed tt f ->
  balance (world f) this = 0
  /\ forall caller',
       invoke caller' 0 (withdraw caller') (world f)
       = Reverted NothingToWithdraw [].
Proof.
  rewrite invoke_withdraw. cbn zeta.
  destruct (N.ltb_spec 0 (balance w this)) as [Hpos|]; [|discriminate].
  destruct (N.eqb_spec caller this) as [|Hne]; cbn [negb andb];
    [discriminate|].
  destruct (accepts _ this caller _); [|discriminate].
  intros [= <-]. cbn [world].
  assert (Hz : balance (move this caller (balance w this)
                          (move caller this 0 w)) this = 0).
  { unfold move at 1. cbn [balance]. rewrite N.eqb_refl.
    apply N.eqb_neq in Hne. rewrite (N.eqb_sym this caller), Hne.
    rewrite move_nothing. lia. }
  split; [exact Hz|]. intros caller'.
  rewrite invoke_withdraw. cbn zeta. by rewrite Hz.
Qed.

(** ** The executor never comes to hold more *)

Lemma enter_balance e sender value w :
  sender <> this ->
  balance (enter this code_at accepts refusal e sender value w) this
  <= balance w this.
Proof.
  intros Hne. destruct e as [targets data amount| | |calldata]; cbn [enter].
  - destruct (Executor.invoke _ _ _ _ w) as [[success results] f|] eqn:Ho;
      cbn [state_after]; [|lia].
    destruct (committed_balance _ _ _ _ _ _ _ _ _ Ho)
      as [_ Hkeep]. rewrite Hkeep by assumption. lia.
  - destruct (0 <? value); [lia|]. rewrite invoke_withdraw. cbn zeta.
    destruct (0 <? balance w this); cbn [state_after]; [|lia].
    destruct (_ && _); cbn [state_after world]; [|lia].
    unfold move at 1. cbn [balance]. rewrite N.eqb_refl.
    apply N.eqb_neq in Hne. rewrite (N.eqb_sym this sender), Hne.
    rewrite move_nothing. lia.
  - unfold Executor.invoke, receive, revert.
    destruct (_ <? _); cbn; lia.
  - unfold Executor.invoke, fallback, revert.
    destruct (_ <? _); cbn; lia.
Qed.

(** No call of the executor by another account leaves it with more than
    it held: [executeBatch] leaves it with the same, a [withdraw] that
    returns with nothing, and every call that fails, plain payments and
    unknown calldata among them, with the same.  So over any history of
    calls its balance never goes up, and an executor that holds nothing
    goes on holding nothing. *)
Theorem executor_balance_never_grows
    (calls : list (Entry * address * N)) (w : World) :
  Forall (fun c => c.1.2 <> this) calls ->
  balance (history this code_at accepts refusal calls w) this <= balance w this
  /\ (balance w this = 0 ->
      balance (history this code_at accepts refusal calls w) this = 0).
Proof.
  intros Hcalls.
  assert (Hle : balance (history this code_at accepts refusal calls w) this
                <= balance w this).
  { revert w. induction Hcalls as [|[[e sender] value] calls Hne _ IH];
      intros w; [cbn; lia|].
    change (history this code_at accepts refusal ((e, sender, value) :: calls) w)
      with (history this code_at accepts refusal calls
              (enter this code_at accepts refusal e sender value w)).
    etransitivity; [apply IH|]. by apply enter_balance. }
  split; [exact Hle|]. intros Hz. lia.
Qed.

End Calls.

(** ** Runs *)

Section Runs.
Import Scenario.

Abbreviation run_batch :=
  (fun sender value targets data amount w =>
     Executor.invoke executor sender value
       (Executor.executeBatch executor code_at accepts_all silent
          sender value targets data amount) w).

(** The executor holds 5 when alice attaches 10 and pays out 7: it holds
    5 afterwards. *)
Lemma executeBatch_keeps_executor_balance_run :
  exists f,
    run_batch alice 10 [bob; carol] [[]; []] [3; 4] (ledger 1000 0 5)
    = Committed ([true; true], [[]; []]) f
    /\ balance (world f) executor = 5.
Proof.
  eexists. split; [vm_compute; reflexivity|].
  refine (proj2 (executeBatch_keeps_executor_balance executor code_at
                   accepts_all silent alice 10 [bob; carol] [[]; []] [3; 4]
                   (ledger 1000 0 5) [true; true] [[]; []] _ eq_refl) _).
  discriminate.
Defined.

(** The same call returns two [true] flags, two results and two events. *)
Lemma executeBatch_returns_only_true_run :
  exists f,
    run_batch alice 10 [bob; carol] [[]; []] [3; 4] (ledger 1000 0 5)
    = Committed ([true; true], [[]; []]) f
    /\ length (emitted f) = 2%nat
    /\ calls f = subcalls [bob; carol] [[]; []] [3; 4].
Proof.
  eexists. split; [vm_compute; reflexivity|].
  destruct (executeBatch_returns_only_true executor code_at accepts_all silent
              alice 10 [bob; carol] [[]; []] [3; 4] (ledger 1000 0 5)
              [true; true] [[]; []] _ eq_refl) as (_ & _ & _ & He & Hc).
  split; [exact He | exact Hc].
Defined.

(** Alice attaches 10 to an empty batch and has her 1000 afterwards.  The
    vault attaches 10 and refuses to take them back: the call fails with
    what the vault said. *)
Lemma executeBatch_empty_run :
  (exists f,
     run_batch alice 10 [] [] [] (ledger 1000 0 0) = Committed ([], []) f
     /\ (forall a, balance (world f) a = balance (ledger 1000 0 0) a)
     /\ storage (world f) = storage (ledger 1000 0 0)
     /\ emitted f = [] /\ calls f = [])
  /\ Executor.invoke executor vault 10
       (Executor.executeBatch executor code_at accepts_but_vault complaining
          vault 10 [] [] []) (ledger 0 10 0)
     = Reverted (Error "No payments, thank you") [].
Proof.
  split.
  - apply (executeBatch_empty executor code_at accepts_all silent alice 10
             (ledger 1000 0 0)).
    + cbn. lia.
    + right. split; [discriminate | reflexivity].
  - apply (executeBatch_empty executor code_at accepts_but_vault complaining
             vault 10 (ledger 0 10 0)).
    + cbn. lia.
    + reflexivity.
    + by right.
Defined.

(** Alice pays bob 3, carol 4 and bob 2 more: bob ends with 5. *)
Lemma plain_batch_pays_recipients_run :
  exists f,
    run_batch alice 10 [bob; carol; bob] [[]; []; []] [3; 4; 2]
      (ledger 1000 0 0)
    = Committed ([true; true; true], [[]; []; []]) f
    /\ balance (world f) bob = 5
    /\ storage (world f) = storage (ledger 1000 0 0).
Proof.
  eexists. split; [vm_compute; reflexivity|].
  assert (Hplain : Forall (fun t => code_at t = externally_owned
                                   /\ t <> executor) [bob; carol; bob])
    by (repeat constructor; discriminate).
  destruct (plain_batch_pays_recipients executor code_at accepts_all silent
              alice 10 [bob; carol; bob] [[]; []; []] [3; 4; 2]
              (ledger 1000 0 0) [true; true; true] [[]; []; []] _
              Hplain eq_refl)
    as (Hbal & Hsto & _).
  split; [|exact Hsto].
  exact (Hbal bob ltac:(discriminate) ltac:(discriminate)).
Defined.

(** The same batch is known to go through before it is run: 10 covers
    the 9 it pays out, and alice ends 9 short. *)
Lemma plain_batch_goes_through_run :
  exists f,
    run_batch alice 10 [bob; carol; bob] [[]; []; []] [3; 4; 2]
      (ledger 1000 0 0)
    = Committed ([true; true; true], [[]; []; []]) f
    /\ balance (world f) alice + 9 = 1000
    /\ balance (world f) executor = 0.
Proof.
  destruct (plain_batch_goes_through executor code_at accepts_all silent
              alice 10 [bob; carol; bob] [[]; []; []] [3; 4; 2]
              (ledger 1000 0 0) eq_refl eq_refl)
    as (f & Ho & Hbal & Hex & _).
  - repeat constructor; discriminate.
  - cbn. lia.
  - cbn. lia.
  - discriminate.
  - reflexivity.
  - exists f. split; [exact Ho|]. split; [|exact Hex].
    apply (Hbal alice). discriminate.
Defined.

(** Bob takes the 5 the executor holds; carol, next, finds nothing. *)
Lemma withdraw_leaves_nothing_run :
  exists f,
    Executor.invoke executor bob 0
      (Executor.withdraw executor accepts_all silent bob) (ledger 1000 0 5)
    = Committed tt f
    /\ balance (world f) executor = 0
    /\ Executor.invoke executor carol 0
         (Executor.withdraw executor accepts_all silent carol) (world f)
       = Reverted NothingToWithdraw [].
Proof.
  eexists. split; [vm_compute; reflexivity|].
  destruct (withdraw_leaves_nothing executor accepts_all silent bob
              (ledger 1000 0 5) _ eq_refl) as [Hz Hnext].
  split; [exact Hz | exact (Hnext carol)].
Defined.

(** A plain payment, a batch, unknown calldata and a [withdraw] with value
    attached: the executor still holds its 5, no more. *)
Lemma executor_balance_never_grows_run :
  balance
    (history executor code_at accepts_all silent
       [ (EnterReceive, alice, 10);
         (EnterExecuteBatch [bob] [[]] [3], alice, 10);
         (EnterFallback [Byte.x01], carol, 0);
         (EnterWithdraw, alice, 1) ]
       (ledger 1000 0 5)) executor
  <= 5.
Proof.
  refine (proj1 (executor_balance_never_grows executor code_at accepts_all silent
                   [ (EnterReceive, alice, 10);
                     (EnterExecuteBatch [bob] [[]] [3], alice, 10);
                     (EnterFallback [Byte.x01], carol, 0);
                     (EnterWithdraw, alice, 1) ]
                   (ledger 1000 0 5) _)).
  repeat constructor; discriminate.
Defined.

End Runs.
End ExecutorMore.

(* ===================================================================== *)
(** * Part VI: the storage contract, proofs                               *)
(* ===================================================================== *)

Module SimpleStorageFacts.
Import Executor SimpleStorage.
Open Scope N_scope.

Lemma storage_sstore a slot v w a' s :
  storage (sstore a slot v w) a' s
  = if (a' =? a) && (s =? slot) then v else storage w a' s.
Proof. reflexivity. Qed.

Section Contract.

Variable this : address.
Variable accepts : World -> address -> address -> N -> bool.
Variable refusal : World -> address -> address -> N -> revert_reason.

Abbreviation owner := (owner this).
Abbreviation get := (get this).
Abbreviation call := (call this accepts refusal).
Abbreviation step := (step this accepts refusal).
Abbreviation run := (run this accepts refusal).

(** What a call that returns has done. *)
Lemma call_success sender value c w r w' logs :
  call sender value c w = Success r w' logs ->
  owner w' = owner w
  /\ match c with
     | CallSet x =>
         value = fee /\ logs = [DataStored x] /\ get w' = x
         /\ balance w' = balance (move sender this value w)
     | CallGet | CallFee =>
         value = 0 /\ logs = [] /\ w' = w
     | CallWithdraw =>
         value = 0 /\ logs = [] /\ get w' = get w /\ sender = owner w
         /\ balance w' this = 0
     end.
Proof.
  unfold SimpleStorage.call.
  destruct (balance w sender <? value); [discriminate|].
  destruct c as [x| | |].
  - unfold set. destruct (N.eqb_spec value fee) as [->|]; cbn [negb];
      [|discriminate].
    intros [= _ <- <-]. unfold SimpleStorage.owner, SimpleStorage.get,
      storedData. rewrite !storage_sstore, !N.eqb_refl. cbn. auto.
  - destruct (N.ltb_spec 0 value); [discriminate|].
    intros [= _ <- <-]. split; [reflexivity|]. split; [lia|]. auto.
  - destruct (N.ltb_spec 0 value); [discriminate|].
    unfold withdraw.
    destruct (N.eqb_spec sender (owner w)) as [Hs|]; cbn [negb];
      [|discriminate].
    destruct (0 <? balance w this); cbn [negb]; [|discriminate].
    destruct (N.eqb_spec (owner w) this) as [|Hne]; cbn [negb andb];
      [discriminate|].
    destruct (accepts w this (owner w) _); [|discriminate].
    intros [= _ <- <-]. split; [reflexivity|]. split; [lia|].
    split; [reflexivity|]. split; [reflexivity|]. split; [exact Hs|].
    unfold move. cbn [balance]. rewrite N.eqb_refl.
    apply N.eqb_neq in Hne. rewrite (N.eqb_sym this (owner w)), Hne. lia.
  - destruct (N.ltb_spec 0 value); [discriminate|].
    intros [= _ <- <-]. split; [reflexivity|]. split; [lia|]. auto.
Qed.

Lemma foldl_step_invariant (P : World * list Log -> Prop) calls :
  (forall st c, P st -> P (step st c)) ->
  forall st, P st -> P (foldl step st calls).
Proof.
  intros Hstep. induction calls as [|c calls IH]; intros st Hst; cbn;
    [exact Hst|]. apply IH, Hstep, Hst.
Qed.

(** ** The owner *)

(** Whatever is called, by whomever and with whatever value, the owner
    stays the one the constructor wrote. *)
Theorem owner_never_changes calls deployer w0 :
  let w := constructor this deployer w0 in
  owner w = deployer /\ owner (run calls w).1 = deployer.
Proof.
  cbn zeta.
  assert (Hdep : owner (constructor this deployer w0) = deployer).
  { unfold SimpleStorage.owner, constructor.
    by rewrite storage_sstore, !N.eqb_refl. }
  split; [exact Hdep|].
  apply (foldl_step_invariant (fun st => owner st.1 = deployer));
    [|exact Hdep].
  intros st [[sender value] c] Hst. unfold SimpleStorage.step. cbn [fst snd].
  destruct (call sender value c st.1) as [r w' logs|] eqn:Hcall;
    [|exact Hst].
  apply call_success in Hcall as [Ho _]. cbn. congruence.
Qed.

(** ** The stored value and the event log *)

(** After any history of calls, [get] returns the number of the last
    [DataStored] event of that history, or what it returned before if the
    history has none: every change of the stored value is logged, the
    last write wins, and nothing but a paid [set] writes. *)
Theorem stored_value_is_last_logged calls w :
  get (run calls w).1
  = default (get w) (last_stored (run calls w).2).
Proof.
  apply (foldl_step_invariant
           (fun st => get st.1 = default (get w) (last_stored st.2)));
    [|reflexivity].
  intros st [[sender value] c] Hst. unfold SimpleStorage.step. cbn [fst snd].
  destruct (call sender value c st.1) as [r w' logs|] eqn:Hcall;
    [|exact Hst].
  apply call_success in Hcall as [_ Hc]. cbn [fst snd].
  destruct c as [x| | |].
  - destruct Hc as (_ & -> & Hget & _). rewrite Hget.
    unfold last_stored. by rewrite last_snoc.
  - destruct Hc as (_ & -> & ->). by rewrite app_nil_r.
  - destruct Hc as (_ & -> & Hget & _). by rewrite app_nil_r, Hget.
  - destruct Hc as (_ & -> & ->). by rewrite app_nil_r.
Qed.

(** ** The fees *)

(** As long as nobody withdraws, the contract's balance grows by exactly
    one fee per [DataStored] event: a [set] that pays anything but the fee
    is refused, and no other function takes value. *)
Theorem fees_add_up calls w :
  Forall (fun c => c.2 <> CallWithdraw /\ c.1.1 <> this) calls ->
  balance (run calls w).1 this
  = balance w this + fee * N.of_nat (length (run calls w).2).
Proof.
  intros Hcalls. unfold SimpleStorage.run.
  assert (Hgen : forall st,
            balance st.1 this = balance w this + fee * N.of_nat (length st.2) ->
            balance (foldl step st calls).1 this
            = balance w this
              + fee * N.of_nat (length (foldl step st calls).2)).
  { induction Hcalls as [|[[sender value] c] calls [Hnw Hne] _ IH];
      intros st Hst; [exact Hst|].
    cbn [foldl]. apply IH. unfold SimpleStorage.step. cbn [fst snd] in *.
    destruct (call sender value c st.1) as [r w' logs|] eqn:Hcall;
      [|exact Hst].
    pose proof Hcall as Hfunded. unfold SimpleStorage.call in Hfunded.
    destruct (N.ltb_spec (balance st.1 sender) value) as [|Hv];
      [discriminate|]. clear Hfunded.
    apply call_success in Hcall as [_ Hc]. cbn [fst snd].
    destruct c as [x| | |]; [| |congruence|].
    - destruct Hc as (-> & -> & _ & Hbal). rewrite Hbal, length_app.
      unfold move. cbn [balance length]. rewrite N.eqb_refl.
      apply N.eqb_neq in Hne. rewrite (N.eqb_sym this sender), Hne. lia.
    - destruct Hc as (_ & -> & ->). by rewrite app_nil_r.
    - destruct Hc as (_ & -> & ->). by rewrite app_nil_r. }
  apply Hgen. cbn. lia.
Qed.

(** ** Who can take the fees out *)

(** No history of calls made by accounts other than the owner lowers the
    contract's balance: their [withdraw] fails with "Only owner can
    withdraw", and nothing else pays out. *)
Theorem only_owner_takes_funds calls w :
  Forall (fun c => c.1.1 <> owner w) calls ->
  balance w this <= balance (run calls w).1 this
  /\ (forall sender value,
        sender <> owner w -> value <= balance w sender ->
        call sender value CallWithdraw w
        = Failure (if 0 <? value then Raw []
                   else Error "Only owner can withdraw")).
Proof.
  intros Hcalls. split.
  - unfold SimpleStorage.run.
    assert (Hgen : forall st,
              owner st.1 = owner w -> balance w this <= balance st.1 this ->
              balance w this <= balance (foldl step st calls).1 this).
    { induction Hcalls as [|[[sender value] c] calls Hne _ IH];
        intros st Hown Hst; [exact Hst|].
      cbn [foldl]. unfold SimpleStorage.step at 2. cbn [fst snd] in *.
      destruct (call sender value c st.1) as [r w' logs|] eqn:Hcall;
        [|by apply IH].
      pose proof Hcall as Hfunded. unfold SimpleStorage.call in Hfunded.
      destruct (N.ltb_spec (balance st.1 sender) value) as [|Hv];
        [discriminate|]. clear Hfunded.
      apply call_success in Hcall as [Ho Hc]. apply IH; cbn [fst snd];
        [congruence|].
      destruct c as [x| | |].
      - destruct Hc as (_ & _ & _ & Hbal). rewrite Hbal.
        unfold move. cbn [balance]. rewrite N.eqb_refl.
        destruct (this =? sender); lia.
      - by destruct Hc as (_ & _ & ->).
      - destruct Hc as (_ & _ & _ & Hs & _). congruence.
      - by destruct Hc as (_ & _ & ->). }
    by apply Hgen.
  - intros sender value Hne Hv. unfold SimpleStorage.call.
    destruct (N.ltb_spec (balance w sender) value) as [|_]; [lia|].
    destruct (0 <? value); [reflexivity|].
    unfold withdraw. apply N.eqb_neq in Hne. by rewrite Hne.
Qed.

(** The owner's [withdraw] pays out everything the contract holds, to the
    owner, and leaves the stored value alone; after it a second
    [withdraw] fails with "No funds to withdraw". *)
Theorem owner_withdraws_everything w :
  0 < balance w this -> owner w <> this ->
  accepts w this (owner w) (balance w this) = true ->
  exists w',
    call (owner w) 0 CallWithdraw w = Success None w' []
    /\ balance w' this = 0
    /\ balance w' (owner w) = balance w (owner w) + balance w this
    /\ get w' = get w /\ owner w' = owner w
    /\ call (owner w) 0 CallWithdraw w'
       = Failure (Error "No funds to withdraw").
Proof.
  intros Hpos Hne Hacc.
  assert (Hcall : call (owner w) 0 CallWithdraw w
                  = Success None (move this (owner w) (balance w this) w) []).
  { unfold SimpleStorage.call.
    destruct (N.ltb_spec (balance w (owner w)) 0) as [|_]; [lia|].
    cbn [N.ltb N.compare]. unfold withdraw.
    rewrite N.eqb_refl. cbn [negb].
    destruct (N.ltb_spec 0 (balance w this)) as [_|]; [|lia]. cbn [negb].
    rewrite Hacc. apply N.eqb_neq in Hne. by rewrite Hne. }
  eexists. split; [exact Hcall|].
  apply N.eqb_neq in Hne.
  assert (Hne' : (this =? owner w) = false) by (by rewrite N.eqb_sym).
  assert (Hz : balance (move this (owner w) (balance w this) w) this = 0).
  { unfold move. cbn [balance]. rewrite N.eqb_refl, Hne'. lia. }
  split; [exact Hz|]. split.
  { unfold move. cbn [balance]. rewrite N.eqb_refl, Hne. lia. }
  split; [reflexivity|]. split; [reflexivity|].
  unfold SimpleStorage.call.
  destruct (N.ltb_spec (balance (move this (owner w) (balance w this) w)
                          (owner w)) 0) as [|_]; [lia|].
  cbn [N.ltb N.compare]. unfold withdraw.
  change (SimpleStorage.owner this (move this (owner w) (balance w this) w))
    with (owner w).
  rewrite N.eqb_refl, Hz. reflexivity.
Qed.

End Contract.

(** ** The storage contract called through the executor *)

Section Batch.

Variable executor : address.
Variable code_at : address -> Code.
Variable accepts : World -> address -> address -> N -> bool.
Variable refusal : World -> address -> address -> N -> revert_reason.
Variable store : address.
Variable accepts_store : World -> address -> address -> N -> bool.
Variable refusal_store : World -> address -> address -> N -> revert_reason.
Variable decode : bytes -> option Call.
Variable encode_uint : N -> bytes.
Variable encode_error : revert_reason -> bytes.

Hypothesis store_code :
  code_at store = code store accepts_store refusal_store decode encode_uint encode_error.
Hypothesis store_is_not_executor : store <> executor.

Lemma after_sets_cons x xs w :
  after_sets executor store (x :: xs) w
  = after_sets executor store xs
      (sstore store storedData_slot x (move executor store fee w)).
Proof. reflexivity. Qed.

Lemma after_sets_balance xs : forall w a,
  N.of_nat (length xs) * fee <= balance w executor ->
  balance (after_sets executor store xs w) a
  = if a =? executor then balance w a - N.of_nat (length xs) * fee
    else if a =? store then balance w a + N.of_nat (length xs) * fee
    else balance w a.
Proof.
  induction xs as [|x xs IH]; intros w a Hv.
  - cbn. destruct (a =? executor), (a =? store); lia.
  - rewrite after_sets_cons. cbn [length] in *. rewrite IH.
    + unfold sstore, move. cbn [balance].
      pose proof store_is_not_executor as Hne.
      destruct (N.eqb_spec a executor) as [->|Hae].
      * destruct (N.eqb_spec executor store) as [Heq|_]; [congruence|]. lia.
      * destruct (N.eqb_spec a store); lia.
    + unfold sstore, move. cbn [balance]. rewrite N.eqb_refl.
      destruct (N.eqb_spec executor store) as [Heq|_];
        [by destruct store_is_not_executor|]. lia.
Qed.

Lemma after_sets_storage xs : forall w,
  storage (after_sets executor store xs w) store owner_slot
  = storage w store owner_slot
  /\ storage (after_sets executor store xs w) store storedData_slot
     = default (storage w store storedData_slot) (last xs).
Proof.
  induction xs as [|x xs IH]; intros w; [done|].
  rewrite after_sets_cons.
  destruct (IH (sstore store storedData_slot x (move executor store fee w)))
    as [Ho Hs].
  rewrite Ho, Hs, !storage_sstore, !N.eqb_refl. cbn.
  split; [reflexivity|]. rewrite last_cons. by destruct (last xs).
Qed.

Lemma run_sets ds xs :
  Forall2 (fun d x => decode d = Some (CallSet x)) ds xs ->
  forall w,
    N.of_nat (length xs) * fee <= balance w executor ->
    run_subcalls executor code_at w
      (subcalls (replicate (length xs) store) ds
         (replicate (length xs) fee))
    = AllSucceeded (after_sets executor store xs w)
        (replicate (length xs) []).
Proof.
  induction 1 as [|d x ds xs Hd _ IH]; intros w Hv; [reflexivity|].
  cbn [length replicate] in *.
  change (subcalls (store :: replicate (length xs) store) (d :: ds)
            (fee :: replicate (length xs) fee))
    with ({| cr_target := store; cr_value := fee; cr_data := d |}
          :: subcalls (replicate (length xs) store) ds
               (replicate (length xs) fee)).
  cbn [run_subcalls cr_target cr_value cr_data].
  unfold message_call.
  destruct (N.ltb_spec (balance w executor) fee) as [|_]; [lia|].
  rewrite store_code. unfold code. rewrite Hd. unfold set.
  rewrite N.eqb_refl. cbn [negb].
  rewrite IH; [by rewrite after_sets_cons|].
  unfold sstore, move. cbn [balance]. rewrite N.eqb_refl.
  destruct (N.eqb_spec executor store) as [Heq|_];
    [by destruct store_is_not_executor|]. lia.
Qed.

(** A batch of [set] calls, each with the fee, sent with exactly the sum
    of the fees attached: it returns, the storage contract holds the last
    value of the batch and has gained one fee per call, its owner is who
    it was, the caller has paid exactly the fees and the executor holds
    what it held. *)
Theorem batch_of_sets sender ds xs w :
  Forall2 (fun d x => decode d = Some (CallSet x)) ds xs ->
  sender <> executor -> sender <> store ->
  let n := length xs in
  let value := N.of_nat n * fee in
  value <= balance w sender ->
  exists f,
    invoke executor sender value
      (executeBatch executor code_at accepts refusal sender value
         (replicate n store) ds (replicate n fee)) w
    = Committed (replicate n true, replicate n []) f
    /\ get store (world f) = default (get store w) (last xs)
    /\ owner store (world f) = owner store w
    /\ balance (world f) store = balance w store + value
    /\ balance (world f) sender = balance w sender - value
    /\ balance (world f) executor = balance w executor.
Proof.
  intros Hds Hse Hss n value Hv.
  pose proof (Forall2_length _ _ _ Hds) as Hlen.
  assert (Hentry : balance (move sender executor value w) executor
                   = balance w executor + value).
  { unfold move. cbn [balance]. rewrite N.eqb_refl.
    apply N.eqb_neq in Hse. rewrite (N.eqb_sym executor sender), Hse. lia. }
  rewrite ExecutorFacts.invoke_executeBatch;
    [|by rewrite length_replicate|by rewrite !length_replicate|exact Hv].
  cbn zeta. rewrite length_replicate. fold n.
  rewrite (run_sets ds xs Hds) by (fold n value; lia).
  pose proof (after_sets_balance xs (move sender executor value w)) as Hbal.
  fold n value in Hbal.
  rewrite (Hbal executor), N.eqb_refl by lia.
  destruct (N.ltb_spec (balance (move sender executor value w) executor - value)
              (balance (move sender executor value w) executor - value))
    as [|_]; [lia|].
  rewrite N.sub_diag. cbn [N.ltb N.compare andb].
  eexists. split; [reflexivity|]. cbn [world].
  destruct (after_sets_storage xs (move sender executor value w)) as [Ho Hs].
  split; [exact Hs|]. split; [exact Ho|].
  pose proof store_is_not_executor as Hne.
  rewrite !Hbal by lia. unfold move. cbn [balance].
  repeat match goal with
         | |- context [?x =? ?y] => destruct (N.eqb_spec x y)
         end; subst; try congruence; repeat split; lia.
Qed.

End Batch.

(** ** Runs *)

Section Runs.
Import Scenario StorageScenario.

Abbreviation run_store := (SimpleStorage.run store accepts_all silent).
Abbreviation call_store := (SimpleStorage.call store accepts_all silent).

(** Three paid [set]s, one [set] that pays too little and a [get]: the
    contract holds three fees. *)
Lemma fees_add_up_run :
  balance
    (run_store [ (alice, fee, CallSet 42); (alice, 5, CallSet 7);
                 (carol, 0, CallGet); (alice, fee, CallSet 84);
                 (alice, fee, CallSet 126) ] deployed).1 store
  = 3 * fee.
Proof.
  exact (fees_add_up store accepts_all silent
           [ (alice, fee, CallSet 42); (alice, 5, CallSet 7);
             (carol, 0, CallGet); (alice, fee, CallSet 84);
             (alice, fee, CallSet 126) ] deployed
           ltac:(repeat constructor; discriminate)).
Defined.

(** Alice pays a fee; neither she nor carol can take it out again. *)
Lemma only_owner_takes_funds_run :
  let w := (run_store [(alice, fee, CallSet 42)] deployed).1 in
  balance w store
  <= balance (run_store [ (alice, 0, CallWithdraw); (carol, 0, CallWithdraw);
                          (alice, fee, CallSet 1) ] w).1 store
  /\ call_store alice 0 CallWithdraw w
     = Failure (Error "Only owner can withdraw").
Proof.
  intros w.
  destruct (only_owner_takes_funds store accepts_all silent
              [ (alice, 0, CallWithdraw); (carol, 0, CallWithdraw);
                (alice, fee, CallSet 1) ] w
              ltac:(repeat constructor; discriminate)) as [Hkeep Hfail].
  split; [exact Hkeep|].
  apply (Hfail alice 0); [discriminate | cbn; lia].
Defined.

(** Bob, who deployed the contract, takes out the fee alice paid. *)
Lemma owner_withdraws_everything_run :
  let w := (run_store [(alice, fee, CallSet 42)] deployed).1 in
  exists w',
    call_store bob 0 CallWithdraw w = Success None w' []
    /\ balance w' store = 0
    /\ balance w' bob = fee
    /\ SimpleStorage.get store w' = 42
    /\ call_store bob 0 CallWithdraw w'
       = Failure (Error "No funds to withdraw").
Proof.
  intros w.
  destruct (owner_withdraws_everything store accepts_all silent w)
    as (w' & Hcall & Hz & Hbob & Hget & _ & Hagain).
  - reflexivity.
  - discriminate.
  - reflexivity.
  - exists w'. split; [exact Hcall|]. split; [exact Hz|].
    split; [exact Hbob|]. split; [exact Hget | exact Hagain].
Defined.

(** The batch of the SDK's test: [set(42)], [set(84)] and [set(126)],
    each with its fee; [get] then returns 126. *)
Lemma batch_of_sets_run :
  exists f,
    Executor.invoke executor alice (3 * fee)
      (executeBatch executor StorageScenario.code_at accepts_all silent alice
         (3 * fee) [store; store; store]
         [[Byte.x2a]; [Byte.x54]; [Byte.x7e]] [fee; fee; fee]) deployed
    = Committed ([true; true; true], [[]; []; []]) f
    /\ SimpleStorage.get store (world f) = 126
    /\ SimpleStorage.owner store (world f) = bob
    /\ balance (world f) store = 3 * fee
    /\ balance (world f) executor = 0.
Proof.
  destruct (batch_of_sets executor StorageScenario.code_at accepts_all silent
              store accepts_all silent decode (fun _ => []) (fun _ => [])
              eq_refl ltac:(discriminate)
              alice [[Byte.x2a]; [Byte.x54]; [Byte.x7e]] [42; 84; 126]
              deployed)
    as (f & Ho & Hget & Hown & Hstore & _ & Hex).
  - repeat constructor.
  - discriminate.
  - discriminate.
  - vm_compute. discriminate.
  - exists f. split; [exact Ho|]. split; [exact Hget|].
    split; [exact Hown|]. split; [exact Hstore | exact Hex].
Defined.

End Runs.
End SimpleStorageFacts.

(* ===================================================================== *)
(** * Part VII: more about the client SDK                                 *)
(* ===================================================================== *)

Module ClientMore.
Import Client.
Open Scope Z_scope.

Section Methods.

Context {Net : Type}.
Variable ethers : Ethers Net.

Abbreviation JSON_stringify := (JSON_stringify ethers).
Abbreviation occurrences := (occurrences ethers).
Abbreviation perform := (perform ethers).
Abbreviation added := (added ethers).
Abbreviation approvals r := (approvalTransactionsList (sdk r)).

Lemma run_eta (r : Run Net) :
  {| sdk := sdk r; net := net r; rpc_log := rpc_log r |} = r.
Proof. by destruct r. Qed.

Lemma addTransactionToList_run (r : Run Net) t v d :
  addTransactionToList ethers t v d r
  = (Normal tt,
     {| sdk := {| approvalTransactionsList := approvals r;
                  transactionList :=
                    added {| target := t; value := v; data := d |}
                          (transactionList (sdk r)) |};
        net := net r; rpc_log := rpc_log r |}).
Proof.
  unfold addTransactionToList, try_rethrow, bind, this_transactionList,
    Client.added.
  destruct (existsb _ _); cbn; [|reflexivity].
  destruct r as [[m l] n lg]. reflexivity.
Qed.

(** ** Adding *)

(** [addTransactionToList] is idempotent: called a second time with the
    same triple it changes nothing at all, and it never touches the
    accumulator, the network or the entries already in the list, which
    keep their places at the front. *)
Theorem addTransactionToList_idempotent (r : Run Net) t v d :
  let r1 := perform (AddTransactionToList t v d) r in
  perform (AddTransactionToList t v d) r1 = r1
  /\ approvals r1 = approvals r
  /\ net r1 = net r /\ rpc_log r1 = rpc_log r
  /\ exists tail, transactionList (sdk r1) = transactionList (sdk r) ++ tail.
Proof.
  cbn zeta. cbn [Client.perform]. rewrite !addTransactionToList_run.
  cbn [snd sdk net rpc_log approvalTransactionsList transactionList].
  split.
  - f_equal. f_equal.
    set (tx := {| target := t; value := v; data := d |}).
    set (l := transactionList (sdk r)).
    unfold Client.added at 2.
    destruct (existsb _ l) eqn:Hex.
    + unfold Client.added. by rewrite Hex.
    + unfold Client.added. rewrite existsb_app, Hex. cbn.
      by rewrite bool_decide_eq_true_2.
  - do 3 (split; [reflexivity|]). unfold Client.added.
    destruct (existsb _ _); [exists []; by rewrite app_nil_r | eauto].
Qed.

(** ** Removing *)

(** [removeTransactionFromList] takes out every entry whose three fields
    are [===] to its arguments, not only the first; the other entries stay,
    in their order; and a second call with the same arguments finds
    nothing left to remove. *)
Theorem removeTransactionFromList_removes_every_match (r : Run Net) t v d :
  let is_match := fun tx => String.eqb (target tx) t
                            && strict_eq (value tx) v
                            && String.eqb (data tx) d in
  let r1 := perform (RemoveTransactionFromList t v d) r in
  (forall tx, In tx (transactionList (sdk r1))
              <-> In tx (transactionList (sdk r)) /\ is_match tx = false)
  /\ sublist (transactionList (sdk r1)) (transactionList (sdk r))
  /\ perform (RemoveTransactionFromList t v d) r1 = r1
  /\ approvals r1 = approvals r.
Proof.
  cbn zeta.
  set (keep := fun tx => negb (String.eqb (target tx) t
                               && strict_eq (value tx) v
                               && String.eqb (data tx) d)).
  assert (Hl : transactionList (sdk (perform (RemoveTransactionFromList t v d) r))
               = List.filter keep (transactionList (sdk r))) by reflexivity.
  split; [|split; [|split; [|reflexivity]]].
  - intros tx. rewrite Hl, filter_In. subst keep. cbn.
    by rewrite negb_true_iff.
  - rewrite Hl. generalize (transactionList (sdk r)) as l.
    induction l as [|e l IH]; cbn; [constructor|].
    destruct (keep e); by constructor.
  - cbn [Client.perform]. unfold removeTransactionFromList, try_rethrow, bind,
      this_transactionList, set_transactionList.
    cbn [snd sdk net rpc_log approvalTransactionsList transactionList].
    fold keep. f_equal. f_equal.
    generalize (transactionList (sdk r)) as l.
    induction l as [|e l IH]; cbn; [reflexivity|].
    destruct (keep e) eqn:He; cbn; [rewrite He; by f_equal | exact IH].
Qed.

(** An entry whose value is a [BigNumber] can only be removed with the
    very object it was added with.  Added once more with another object
    that holds the same number it counts as a duplicate and is left out,
    yet [removeTransactionFromList] called with that other object removes
    nothing: the entry is still in the list. *)
Theorem remove_needs_the_object_that_was_added
    (r : Run Net) t (ref ref' : nat) d :
  ref <> ref' ->
  BigNumber_at ethers ref = BigNumber_at ethers ref' ->
  let tx := {| target := t; value := JBigNumber ref; data := d |} in
  let l := transactionList (sdk r) in
  occurrences tx l = 0%nat ->
  let r1 := perform (AddTransactionToList t (JBigNumber ref) d) r in
  let r2 := perform (AddTransactionToList t (JBigNumber ref') d) r1 in
  let r3 := perform (RemoveTransactionFromList t (JBigNumber ref') d) r2 in
  transactionList (sdk r1) = l ++ [tx]
  /\ r2 = r1
  /\ transactionList (sdk r3) = l ++ [tx].
Proof.
  intros Hne Hsame tx l Hocc. cbn zeta.
  set (tx' := {| target := t; value := JBigNumber ref'; data := d |}).
  assert (Hprint : JSON_stringify tx' = JSON_stringify tx).
  { unfold Client.JSON_stringify. cbn. by rewrite Hsame. }
  assert (Hnone : existsb (fun e => bool_decide (JSON_stringify e
                                                  = JSON_stringify tx)) l
                  = false).
  { rewrite ClientFacts.existsb_filter. fold (occurrences tx l).
    by rewrite Hocc. }
  assert (H1 : transactionList
                 (sdk (perform (AddTransactionToList t (JBigNumber ref) d) r))
               = l ++ [tx]).
  { cbn [Client.perform]. rewrite addTransactionToList_run. cbn.
    unfold Client.added. fold tx l. by rewrite Hnone. }
  assert (H2 : perform (AddTransactionToList t (JBigNumber ref') d)
                 (perform (AddTransactionToList t (JBigNumber ref) d) r)
               = perform (AddTransactionToList t (JBigNumber ref) d) r).
  { cbn [Client.perform]. rewrite !addTransactionToList_run.
    cbn [snd sdk net rpc_log approvalTransactionsList transactionList].
    f_equal. f_equal. fold tx tx' l.
    unfold Client.added at 2. rewrite Hnone.
    unfold Client.added. rewrite Hprint, existsb_app, Hnone. cbn.
    by rewrite bool_decide_eq_true_2. }
  split; [exact H1|]. split; [exact H2|].
  rewrite H2.
  change (transactionList
            (sdk (perform (RemoveTransactionFromList t (JBigNumber ref') d)
                    (perform (AddTransactionToList t (JBigNumber ref) d) r))))
    with (List.filter
            (fun e => negb (String.eqb (target e) t
                            && strict_eq (value e) (JBigNumber ref')
                            && String.eqb (data e) d))
            (transactionList
               (sdk (perform (AddTransactionToList t (JBigNumber ref) d) r)))).
  rewrite H1, List.filter_app. cbn [List.filter].
  assert (Hkeep : negb (String.eqb (target tx) t
                        && strict_eq (value tx) (JBigNumber ref')
                        && String.eqb (data tx) d) = true).
  { subst tx. cbn. apply Nat.eqb_neq in Hne. rewrite Hne.
    by rewrite andb_false_r. }
  rewrite Hkeep. f_equal.
  apply ClientFacts.filter_all. intros e He. cbv beta.
  apply not_false_iff_true. intros Hother.
  pose proof (ClientFacts.filter_none_in _ _ Hocc e He) as Hp. cbn in Hp.
  apply bool_decide_eq_false in Hp. exfalso. apply Hp.
  apply negb_false_iff in Hother.
  apply andb_prop in Hother as [Htv Hd].
  apply andb_prop in Htv as [Ht Hv].
  apply String.eqb_eq in Ht, Hd.
  apply (ClientFacts.strict_eq_JSON ethers) in Hv.
  rewrite <- Hprint. unfold Client.JSON_stringify. subst tx'. cbn.
  cbn in Hv. congruence.
Qed.

(** ** The token helpers *)

Lemma added_idempotent tx l : added tx (added tx l) = added tx l.
Proof.
  rewrite ClientFacts.added_twice. unfold Client.added.
  rewrite ClientFacts.existsb_filter. fold (occurrences tx l).
  by destruct (Nat.eqb _ 0).
Qed.

(** The state once the accumulator has been raised. *)
Abbreviation counted tok v r :=
  {| sdk := {| approvalTransactionsList :=
                 <[tok := default 0 (approvals r !! tok) + v]> (approvals r);
               transactionList := transactionList (sdk r) |};
     net := net r; rpc_log := rpc_log r |}.

Lemma addERC20Transfer_run (r : Run Net) tok t v :
  addERC20Transfer ethers tok t v r
  = if inherited tok then
      (Throw "this.approvalTransactionsList[tokenAddress].plus is not a function",
       r)
    else
      match new_Contract ethers tok with
      | Throw e => (Throw e, counted tok v r)
      | Normal _ =>
          match encode_transferFrom ethers tok (signer_getAddress ethers) t v
          with
          | Throw e => (Throw e, counted tok v r)
          | Normal d =>
              addTransactionToList ethers tok (JNumber 0) d (counted tok v r)
          end
      end.
Proof.
  unfold addERC20Transfer, try_rethrow, accumulate.
  unfold bind at 1. unfold bind at 1.
  unfold this_approvalTransactionsList.
  destruct (inherited tok); [reflexivity|].
  unfold set_approvalTransactionsList.
  rewrite ClientFacts.accumulate_insert.
  unfold getContractInstance, try_rethrow, bind, pure_call, ret.
  destruct (new_Contract ethers tok) as [[]|e]; [|reflexivity].
  by destruct (encode_transferFrom ethers tok _ t v) as [d|e].
Qed.

Lemma addERC20Approve_run (r : Run Net) tok t v :
  addERC20Approve ethers tok t v r
  = if inherited tok then
      (Throw "this.approvalTransactionsList[tokenAddress].plus is not a function",
       r)
    else
      match new_Contract ethers tok with
      | Throw e => (Throw e, counted tok v r)
      | Normal _ =>
          match encode_approve ethers tok t v with
          | Throw e => (Throw e, counted tok v r)
          | Normal d =>
              addTransactionToList ethers tok (JNumber 0) d (counted tok v r)
          end
      end.
Proof.
  unfold addERC20Approve, try_rethrow, accumulate.
  unfold bind at 1. unfold bind at 1.
  unfold this_approvalTransactionsList.
  destruct (inherited tok); [reflexivity|].
  unfold set_approvalTransactionsList.
  rewrite ClientFacts.accumulate_insert.
  unfold getContractInstance, try_rethrow, bind, pure_call, ret.
  destruct (new_Contract ethers tok) as [[]|e]; [|reflexivity].
  by destruct (encode_approve ethers tok t v) as [d|e].
Qed.

(** [addERC20Transfer] and [addERC20Approve] raise the accumulator before
    they build the contract object and encode the call.  When one of
    those two steps throws, the method throws, nothing is added to the
    list and no request is made, and yet the amount has been counted: the
    next batch asks for an allowance that covers it.  Only under a key
    that every JS object inherits does the method throw earlier, before
    anything is counted. *)
Theorem failed_add_is_still_counted (r r' : Run Net) tok t v e :
  addERC20Transfer ethers tok t v r = (Throw e, r')
  \/ addERC20Approve ethers tok t v r = (Throw e, r') ->
  transactionList (sdk r') = transactionList (sdk r)
  /\ approvals r'
     = (if inherited tok then approvals r
        else <[tok := default 0 (approvals r !! tok) + v]> (approvals r))
  /\ rpc_log r' = rpc_log r.
Proof.
  rewrite addERC20Transfer_run, addERC20Approve_run.
  destruct (inherited tok); [by intros [[= _ <-]|[= _ <-]]|].
  intros [Hrun|Hrun]; revert Hrun;
    (destruct (new_Contract ethers tok) as [[]|e0];
     [|by intros [= _ <-]]).
  - destruct (encode_transferFrom ethers tok _ t v) as [d|e1];
      [|by intros [= _ <-]].
    rewrite addTransactionToList_run. discriminate.
  - destruct (encode_approve ethers tok t v) as [d|e1];
      [|by intros [= _ <-]].
    rewrite addTransactionToList_run. discriminate.
Qed.

(** The same transfer added twice is in the list once, since the second
    triple is a duplicate of the first, but its amount is counted twice.
    Under a key that every JS object inherits both calls throw and
    nothing changes. *)
Theorem repeated_transfer_is_listed_once_and_counted_twice
    (r : Run Net) tok t v d :
  new_Contract ethers tok = Normal tt ->
  encode_transferFrom ethers tok (signer_getAddress ethers) t v = Normal d ->
  let tx := {| target := tok; value := JNumber 0; data := d |} in
  let r1 := perform (AddERC20Transfer tok t v) r in
  let r2 := perform (AddERC20Transfer tok t v) r1 in
  if inherited tok then r1 = r /\ r2 = r
  else
    transactionList (sdk r1) = added tx (transactionList (sdk r))
    /\ transactionList (sdk r2) = transactionList (sdk r1)
    /\ occurrences tx (transactionList (sdk r2)) <> 0%nat
    /\ approvals r2 !! tok = Some (default 0 (approvals r !! tok) + v + v).
Proof.
  intros Hnew Henc. cbn zeta. cbn [Client.perform].
  rewrite !addERC20Transfer_run.
  destruct (inherited tok); [by split|].
  rewrite Hnew, Henc, !addTransactionToList_run.
  cbn [snd sdk net rpc_log approvalTransactionsList transactionList].
  split; [reflexivity|]. split; [apply added_idempotent|].
  split.
  - rewrite added_idempotent. unfold Client.added.
    rewrite ClientFacts.existsb_filter.
    fold (occurrences {| target := tok; value := JNumber 0; data := d |}
            (transactionList (sdk r))).
    destruct (Nat.eqb_spec (occurrences
                {| target := tok; value := JNumber 0; data := d |}
                (transactionList (sdk r))) 0) as [Hz|Hnz]; cbn [negb];
      [|exact Hnz].
    rewrite ClientFacts.occurrences_app, ClientFacts.occurrences_self. lia.
  - by rewrite !lookup_insert_eq.
Qed.

(** ** The empty list *)

(** With nothing in the list, [executeBatchTransaction] and
    [estimateGasForBatchTransaction] throw "Transaction list is empty"
    before they ask the network anything, whatever the accumulator
    holds. *)
Theorem empty_list_is_refused (r : Run Net) :
  transactionList (sdk r) = [] ->
  executeBatchTransaction ethers r = (Throw "Transaction list is empty", r)
  /\ estimateGasForBatchTransaction ethers r
     = (Throw "Transaction list is empty", r).
Proof.
  intros Hl. split.
  - unfold executeBatchTransaction, try_rethrow.
    unfold bind at 1, this_transactionList at 1. unfold bind at 1.
    by rewrite Hl.
  - unfold estimateGasForBatchTransaction, try_rethrow.
    unfold bind at 1, this_transactionList at 1. unfold bind at 1.
    by rewrite Hl.
Qed.

(** ** Estimating *)

Lemma estimate_if_needed_run entry (r : Run Net) c r' :
  estimate_if_needed ethers entry r = (c, r') ->
  exists traffic,
    rpc_log r' = rpc_log r ++ traffic
    /\ forallb Traffic.read_only traffic = true.
Proof.
  destruct entry as [tok req].
  unfold estimate_if_needed, try_rethrow, getContractInstance, try_rethrow.
  unfold bind, pure_call, ret, request.
  destruct (new_Contract ethers tok) as [[]|e].
  2:{ intros [= <- <-]. exists []. by rewrite app_nil_r. }
  destruct (allowance ethers tok _ _ (net r)) as [[a|e] n1].
  2:{ intros [= <- <-]. eexists [_]. cbn. split; reflexivity. }
  destruct (a <? req).
  - cbn [net sdk rpc_log].
    destruct (estimateGas_approve ethers tok _ req n1) as [[g|e] n2];
      intros [= <- <-]; eexists [_; _]; cbn; rewrite <- app_assoc; cbn;
      split; reflexivity.
  - intros [= <- <-]. eexists [_]. cbn. split; reflexivity.
Qed.

Lemma Promise_all_estimates entries : forall (r : Run Net) cs r',
  Promise_all (List.map (estimate_if_needed ethers) entries) r = (cs, r') ->
  exists traffic,
    rpc_log r' = rpc_log r ++ traffic
    /\ forallb Traffic.read_only traffic = true.
Proof.
  induction entries as [|entry entries IH]; intros r cs r';
    cbn [List.map Promise_all].
  - intros [= <- <-]. exists []. by rewrite app_nil_r.
  - destruct (estimate_if_needed ethers entry r) as [c r1] eqn:H1.
    destruct (Promise_all _ r1) as [cs' r2] eqn:H2.
    intros [= <- <-].
    destruct (estimate_if_needed_run _ _ _ _ H1) as (t1 & Hl1 & Ht1).
    destruct (IH _ _ _ H2) as (t2 & Hl2 & Ht2).
    exists (t1 ++ t2). rewrite Hl2, Hl1, <- app_assoc.
    rewrite forallb_app, Ht1, Ht2. auto.
Qed.

(** [estimateGasForBatchTransaction] changes nothing: the SDK object is
    as it was, the list is not cleared, and everything it asks the network
    is a call or an estimate; no transaction is sent and none is waited
    for.  The number it returns is the estimate for the batch call alone,
    its last request: the estimates it asks for the approvals are not
    added to it. *)
Theorem estimateGasForBatchTransaction_only_asks (r : Run Net) :
  let c := (estimateGasForBatchTransaction ethers r).1 in
  let r' := (estimateGasForBatchTransaction ethers r).2 in
  sdk r' = sdk r
  /\ exists asked,
       rpc_log r' = rpc_log r ++ asked
       /\ forallb Traffic.read_only asked = true
       /\ forall gas, c = Normal gas ->
            transactionList (sdk r) <> []
            /\ exists before,
                 asked = before ++ [EstimateExecuteBatch (Normal gas)].
Proof.
  cbn zeta.
  split; [apply ClientFacts.estimateGasForBatchTransaction_keeps_sdk|].
  destruct (estimateGasForBatchTransaction ethers r) as [c r'] eqn:Hrun.
  cbn [fst snd]. revert Hrun.
  unfold estimateGasForBatchTransaction, try_rethrow.
  unfold bind at 1, this_transactionList at 1. unfold bind at 1.
  destruct (transactionList (sdk r)) as [|tx0 l0] eqn:Hl; cbn [length Nat.eqb].
  { intros [= <- <-]. exists []. rewrite app_nil_r. split; [reflexivity|].
    split; [reflexivity|]. discriminate. }
  unfold ret at 1. unfold bind at 1, this_approvalTransactionsList at 1.
  unfold bind at 1.
  destruct (Promise_all _ r) as [[vs|e] r1] eqn:Hall;
    apply Promise_all_estimates in Hall as (traffic & Hlog & Ht).
  2:{ intros [= <- <-]. exists traffic. split; [exact Hlog|].
      split; [exact Ht|]. discriminate. }
  unfold bind, this_transactionList, request.
  destruct (estimateGas_executeBatch ethers _ _ _ _ (net r1)) as [c' n2].
  intros [= <- <-]. cbn [rpc_log]. eexists. rewrite Hlog, <- app_assoc.
  split; [reflexivity|]. rewrite forallb_app, Ht. cbn.
  split; [reflexivity|]. intros gas ->. split; [discriminate | eauto].
Qed.

(** ** Which approvals are sent *)

Lemma approve_if_needed_justified tok req (r : Run Net) c r' :
  approve_if_needed ethers (tok, req) r = (c, r') ->
  exists traffic,
    rpc_log r' = rpc_log r ++ traffic
    /\ forall tok' amt res, In (SendApprove tok' amt res) traffic ->
         tok' = tok /\ amt = req
         /\ exists a, In (CallAllowance tok (Normal a)) traffic /\ a < req.
Proof.
  unfold approve_if_needed, try_rethrow, getContractInstance, try_rethrow.
  unfold bind, pure_call, ret, request.
  destruct (new_Contract ethers tok) as [[]|e].
  2:{ intros [= <- <-]. exists []. rewrite app_nil_r.
      split; [reflexivity|]. intros ? ? ? []. }
  destruct (allowance ethers tok _ _ (net r)) as [[a|e] n1].
  2:{ intros [= <- <-]. eexists [_]. cbn. split; [reflexivity|].
      intros ? ? ? [Hq|[]]. discriminate Hq. }
  destruct (Z.ltb_spec a req) as [Hlt|_].
  - cbn [net sdk rpc_log].
    destruct (approve ethers tok _ req n1) as [[tx|e] n2];
      intros [= <- <-]; eexists [_; _]; cbn; rewrite <- app_assoc; cbn;
      (split; [reflexivity|]);
      intros tok' amt res [Hq|[Hq|[]]]; try discriminate Hq;
      injection Hq as <- <- <-; eauto 10.
  - intros [= <- <-]. eexists [_]. cbn. split; [reflexivity|].
    intros ? ? ? [Hq|[]]. discriminate Hq.
Qed.

Lemma Promise_all_justified entries : forall (r : Run Net) cs r',
  Promise_all (List.map (approve_if_needed ethers) entries) r = (cs, r') ->
  exists traffic,
    rpc_log r' = rpc_log r ++ traffic
    /\ forall tok amt res, In (SendApprove tok amt res) traffic ->
         In (tok, amt) entries
         /\ exists a, In (CallAllowance tok (Normal a)) traffic /\ a < amt.
Proof.
  induction entries as [|[tok0 req0] entries IH]; intros r cs r';
    cbn [List.map Promise_all].
  - intros [= <- <-]. exists []. rewrite app_nil_r.
    split; [reflexivity|]. intros ? ? ? [].
  - destruct (approve_if_needed ethers (tok0, req0) r) as [c r1] eqn:H1.
    destruct (Promise_all _ r1) as [cs' r2] eqn:H2.
    intros [= <- <-].
    destruct (approve_if_needed_justified _ _ _ _ _ H1) as (t1 & Hl1 & Hj1).
    destruct (IH _ _ _ H2) as (t2 & Hl2 & Hj2).
    exists (t1 ++ t2). rewrite Hl2, Hl1, <- app_assoc.
    split; [reflexivity|].
    intros tok amt res Hin. apply in_app_or in Hin as [Hin|Hin].
    + destruct (Hj1 _ _ _ Hin) as (-> & -> & a & Ha & Hlt).
      split; [by left|]. exists a. split; [|exact Hlt].
      apply in_or_app. by left.
    + destruct (Hj2 _ _ _ Hin) as (Hentry & a & Ha & Hlt).
      split; [by right|]. exists a. split; [|exact Hlt].
      apply in_or_app. by right.
Qed.

(** [executeBatchTransaction] sends an approval for a token only after it
    has been told an allowance for that token that is below the token's
    accumulator entry, and the amount it approves is that entry: the
    running total, not the amount of the pending transfers. *)
Theorem approvals_are_sent_only_when_the_allowance_is_short (r : Run Net) :
  let r' := (executeBatchTransaction ethers r).2 in
  exists sent,
    rpc_log r' = rpc_log r ++ sent
    /\ forall tok amt res, In (SendApprove tok amt res) sent ->
         approvals r !! tok = Some amt
         /\ exists a, In (CallAllowance tok (Normal a)) sent /\ a < amt.
Proof.
  cbn zeta. unfold executeBatchTransaction, try_rethrow.
  unfold bind at 1, this_transactionList at 1. unfold bind at 1.
  destruct (transactionList (sdk r)) as [|tx0 l0] eqn:Hl; cbn [length Nat.eqb].
  { exists []. rewrite app_nil_r. split; [reflexivity|]. intros ? ? ? []. }
  unfold ret at 1. unfold bind at 1, this_approvalTransactionsList at 1.
  unfold bind at 1.
  destruct (Promise_all _ r) as [[vs|e] r1] eqn:Hall;
    apply Promise_all_justified in Hall as (traffic & Hlog & Hj).
  2:{ exists traffic. cbn [snd]. split; [exact Hlog|].
      intros tok amt res Hin. destruct (Hj _ _ _ Hin) as (Hentry & Ha).
      split; [|exact Ha].
      by apply list_elem_of_In, elem_of_map_to_list in Hentry. }
  assert (Hgen : forall tail,
            (forall tok amt res, ~ In (SendApprove tok amt res) tail) ->
            forall tok amt res,
              In (SendApprove tok amt res) (traffic ++ tail) ->
              approvals r !! tok = Some amt
              /\ exists a, In (CallAllowance tok (Normal a)) (traffic ++ tail)
                           /\ a < amt).
  { intros tail Htail tok amt res Hin.
    apply in_app_or in Hin as [Hin|Hin]; [|by destruct (Htail _ _ _ Hin)].
    destruct (Hj _ _ _ Hin) as (Hentry & a & Ha & Hlt).
    split; [by apply list_elem_of_In, elem_of_map_to_list in Hentry|].
    exists a. split; [|exact Hlt]. apply in_or_app. by left. }
  unfold bind at 1, this_transactionList at 1.
  unfold bind at 1, request at 1.
  destruct (executeBatch ethers _ _ _ _ (net r1)) as [[tx|e] n2].
  2:{ eexists. cbn [snd rpc_log]. rewrite Hlog, <- app_assoc.
      split; [reflexivity|]. apply Hgen.
      intros ? ? ? [Hq|[]]. discriminate Hq. }
  unfold bind at 1, request at 1. cbn [sdk net rpc_log].
  destruct (wait ethers tx n2) as [[[]|e] n3].
  2:{ eexists. cbn [snd rpc_log]. rewrite Hlog, <- !app_assoc.
      split; [reflexivity|]. apply Hgen.
      intros ? ? ? [Hq|[Hq|[]]]; discriminate Hq. }
  eexists. cbn. rewrite Hlog, <- !app_assoc.
  split; [reflexivity|]. apply Hgen.
  intros ? ? ? [Hq|[Hq|[]]]; discriminate Hq.
Qed.

End Methods.

(** ** Sessions *)

Section Sessions.
Import Mempool Picky.

(** Whatever is added, removed, sent and estimated, the one transfer in
    the list is there once. *)
Lemma session_keeps_triples_distinct_run :
  let ops := [ AddERC20Transfer "0xToken" "0xBob" 10;
               AddTransactionToList "0xCarol" (JNumber 5) "0x";
               AddERC20Transfer "0xToken" "0xBob" 10;
               EstimateGasForBatchTransaction;
               RemoveTransactionFromList "0xCarol" (JNumber 5) "0x";
               AddERC20Transfer "0xToken" "0xBob" 10 ] in
  (Client.occurrences lazy_ethers
     {| target := "0xToken"; value := JNumber 0;
        data := "transferFrom(0xSigner,0xBob,10)" |}
     (transactionList (sdk (session lazy_ethers ops fresh))) <= 1)%nat.
Proof.
  intros ops.
  apply (ClientFacts.session_keeps_triples_distinct lazy_ethers ops fresh).
  intros e. cbn. lia.
Defined.

(** A transfer to the empty address throws in the encoder, a transfer of
    the token at the empty address throws when the contract object is
    built: in both cases the 10 are counted.  A transfer of the token
    "constructor" throws before anything is counted. *)
Lemma failed_add_is_still_counted_run :
  let out := addERC20Transfer picky_ethers "0xToken" "" 10 fresh in
  let out' := addERC20Transfer picky_ethers "" "0xBob" 10 fresh in
  let out'' := addERC20Transfer picky_ethers "constructor" "0xBob" 10 fresh in
  (out.1 = Throw "invalid address"
   /\ transactionList (sdk out.2) = []
   /\ approvalTransactionsList (sdk out.2) !! "0xToken" = Some 10)
  /\ (out'.1 = Throw "invalid contract address or ENS name"
      /\ transactionList (sdk out'.2) = []
      /\ approvalTransactionsList (sdk out'.2) !! "" = Some 10)
  /\ (out''.1
      = Throw "this.approvalTransactionsList[tokenAddress].plus is not a function"
      /\ transactionList (sdk out''.2) = []
      /\ approvalTransactionsList (sdk out''.2) = ∅).
Proof.
  intros out out' out''.
  destruct (failed_add_is_still_counted picky_ethers fresh out.2
              "0xToken" "" 10 "invalid address" (or_introl eq_refl))
    as (Hl & Hm & _).
  destruct (failed_add_is_still_counted picky_ethers fresh out'.2
              "" "0xBob" 10 "invalid contract address or ENS name"
              (or_introl eq_refl))
    as (Hl' & Hm' & _).
  destruct (failed_add_is_still_counted picky_ethers fresh out''.2
              "constructor" "0xBob" 10
              "this.approvalTransactionsList[tokenAddress].plus is not a function"
              (or_introl eq_refl))
    as (Hl'' & Hm'' & _).
  split; [|split].
  - split; [reflexivity|]. split; [exact Hl|]. rewrite Hm. reflexivity.
  - split; [reflexivity|]. split; [exact Hl'|]. rewrite Hm'. reflexivity.
  - split; [reflexivity|]. split; [exact Hl''|]. rewrite Hm''. reflexivity.
Defined.

(** The same transfer of 10 twice: one entry, 20 counted. *)
Lemma repeated_transfer_is_listed_once_and_counted_twice_run :
  let r2 := session lazy_ethers
              [ AddERC20Transfer "0xToken" "0xBob" 10;
                AddERC20Transfer "0xToken" "0xBob" 10 ] fresh in
  length (transactionList (sdk r2)) = 1%nat
  /\ approvalTransactionsList (sdk r2) !! "0xToken" = Some 20.
Proof.
  intros r2.
  destruct (repeated_transfer_is_listed_once_and_counted_twice lazy_ethers
              fresh "0xToken" "0xBob" 10 "transferFrom(0xSigner,0xBob,10)"
              eq_refl eq_refl) as (_ & _ & _ & Hm).
  split; [reflexivity | exact Hm].
Defined.

(** A new SDK object has nothing to send and nothing to estimate. *)
Lemma empty_list_is_refused_run :
  executeBatchTransaction lazy_ethers fresh
  = (Throw "Transaction list is empty", fresh)
  /\ estimateGasForBatchTransaction lazy_ethers fresh
     = (Throw "Transaction list is empty", fresh).
Proof. exact (empty_list_is_refused lazy_ethers fresh eq_refl). Defined.

(** Objects 4 and 5 both hold the number 2: added with the one, the
    entry cannot be removed with the other. *)
Lemma remove_needs_the_object_that_was_added_run :
  let tx := {| target := "0xBob"; value := JBigNumber 4; data := "0x" |} in
  let r1 := perform twin_ethers
              (AddTransactionToList "0xBob" (JBigNumber 4) "0x") fresh in
  let r2 := perform twin_ethers
              (AddTransactionToList "0xBob" (JBigNumber 5) "0x") r1 in
  let r3 := perform twin_ethers
              (RemoveTransactionFromList "0xBob" (JBigNumber 5) "0x") r2 in
  transactionList (sdk r1) = [tx] /\ r2 = r1
  /\ transactionList (sdk r3) = [tx].
Proof.
  exact (remove_needs_the_object_that_was_added twin_ethers fresh
           "0xBob" 4%nat 5%nat "0x" ltac:(discriminate) eq_refl eq_refl).
Defined.

End Sessions.
End ClientMore.

(* ===================================================================== *)
(** * Part VIII: the deployment script                                    *)
(* ===================================================================== *)

Module DeployFacts.
Import Deploy.

Section Script.

Context {Net : Type}.
Variable hardhat : Hardhat Net.

(** [deployBatchTransactionContract] is fulfilled whatever happens and
    writes one line: the address, or the error it caught. *)
Lemma deployBatchTransactionContract_run (r : Run Net) :
  exists n' line,
    deployBatchTransactionContract hardhat r
    = (Fulfilled tt, {| net := n'; console := console r ++ [line] |})
    /\ ((exists target,
           line = console_log ("✅ BatchTransactionContract deployed to: "
                               +:+ target))
        \/ (exists error,
              line = console_error
                       "❌ Error deploying BatchTransactionContract:" error)).
Proof.
  unfold deployBatchTransactionContract, try_catch, bind, await, print.
  destruct (getContractFactory hardhat _ (net r)) as [[factory|e] n1];
    cbn [net console]; [|eauto 10].
  destruct (deploy hardhat factory n1) as [[contract|e] n2];
    cbn [net console]; [|eauto 10].
  destruct (waitForDeployment hardhat contract n2) as [[[]|e] n3];
    cbn [net console]; eauto 10.
Qed.

(** [deployMockContracts] is fulfilled whatever happens and writes the two
    addresses, or the one error it caught and no address. *)
Lemma deployMockContracts_run (r : Run Net) :
  exists n' lines,
    deployMockContracts hardhat r
    = (Fulfilled tt, {| net := n'; console := console r ++ lines |})
    /\ ((exists token storage,
           lines = [ console_log ("✅ MockToken deployed to: " +:+ token);
                     console_log ("✅ SimpleStorage deployed to: "
                                  +:+ storage) ])
        \/ (exists error,
              lines = [console_error "❌ Error deploying Mock Contracts:"
                         error])).
Proof.
  unfold deployMockContracts, try_catch, bind, Promise_all, await, print.
  destruct (getContractFactory hardhat "MockToken" (net r)) as [f1 n1];
    cbn [net console].
  destruct (getContractFactory hardhat "SimpleStorage" n1) as [f2 n2];
    cbn [net console].
  destruct f1 as [MockToken|e]; [|destruct f2; eauto 10].
  destruct f2 as [SimpleStorage|e]; [|eauto 10]. cbn [net console].
  destruct (deploy hardhat MockToken n2) as [c1 n3]; cbn [net console].
  destruct (deploy hardhat SimpleStorage n3) as [c2 n4]; cbn [net console].
  destruct c1 as [mockToken|e]; [|destruct c2; eauto 10].
  destruct c2 as [simpleStorage|e]; [|eauto 10]. cbn [net console].
  destruct (waitForDeployment hardhat mockToken n4) as [w1 n5];
    cbn [net console].
  destruct (waitForDeployment hardhat simpleStorage n5) as [w2 n6];
    cbn [net console].
  destruct w1 as [[]|e]; [|destruct w2; eauto 10].
  destruct w2 as [[]|e]; [|eauto 10]. cbn [net console].
  eexists _, [_; _]. rewrite <- app_assoc. eauto 10.
Qed.

(** Whatever hardhat does, the script exits with code 0 and its last line
    is "Deployment completed successfully.": an error in a deployment is
    caught, written to the console and forgotten.  Between the first line
    and the last stand, for the executor, its address or an error, and
    for the two other contracts, both addresses or one error. *)
Theorem script_always_reports_success (r : Run Net) :
  exists n' first second,
    script hardhat r
    = (0%N,
       {| net := n';
          console := console r
            ++ [console_log "🚀 Starting deployment..."; first]
            ++ second
            ++ [console_log "🎉 Deployment completed successfully."] |})
    /\ ((exists target,
           first = console_log ("✅ BatchTransactionContract deployed to: "
                                +:+ target))
        \/ (exists error,
              first = console_error
                        "❌ Error deploying BatchTransactionContract:" error))
    /\ ((exists token storage,
           second = [ console_log ("✅ MockToken deployed to: " +:+ token);
                      console_log ("✅ SimpleStorage deployed to: "
                                   +:+ storage) ])
        \/ (exists error,
              second = [console_error "❌ Error deploying Mock Contracts:"
                          error])).
Proof.
  unfold script, main.
  unfold bind at 1, print at 1.
  set (r0 := {| net := net r;
                console := console r
                  ++ [console_log "🚀 Starting deployment..."] |}).
  unfold bind at 1.
  destruct (deployBatchTransactionContract_run r0)
    as (n1 & first & -> & Hfirst).
  unfold bind at 1.
  destruct (deployMockContracts_run
              {| net := n1; console := console r0 ++ [first] |})
    as (n2 & second & -> & Hsecond).
  unfold print. cbn [net console].
  exists n2, first, second. split; [|auto].
  subst r0. cbn [console]. by rewrite <- !app_assoc.
Qed.

(** When no factory is to be had, nothing is deployed and the network is
    left alone, both errors are written to the console, and the script
    still reports success and exits with code 0. *)
Theorem script_reports_success_when_nothing_was_deployed
    (r : Run Net) (error : string -> string) :
  (forall name n,
     getContractFactory hardhat name n = (Rejected (error name), n)) ->
  exists name,
    (name = "MockToken" \/ name = "SimpleStorage")
    /\ script hardhat r
       = (0%N,
          {| net := net r;
             console := console r ++
               [ console_log "🚀 Starting deployment...";
                 console_error "❌ Error deploying BatchTransactionContract:"
                   (error "BatchTransactionContract");
                 console_error "❌ Error deploying Mock Contracts:"
                   (error name);
                 console_log "🎉 Deployment completed successfully." ] |}).
Proof.
  intros Hnone. exists "MockToken". split; [by left|].
  unfold script, main, deployBatchTransactionContract, deployMockContracts,
    try_catch, bind, Promise_all, await, print.
  cbn [net console]. rewrite !Hnone. cbn [net console].
  by rewrite <- !app_assoc.
Qed.

End Script.

(** The script run in a project that was never compiled. *)
Lemma script_reports_success_when_nothing_was_deployed_run :
  (script uncompiled {| net := tt; console := [] |}).1 = 0%N
  /\ last (console (script uncompiled {| net := tt; console := [] |}).2)
     = Some (console_log "🎉 Deployment completed successfully.").
Proof.
  destruct (script_reports_success_when_nothing_was_deployed uncompiled
              {| net := tt; console := [] |}
              (fun name => "HH700: Artifact for contract " +:+ name
                           +:+ " not found")
              ltac:(reflexivity)) as (name & _ & ->).
  split; reflexivity.
Defined.

End DeployFacts.
